(** * Hybrid retrieval with reciprocal rank fusion: a shallow embedding

    The development embeds [retriever/query_retriever.py],
    [indexing/bm25_index.py], [generation/generate_answer.py], the
    handler of [app/main_app.py], [ingestion/extract_text.py],
    [ingestion/chunk_text.py] and the chunking step of
    [pipeline_runner.py] of the RAG application and states the properties
    of the ingestion and retrieval pipeline over the embedding.

    Conventions of the embedding:
    - Python [float] is IEEE binary64, i.e. Rocq's primitive [float];
    - Python [int] is [Z]; the conversion to [float] performed by
      [1.0 / n] rounds to nearest even and raises [OverflowError] outside
      the binary64 range;
    - Python [dict] keeps insertion order, so it is an association list
      with unique keys, new keys appended at the end;
    - a Python [str] is a [string] read as Latin-1 text (one byte per
      character); its [hash] is CPython's SipHash-1-3 under the hash
      secret of the process;
    - exceptions derived from [Exception] are values of [exn]; a
      computation that may raise returns a [result];
    - calls to the outside world (FAISS, Whoosh, the chat model, the file
      system) are oracles of a [World]; every call is logged in a trace. *)

From Stdlib Require Import ZArith List String Ascii Bool Lia.
From Stdlib Require Import Permutation Sorted DecimalString.
From Stdlib Require DecimalPos DecimalZ.
From Stdlib Require Import Floats.
Import ListNotations.

Local Open Scope string_scope.
Local Open Scope list_scope.
Local Open Scope Z_scope.

(** ** Python values and exceptions *)

Module Py.

(** The metadata values and document ids the pipeline handles. *)
Inductive pyval : Type :=
| VNone
| VStr (s : string)
| VInt (n : Z).

Definition pyval_eqb (a b : pyval) : bool :=
  match a, b with
  | VNone, VNone => true
  | VStr s, VStr t => String.eqb s t
  | VInt n, VInt m => Z.eqb n m
  | _, _ => false
  end.

(** Truth value of an object, as tested by [or] and [if]. *)
Definition truthy (v : pyval) : bool :=
  match v with
  | VNone => false
  | VStr s => negb (String.eqb s "")
  | VInt n => negb (Z.eqb n 0)
  end.

(** [a or b] *)
Definition py_or (a b : pyval) : pyval := if truthy a then a else b.

(** [str(n)] for an [int]. *)
Definition str_of_int (n : Z) : string := NilZero.string_of_int (Z.to_int n).

(** [str(v)], which is also what an f-string field [{v}] renders. *)
Definition py_str (v : pyval) : string :=
  match v with
  | VNone => "None"
  | VStr s => s
  | VInt n => str_of_int n
  end.

(** Exceptions (subclasses of [Exception]) the embedded code can meet. *)
Inductive exn : Type :=
| ZeroDivisionError
| OverflowError
| KeyError (key : pyval)
| TypeError
| AttributeError
| BackendError (what : string).

Inductive result (A : Type) : Type :=
| Ok (a : A)
| Raise (e : exn).
Arguments Ok {A} a.
Arguments Raise {A} e.

Definition rbind {A B} (r : result A) (f : A -> result B) : result B :=
  match r with
  | Ok a => f a
  | Raise e => Raise e
  end.

(** A [for] loop whose body may raise: the state is threaded through the
    iterations and the first exception ends the loop. *)
Fixpoint for_each {S A} (body : S -> A -> result S) (l : list A) (s : S)
  : result S :=
  match l with
  | [] => Ok s
  | x :: l' => rbind (body s x) (for_each body l')
  end.

(** [enumerate(l, start)] *)
Fixpoint enumerate {A} (start : Z) (l : list A) : list (Z * A) :=
  match l with
  | [] => []
  | x :: l' => (start, x) :: enumerate (start + 1) l'
  end.

(** [l[:n]]: the first [n] items, and for a negative [n] all but the last
    [-n] items. *)
Definition slice_to {A} (n : Z) (l : list A) : list A :=
  if n <? 0 then firstn (Z.to_nat (Z.of_nat (List.length l) + n)) l
  else firstn (Z.to_nat n) l.

(** *** Insertion-ordered dictionaries *)

Definition dict (V : Type) : Type := list (pyval * V).

Fixpoint dict_get {V} (d : dict V) (k : pyval) : option V :=
  match d with
  | [] => None
  | (k', v) :: d' => if pyval_eqb k' k then Some v else dict_get d' k
  end.

(** [d.get(k, default)] *)
Definition dict_get_default {V} (d : dict V) (k : pyval) (default : V) : V :=
  match dict_get d k with
  | Some v => v
  | None => default
  end.

(** [k in d] *)
Definition dict_contains {V} (d : dict V) (k : pyval) : bool :=
  match dict_get d k with
  | Some _ => true
  | None => false
  end.

(** [d[k] = v]: an existing key keeps its position, a new one goes last. *)
Fixpoint dict_set {V} (d : dict V) (k : pyval) (v : V) : dict V :=
  match d with
  | [] => [(k, v)]
  | (k', v') :: d' =>
      if pyval_eqb k' k then (k', v) :: d' else (k', v') :: dict_set d' k v
  end.

(** [d[k]] *)
Definition dict_getitem {V} (d : dict V) (k : pyval) : result V :=
  match dict_get d k with
  | Some v => Ok v
  | None => Raise (KeyError k)
  end.

(** [d.items()] and the keys in iteration order. *)
Definition items {V} (d : dict V) : list (pyval * V) := d.
Definition keys {V} (d : dict V) : list pyval := map fst d.

(** *** Floats *)

(** Conversion of an [int] to a [float] (round to nearest even);
    [OverflowError] when the rounded value is not finite. *)
Definition float_of_int (n : Z) : result float :=
  match binary_normalize prec emax n 0 false with
  | S754_infinity _ => Raise OverflowError
  | sf => Ok (SF2Prim sf)
  end.

(** [x / n] for a [float] [x] and an [int] [n]. *)
Definition float_truediv_int (x : float) (n : Z) : result float :=
  rbind (float_of_int n) (fun d =>
    if PrimFloat.eqb d 0%float then Raise ZeroDivisionError
    else Ok (PrimFloat.div x d)).

(** *** [sorted(..., key=..., reverse=True)]

    Python's sort compares keys with [<] only and is stable, also with
    [reverse=True]: items whose keys are equal keep their relative order.
    [insert_desc] puts an item in front of a descending list and moves it
    to the right past the items with a strictly greater key. On keys
    that [<] orders totally (floats other than NaN) the result of a
    stable sort is unique, so this is the list [sorted] returns. *)
Section Sorting.
Context {A : Type} (key : A -> float).

Fixpoint insert_desc (x : A) (l : list A) : list A :=
  match l with
  | [] => [x]
  | y :: l' =>
      if PrimFloat.ltb (key x) (key y) then y :: insert_desc x l'
      else x :: y :: l'
  end.

Fixpoint sorted_reverse (l : list A) : list A :=
  match l with
  | [] => []
  | x :: l' => insert_desc x (sorted_reverse l')
  end.
End Sorting.

End Py.
Import Py.

(** ** Knobs of [retriever/query_retriever.py] *)

Definition DENSE_TOP_K : Z := 60.
Definition BM25_TOP_K : Z := 60.
Definition RRF_K : Z := 60.
Definition FINAL_TOP_K : Z := 5.
Definition USE_MULTI_QUERY : bool := true.
Definition N_REWRITES : Z := 3.
Definition USE_HYDE : bool := true.
Definition VECTORSTORE_DIR : string := "vectorstores/faiss_topic".
Definition BM25_DIR : string := "vectorstores/bm25_index".

(** ** Reciprocal rank fusion *)

(** The body of the inner loop of [_rrf_fuse]:
    [scores[doc_id] = scores.get(doc_id, 0.0) + 1.0 / (k + rank)]. *)
Definition rrf_add (k : Z) (scores : dict float) (p : Z * pyval)
  : result (dict float) :=
  let '(rank, doc_id) := p in
  rbind (float_truediv_int 1%float (k + rank)) (fun c =>
    Ok (dict_set scores doc_id
          (PrimFloat.add (dict_get_default scores doc_id 0%float) c))).

Definition rrf_list (k : Z) (scores : dict float) (lst : list pyval)
  : result (dict float) :=
  for_each (rrf_add k) (enumerate 1 lst) scores.

Definition _rrf_fuse (ranked_lists : list (list pyval)) (k : Z)
  : result (dict float) :=
  for_each (rrf_list k) ranked_lists [].

(** Step 7 of [retrieve_docs]: the ids by fused score, highest first. *)
Definition fused_order (fused : dict float) : list pyval :=
  map fst (sorted_reverse snd (items fused)).

(** ** The hash of a [str]

    [hash(s)] of CPython 3.11: SipHash-1-3 of the bytes of [s], keyed by
    the two 64-bit words of the hash secret, which is drawn when the
    interpreter starts (from [PYTHONHASHSEED], or at random when that is
    not set). *)

Module SipHash.

Definition w64 (x : Z) : Z := x mod 2 ^ 64.

Definition rotl (x b : Z) : Z :=
  w64 (Z.lor (Z.shiftl x b) (Z.shiftr x (64 - b))).

Record state : Type := St { v0 : Z; v1 : Z; v2 : Z; v3 : Z }.

Definition sipround (s : state) : state :=
  let '(St a b c d) := s in
  let a := w64 (a + b) in
  let c := w64 (c + d) in
  let b := Z.lxor (rotl b 13) a in
  let d := Z.lxor (rotl d 16) c in
  let a := rotl a 32 in
  let c := w64 (c + b) in
  let a := w64 (a + d) in
  let b := Z.lxor (rotl b 17) c in
  let d := Z.lxor (rotl d 21) a in
  let c := rotl c 32 in
  St a b c d.

(** One message word: [v3 ^= m; SINGLE_ROUND; v0 ^= m]. *)
Definition absorb (s : state) (m : Z) : state :=
  let '(St a b c d) := sipround (St (v0 s) (v1 s) (v2 s) (Z.lxor (v3 s) m)) in
  St (Z.lxor a m) b c d.

(** The little-endian value of a run of bytes. *)
Fixpoint le_word (bytes : list Z) : Z :=
  match bytes with
  | [] => 0
  | b :: bytes' => b + 256 * le_word bytes'
  end.

(** The full 8-byte words are absorbed in turn; the remaining bytes (fewer
    than 8) are returned. [fuel] bounds the number of words. *)
Fixpoint absorb_words (fuel : nat) (s : state) (bytes : list Z)
  : state * list Z :=
  match fuel with
  | O => (s, bytes)
  | S fuel' =>
      if (8 <=? List.length bytes)%nat
      then absorb_words fuel' (absorb s (le_word (firstn 8 bytes)))
             (skipn 8 bytes)
      else (s, bytes)
  end.

Definition siphash13 (k0 k1 : Z) (bytes : list Z) : Z :=
  let s := St (Z.lxor k0 0x736f6d6570736575) (Z.lxor k1 0x646f72616e646f6d)
              (Z.lxor k0 0x6c7967656e657261) (Z.lxor k1 0x7465646279746573) in
  let '(s, tail) := absorb_words (List.length bytes) s bytes in
  let b := Z.lor (w64 (Z.shiftl (Z.of_nat (List.length bytes)) 56))
                 (le_word tail) in
  let s := absorb s b in
  let s := St (v0 s) (v1 s) (Z.lxor (v2 s) 0xff) (v3 s) in
  let s := sipround (sipround (sipround s)) in
  Z.lxor (Z.lxor (v0 s) (v1 s)) (Z.lxor (v2 s) (v3 s)).

Definition bytes_of_str (s : string) : list Z :=
  map (fun c => Z.of_N (N_of_ascii c)) (list_ascii_of_string s).

(** [hash(s)] under the hash secret [(k0, k1)]: the empty string hashes to
    0, the 64-bit result is read as a signed integer, and -1 is replaced
    by -2. *)
Definition str_hash (secret : Z * Z) (s : string) : Z :=
  match bytes_of_str s with
  | [] => 0
  | bytes =>
      let x := siphash13 (fst secret) (snd secret) bytes in
      let x := if 2 ^ 63 <=? x then x - 2 ^ 64 else x in
      if x =? -1 then -2 else x
  end.

End SipHash.

(** ** Documents and the outside world *)

(** A LangChain [Document]: the text and the metadata dictionary (which
    may be [None]). *)
Record Document : Type := {
  page_content : string;
  metadata : option (list (string * pyval))
}.

(** A loaded FAISS vector store, seen through the two search methods the
    retriever calls. *)
Record FAISS : Type := {
  similarity_search_with_score :
    string -> Z -> result (list (Document * float));
  similarity_search : string -> Z -> result (list Document)
}.

(** A search result of the Whoosh index: the stored fields and the score. *)
Record Hit : Type := {
  stored_doc_id : string;
  stored_source : string;
  stored_page : Z;
  stored_content : string;
  hit_score : float
}.

(** The process and its collaborators. *)
Record World : Type := {
  (** the secret that keys [hash] in this process *)
  hash_secret : Z * Z;
  (** [OpenAIEmbeddings(...)] followed by [FAISS.load_local(path, ...)] *)
  faiss_load_local : string -> result FAISS;
  (** whether [from indexing.bm25_index import search_bm25] succeeded *)
  HAS_BM25 : bool;
  (** [os.path.isdir] *)
  os_path_isdir : pyval -> result bool;
  (** [windex.open_dir(dir)], the query parser and [searcher.search] *)
  whoosh_search : pyval -> string -> Z -> result (list Hit);
  (** [from openai import OpenAI] and [OpenAI(api_key=...)] *)
  openai_client : result unit;
  (** [client.chat.completions.create(model, messages, max_tokens)]
      followed by [.choices[0].message.content] *)
  chat_completions_create :
    string -> list (string * string) -> Z -> result (option string);
  (** [str.splitlines], [str.strip()], [str.strip(chars)], [str.lower] *)
  str_splitlines : string -> list string;
  str_strip : string -> string;
  str_strip_chars : string -> string -> string;
  str_lower : string -> string
}.

(** The calls that leave the process, in the order they are made. *)
Inductive event : Type :=
| EvLoadLocal (path : string)
| EvSearchWithScore (q : string) (k : Z)
| EvSearch (q : string) (k : Z)
| EvIsdir (path : pyval)
| EvWhoosh (dir : pyval) (q : string) (limit : Z)
| EvOpenAI
| EvChat (model : string) (messages : list (string * string))
         (max_tokens : Z).

(** ** Computations that call out and may raise *)

Definition M (A : Type) : Type := list event -> result A * list event.

Definition ret {A} (a : A) : M A := fun t => (Ok a, t).

Definition bind {A B} (m : M A) (f : A -> M B) : M B :=
  fun t =>
    match m t with
    | (Ok a, t') => f a t'
    | (Raise e, t') => (Raise e, t')
    end.

Definition lift {A} (r : result A) : M A := fun t => (r, t).

(** An outside call: logged, then answered by the oracle. *)
Definition call {A} (ev : event) (r : result A) : M A :=
  fun t => (r, t ++ [ev]).

(** [try: body / except Exception: handler] *)
Definition try_except {A} (body : M A) (handler : exn -> M A) : M A :=
  fun t =>
    match body t with
    | (Ok a, t') => (Ok a, t')
    | (Raise e, t') => handler e t'
    end.

Declare Scope monad_scope.
Delimit Scope monad_scope with monad.
Notation "x <- m ;; k" := (bind m (fun x => k))
  (at level 61, m at next level, right associativity) : monad_scope.
Notation "' p <- m ;; k" := (bind m (fun x => let p := x in k))
  (at level 61, p pattern, m at next level, right associativity)
  : monad_scope.
Local Open Scope monad_scope.

Fixpoint for_eachM {S A} (body : S -> A -> M S) (l : list A) (s : S) : M S :=
  match l with
  | [] => ret s
  | x :: l' => s' <- body s x ;; for_eachM body l' s'
  end.

Fixpoint mapM {A B} (f : A -> M B) (l : list A) : M (list B) :=
  match l with
  | [] => ret []
  | x :: l' => y <- f x ;; ys <- mapM f l' ;; ret (y :: ys)
  end.

Definition nl : string := String (ascii_of_nat 10) "".
Definition dquote : string := String (ascii_of_nat 34) "".

Definition nonempty (s : string) : bool := negb (String.eqb s "").

(** ** [retriever/query_retriever.py] and [indexing/bm25_index.py] *)

(** The two prompts of [_generate_rewrites_openai], as (role, content)
    pairs. *)
Definition paraphrase_messages (query : string) (n : Z)
  : list (string * string) :=
  [("system", "You rewrite search queries into diverse paraphrases.");
   ("user",
    ("Rewrite the following search query into " ++ str_of_int n
     ++ " different short variants, one per line:" ++ nl ++ nl
     ++ query)%string)].

Definition hyde_messages (query : string) : list (string * string) :=
  [("system",
    "Write a 2-3 sentence factual mini-answer that could answer the question.");
   ("user", query)].

Section Retriever.
Variable W : World.

(** [md.get(key)] on a metadata dictionary. *)
Fixpoint md_get (md : list (string * pyval)) (key : string) : option pyval :=
  match md with
  | [] => None
  | (k', v) :: md' => if String.eqb k' key then Some v else md_get md' key
  end.

Definition md_get_default (md : list (string * pyval)) (key : string)
    (default : pyval) : pyval :=
  match md_get md key with
  | Some v => v
  | None => default
  end.

(** [d.metadata or {}] *)
Definition metadata_or_empty (d : Document) : list (string * pyval) :=
  match metadata d with
  | Some md => md
  | None => []
  end.

(** The id synthesised for a document without a usable ["doc_id"]:
    [f"{(d.metadata or {}).get('source','')}-{hash(d.page_content)}"]. *)
Definition derived_id (d : Document) : string :=
  (py_str (md_get_default (metadata_or_empty d) "source" (VStr ""))
   ++ "-"
   ++ str_of_int (SipHash.str_hash (hash_secret W) (page_content d)))%string.

(** [(d.metadata or {}).get("doc_id") or f"..."] *)
Definition doc_id_of (d : Document) : pyval :=
  py_or (md_get_default (metadata_or_empty d) "doc_id" VNone)
        (VStr (derived_id d)).

(** [search_bm25]. *)
Definition search_bm25 (query : string) (index_dir : pyval) (top_k : Z)
  : M (list (Document * float)) :=
  results <- call (EvWhoosh index_dir query top_k)
                  (whoosh_search W index_dir query top_k) ;;
  ret (map (fun r =>
              ({| page_content := stored_content r;
                  metadata := Some [("doc_id", VStr (stored_doc_id r));
                                    ("source", VStr (stored_source r));
                                    ("page", VInt (stored_page r))] |},
               hit_score r))
           results).

(** [load_vectorstore]. *)
Definition load_vectorstore (persist_path : string) : M FAISS :=
  call (EvLoadLocal persist_path) (faiss_load_local W persist_path).

(** [_dense_search]. *)
Definition _dense_search (vs : FAISS) (q : string) (k : Z)
  : M (list (Document * float)) :=
  try_except
    (call (EvSearchWithScore q k) (similarity_search_with_score vs q k))
    (fun _ =>
       docs <- call (EvSearch q k) (similarity_search vs q k) ;;
       ret (map (fun d => (d, 0%float)) docs)).

(** [.choices[0].message.content] followed by a [str] method: a missing
    content is [None], which has no such method. *)
Definition content_text (content : option string) : M string :=
  match content with
  | Some s => ret s
  | None => lift (Raise AttributeError)
  end.

(** [_generate_rewrites_openai]. *)
Definition _generate_rewrites_openai (query : string) (n : Z) (hyde : bool)
  : M (list string) :=
  _ <- call EvOpenAI (openai_client W) ;;
  let messages := paraphrase_messages query n in
  content <- call (EvChat "gpt-4o-mini" messages 150)
                  (chat_completions_create W "gpt-4o-mini" messages 150) ;;
  text <- content_text content ;;
  let rewrites :=
    map (fun ln => str_strip W (str_strip_chars W ln "- "))
        (filter (fun ln => nonempty (str_strip W ln))
                (str_splitlines W text)) in
  let rewrites :=
    filter (fun r => nonempty r
                     && negb (String.eqb (str_lower W r) (str_lower W query)))
           rewrites in
  let rewrites := slice_to n rewrites in
  rewrites <-
    (if hyde then
       let messages := hyde_messages query in
       hyde_content <-
         call (EvChat "gpt-4o-mini" messages 120)
              (chat_completions_create W "gpt-4o-mini" messages 120) ;;
       hyde_text <- content_text hyde_content ;;
       ret (rewrites ++ [str_strip W hyde_text])
     else ret rewrites) ;;
  ret (query :: rewrites).

(** Steps 4.2 and 4.3 (inner loop): the id of each hit is appended to the
    id list and its document is banked unless the id is banked already. *)
Definition collect (st : dict Document * list pyval)
    (hit : Document * float) : dict Document * list pyval :=
  let '(doc_bank, ids) := st in
  let d := fst hit in
  let doc_id := doc_id_of d in
  (if dict_contains doc_bank doc_id then doc_bank
   else dict_set doc_bank doc_id d,
   ids ++ [doc_id]).

Definition collect_hits (doc_bank : dict Document)
    (hits : list (Document * float)) : dict Document * list pyval :=
  fold_left collect hits (doc_bank, []).

(** Step 4: the body of the loop over the query variants. *)
Definition fan_out_step (vs : FAISS) (bm25_dir : pyval)
    (st : dict Document * list (list pyval)) (q : string)
  : M (dict Document * list (list pyval)) :=
  let '(doc_bank, ranked_lists) := st in
  dense_hits <- _dense_search vs q DENSE_TOP_K ;;
  let '(doc_bank, dense_ids) := collect_hits doc_bank dense_hits in
  let ranked_lists := ranked_lists ++ [dense_ids] in
  use_bm25 <-
    (if HAS_BM25 W
     then call (EvIsdir bm25_dir) (os_path_isdir W bm25_dir)
     else ret false) ;;
  if (use_bm25 : bool) then
    try_except
      (lex_hits <- search_bm25 q bm25_dir BM25_TOP_K ;;
       let '(doc_bank', lex_ids) := collect_hits doc_bank lex_hits in
       ret (doc_bank', ranked_lists ++ [lex_ids]))
      (fun _ => ret (doc_bank, ranked_lists))
  else ret (doc_bank, ranked_lists).

(** Step 2: the query variants. *)
Definition query_variants (query : string) : M (list string) :=
  if USE_MULTI_QUERY then
    try_except (_generate_rewrites_openai query N_REWRITES USE_HYDE)
               (fun _ => ret [query])
  else ret [query].

(** Step 4 as a whole. *)
Definition fan_out (vs : FAISS) (bm25_dir : pyval) (queries : list string)
  : M (dict Document * list (list pyval)) :=
  for_eachM (fan_out_step vs bm25_dir) queries ([], []).

(** Steps 6 to 8: fusion, ordering, assembly. *)
Definition fuse_and_assemble (doc_bank : dict Document)
    (ranked_lists : list (list pyval)) (k : Z) : M (list Document) :=
  fused <- lift (_rrf_fuse ranked_lists RRF_K) ;;
  let top_ids := slice_to (Z.max k 30) (fused_order fused) in
  docs <- mapM (fun i => lift (dict_getitem doc_bank i)) top_ids ;;
  ret (slice_to k docs).

(** Step 5: the dense-only fallback. *)
Definition dense_only_fallback (vs : FAISS) (query : string) (k : Z)
  : M (list Document) :=
  dense_hits <- _dense_search vs query DENSE_TOP_K ;;
  ret (map fst (slice_to k dense_hits)).

(** Steps 5 to 8: what [retrieve_docs] does once the loop is over. *)
Definition after_fan_out (vs : FAISS) (query : string) (k : Z)
    (doc_bank : dict Document) (ranked_lists : list (list pyval))
  : M (list Document) :=
  match ranked_lists with
  | [] => dense_only_fallback vs query k
  | _ :: _ => fuse_and_assemble doc_bank ranked_lists k
  end.

(** [retrieve_docs]. *)
Definition retrieve_docs (query : string) (persist_path : string)
    (bm25_dir : pyval) (k : Z) : M (list Document) :=
  vs <- load_vectorstore persist_path ;;
  queries <- query_variants query ;;
  ' (doc_bank, ranked_lists) <- fan_out vs bm25_dir queries ;;
  after_fan_out vs query k doc_bank ranked_lists.

End Retriever.

(** ** [generation/generate_answer.py] *)

Section Generation.
Variable W : World.

(** [sep.join(parts)] *)
Fixpoint join (sep : string) (parts : list string) : string :=
  match parts with
  | [] => ""
  | [p] => p
  | p :: parts' => (p ++ sep ++ join sep parts')%string
  end.

(** [doc.metadata['source']] *)
Definition metadata_source (doc : Document) : result pyval :=
  match metadata doc with
  | None => Raise TypeError
  | Some md =>
      match md_get md "source" with
      | Some v => Ok v
      | None => Raise (KeyError (VStr "source"))
      end
  end.

Fixpoint context_parts (docs : list Document) : result (list string) :=
  match docs with
  | [] => Ok []
  | doc :: docs' =>
      rbind (metadata_source doc) (fun src =>
      rbind (context_parts docs') (fun parts =>
        Ok (("Source: " ++ py_str src ++ nl ++ "Content: "
             ++ page_content doc)%string :: parts)))
  end.

Definition indent : string := "                    ".

(** [build_prompt]. *)
Definition build_prompt (query : string) (retrieved_docs : list Document)
  : result string :=
  rbind (context_parts retrieved_docs) (fun parts =>
    let context := join (nl ++ nl) parts in
    Ok (nl
        ++ indent
        ++ "You are a knowledgeable assistant specialized in scientific "
        ++ "research." ++ nl
        ++ indent
        ++ "You will answer questions based on the provided context from "
        ++ "internal documents." ++ nl
        ++ nl
        ++ indent ++ "Context: " ++ context ++ nl
        ++ nl
        ++ indent ++ "Question: " ++ query ++ nl
        ++ nl
        ++ indent
        ++ "Answer concisely and accurately based ONLY on the context "
        ++ "above. If the answer is not in the context, say "
        ++ dquote
        ++ "I don't have that information from the provided documents."
        ++ dquote ++ nl
        ++ "            ")%string).

(** The retrieval call of [generate_answer]:
    [retrieve_docs(query, persist_path, k)]. The three arguments are
    positional, so the third one is received by the parameter [bm25_dir]
    and the parameter [k] of [retrieve_docs] keeps its default. *)
Definition generate_answer_retrieval (query : string)
    (persist_path : string) (k : Z) : M (list Document) :=
  retrieve_docs W query persist_path (VInt k) FINAL_TOP_K.

(** [generate_answer]; the answer is the content of the reply, which can
    be [None]. *)
Definition generate_answer (query : string) (persist_path : string)
    (k : Z) (model : string) : M (option string) :=
  retrieved_docs <- generate_answer_retrieval query persist_path k ;;
  match retrieved_docs with
  | [] => ret (Some "No relevant documents found.")
  | _ :: _ =>
      prompt <- lift (build_prompt query retrieved_docs) ;;
      let messages :=
        [("system",
          "You are a helpful assistant for scientific domain experts.");
         ("user", prompt)] in
      call (EvChat model messages 500)
           (chat_completions_create W model messages 500)
  end.

End Generation.

(** ** Specification-side definitions *)

(** [1.0 / n] when the division is defined. *)
Definition recip (n : Z) : float :=
  PrimFloat.div 1%float (SF2Prim (binary_normalize prec emax n 0 false)).

(** Whether [1.0 / n] is defined: [n] is not zero and converts to a
    finite [float]. *)
Definition valid_divisor (n : Z) : bool :=
  match float_truediv_int 1%float n with
  | Ok _ => true
  | Raise _ => false
  end.

(** Every division [1.0 / (k + rank)] that fusing [ranked_lists] performs
    is defined. *)
Definition divisors_ok (k : Z) (ranked_lists : list (list pyval)) : bool :=
  forallb (fun lst =>
             forallb (fun p => valid_divisor (k + fst p)) (enumerate 1 lst))
          ranked_lists.

(** The 1-based ranks at which [id] stands in [lst], counted from [r]. *)
Fixpoint ranks_from (r : Z) (id : pyval) (lst : list pyval) : list Z :=
  match lst with
  | [] => []
  | x :: lst' =>
      (if pyval_eqb x id then [r] else []) ++ ranks_from (r + 1) id lst'
  end.

Definition ranks_of (id : pyval) (lst : list pyval) : list Z :=
  ranks_from 1 id lst.

(** The terms [1 / (k + r)] an id receives, list after list. *)
Definition contributions (k : Z) (id : pyval) (ranked_lists : list (list pyval))
  : list float :=
  map (fun r => recip (k + r)) (flat_map (ranks_of id) ranked_lists).

(** A sum of floats, accumulated from [0.0] from left to right. *)
Definition float_sum (xs : list float) : float :=
  fold_left PrimFloat.add xs 0%float.

(** The fused score as the specification words it: the sum of the
    reciprocal ranks over the lists that contain the id. *)
Definition rrf_score_spec (k : Z) (id : pyval)
    (ranked_lists : list (list pyval)) : float :=
  float_sum (contributions k id ranked_lists).

(** The distinct items of a list in the order of their first occurrence. *)
Fixpoint first_seen (l : list pyval) : list pyval :=
  match l with
  | [] => []
  | x :: l' => x :: filter (fun y => negb (pyval_eqb x y)) (first_seen l')
  end.

(** [a] stands somewhere before [b] in [l]. *)
Definition precedes {A} (a b : A) (l : list A) : Prop :=
  exists l1 l2, l = l1 ++ a :: l2 /\ In b l2.

(** The fused score of an id, as the sort key reads it. *)
Definition score_of (fused : dict float) (id : pyval) : float :=
  dict_get_default fused id 0%float.

(** No item is followed by one with a strictly greater key. *)
Definition descending {A} (key : A -> float) (l : list A) : Prop :=
  Sorted (fun a b => PrimFloat.ltb (key a) (key b) = false) l.

(** The scenario of the specification: dense order A, B, C and lexical
    order B, C, A. *)
Definition id_A : pyval := VStr "A".
Definition id_B : pyval := VStr "B".
Definition id_C : pyval := VStr "C".
Definition scenario_lists : list (list pyval) :=
  [[id_A; id_B; id_C]; [id_B; id_C; id_A]].

(** The entry of an id after it received the terms for the ranks [rs]:
    untouched when there is none, otherwise the terms added one by one to
    the previous score (or to [0.0] for a new id). *)
Definition add_contributions (k : Z) (o : option float) (rs : list Z)
  : option float :=
  match rs with
  | [] => o
  | _ :: _ =>
      Some (fold_left (fun a r => PrimFloat.add a (recip (k + r))) rs
              (match o with Some x => x | None => 0%float end))
  end.

(** The keys of a dictionary after an assignment to [x]. *)
Definition add_new (acc : list pyval) (x : pyval) : list pyval :=
  if existsb (pyval_eqb x) acc then acc else acc ++ [x].

(** A computation only appends to the trace, and every call it logs
    satisfies [P]. *)
Definition logs {A} (P : event -> Prop) (m : M A) : Prop :=
  forall t, exists calls, snd (m t) = t ++ calls /\ Forall P calls.

(** The lexical calls of a trace entry concern the directory [dir]. *)
Definition lexical_dir_is (dir : pyval) (ev : event) : Prop :=
  match ev with
  | EvIsdir p => p = dir
  | EvWhoosh p _ _ => p = dir
  | _ => True
  end.

(** The entry is a dense search for the query [q]. *)
Definition dense_search_of (q : string) (ev : event) : Prop :=
  match ev with
  | EvSearchWithScore q' _ => q' = q
  | EvSearch q' _ => q' = q
  | _ => False
  end.

(** A list of (document, score) pairs is in descending score order. *)
Definition sorted_by_score (hits : list (Document * float)) : Prop :=
  descending snd hits.

(** *** Example worlds *)

Definition doc (id source content : string) : Document :=
  {| page_content := content;
     metadata := Some [("doc_id", VStr id); ("source", VStr source)] |}.

(** A document whose metadata carries no ["doc_id"]. *)
Definition doc_without_id (source content : string) : Document :=
  {| page_content := content;
     metadata := Some [("source", VStr source)] |}.

Definition doc_a : Document := doc "A" "a.pdf" "alpha".
Definition doc_b : Document := doc "B" "b.pdf" "beta".
Definition doc_c : Document := doc "C" "c.pdf" "gamma".

(** A vector store that answers every query with A, B, C. *)
Definition vs_abc : FAISS :=
  {| similarity_search_with_score := fun _ _ =>
       Ok [(doc_a, 0.75%float); (doc_b, 0.5%float); (doc_c, 0.25%float)];
     similarity_search := fun _ _ => Ok [doc_a; doc_b; doc_c] |}.

(** A vector store that answers the query ["q"] only; every other query
    fails in both search methods. *)
Definition vs_only_q : FAISS :=
  {| similarity_search_with_score := fun q _ =>
       if String.eqb q "q" then Ok [(doc_a, 0.75%float)]
       else Raise (BackendError "dense index unavailable");
     similarity_search := fun q _ =>
       if String.eqb q "q" then Ok [doc_a]
       else Raise (BackendError "dense index unavailable") |}.

(** A vector store that returns its hits in ascending score order. *)
Definition vs_unsorted : FAISS :=
  {| similarity_search_with_score := fun _ _ =>
       Ok [(doc_a, 0.25%float); (doc_b, 0.75%float)];
     similarity_search := fun _ _ => Ok [doc_a; doc_b] |}.

(** A world without a chat model and with a lexical index returning B
    and C. *)
Definition world_of (secret : Z * Z) (vs : FAISS) : World :=
  {| hash_secret := secret;
     faiss_load_local := fun _ => Ok vs;
     HAS_BM25 := true;
     os_path_isdir := fun p => Ok (pyval_eqb p (VStr BM25_DIR));
     whoosh_search := fun _ _ _ =>
       Ok [ {| stored_doc_id := "B"; stored_source := "b.pdf";
               stored_page := 1; stored_content := "beta";
               hit_score := 7.5%float |};
            {| stored_doc_id := "C"; stored_source := "c.pdf";
               stored_page := 2; stored_content := "gamma";
               hit_score := 3.25%float |} ];
     openai_client := Raise (BackendError "no API key");
     chat_completions_create := fun _ _ _ => Raise (BackendError "offline");
     str_splitlines := fun s => [s];
     str_strip := fun s => s;
     str_strip_chars := fun s _ => s;
     str_lower := fun s => s |}.

(** The same world with a chat model that answers every prompt with the
    single line ["q2"]. *)
Definition with_chat (W : World) : World :=
  {| hash_secret := hash_secret W;
     faiss_load_local := faiss_load_local W;
     HAS_BM25 := HAS_BM25 W;
     os_path_isdir := os_path_isdir W;
     whoosh_search := whoosh_search W;
     openai_client := Ok tt;
     chat_completions_create := fun _ _ _ => Ok (Some "q2");
     str_splitlines := str_splitlines W;
     str_strip := str_strip W;
     str_strip_chars := str_strip_chars W;
     str_lower := str_lower W |}.

(** The hash secrets CPython derives from [PYTHONHASHSEED=0] and
    [PYTHONHASHSEED=1]. *)
Definition secret_seed0 : Z * Z := (0, 0).
Definition secret_seed1 : Z * Z :=
  (12598376723466036009, 16999324916296290386).

(** The Document Bank holds one entry per id, each filed under the id of
    its document. *)
Definition bank_ok (W : World) (bank : dict Document) : Prop :=
  NoDup (keys bank)
  /\ forall id d, In (id, d) bank -> doc_id_of W d = id.

(** Every id of the ranked lists has an entry in the bank. *)
Definition covers (bank : dict Document) (ranked_lists : list (list pyval))
  : Prop :=
  forall id, In id (List.concat ranked_lists) -> dict_contains bank id = true.

(** Two different documents without a ["doc_id"], with the same source
    and the same content. *)
Definition doc_plain : Document := doc_without_id "a.pdf" "a".
Definition doc_paged : Document :=
  {| page_content := "a";
     metadata := Some [("page", VInt 3); ("source", VStr "a.pdf")] |}.

Definition id_X : pyval := VStr "X".

(** *** Definitions for the further properties *)

(** The document of the first hit whose id is [id]. *)
Definition first_hit (W : World) (id : pyval)
    (hits : list (Document * float)) : option Document :=
  option_map fst
    (find (fun h => pyval_eqb (doc_id_of W (fst h)) id) hits).

(** The trace entry is no call to the lexical backend. *)
Definition not_lexical (ev : event) : Prop :=
  match ev with
  | EvIsdir _ | EvWhoosh _ _ _ => False
  | _ => True
  end.

(** The trace entry is no search of the Whoosh index. *)
Definition not_whoosh (ev : event) : Prop :=
  match ev with
  | EvWhoosh _ _ _ => False
  | _ => True
  end.

(** The [Document] that [search_bm25] builds from a search result. *)
Definition hit_document (r : Hit) : Document :=
  {| page_content := stored_content r;
     metadata := Some [("doc_id", VStr (stored_doc_id r));
                       ("source", VStr (stored_source r));
                       ("page", VInt (stored_page r))] |}.

(** A ranked list short enough for every division of the fusion with
    [RRF_K] to be defined. *)
Definition short_enough (n : nat) : Prop := RRF_K + Z.of_nat n < 2 ^ 53.

(** The document carries metadata with a ["source"] entry. *)
Definition has_source (d : Document) : bool :=
  match metadata d with
  | Some md =>
      match md_get md "source" with
      | Some _ => true
      | None => false
      end
  | None => false
  end.

(** The messages [generate_answer] sends to the answering model. *)
Definition answer_messages (prompt : string) : list (string * string) :=
  [("system", "You are a helpful assistant for scientific domain experts.");
   ("user", prompt)].

(** ** [app/main_app.py] *)

(** [ask_question]: the handler of [POST /ask]. It calls
    [generate_answer(request.question)], so [persist_path], [k] and
    [model] take their defaults; the reply holds the question and the
    answer. *)
Definition ask_question (W : World) (question : string)
  : M (string * option string) :=
  bind (generate_answer W question VECTORSTORE_DIR 5 "gpt-3.5-turbo")
       (fun answer => ret (question, answer)).

(** ** [indexing/bm25_index.py]: building the index *)

(** The keyword arguments of one [writer.update_document] call. *)
Record IndexEntry : Type := {
  entry_doc_id : pyval;
  entry_source : pyval;
  entry_page : Z;
  entry_content : string
}.

(** The file system and Whoosh as the indexing code sees them, and
    [int] applied to a [str]. *)
Record Indexer : Type := {
  os_makedirs : string -> result unit;
  windex_exists_in : string -> result bool;
  windex_create_in : string -> result unit;
  windex_open_dir : string -> result unit;
  idx_writer : result unit;
  writer_update_document : IndexEntry -> result unit;
  writer_commit : result unit;
  int_of_str : string -> result Z
}.

(** The calls the indexing code makes, in order. *)
Inductive index_event : Type :=
| IxMakedirs (dir : string)
| IxExistsIn (dir : string)
| IxCreateIn (dir : string)
| IxOpenDir (dir : string)
| IxWriter
| IxUpdate (e : IndexEntry)
| IxCommit.

(** Computations of the indexing code: they may raise and they extend
    the trace of index calls. *)
Definition IM (A : Type) : Type :=
  list index_event -> result A * list index_event.

Definition iret {A} (a : A) : IM A := fun t => (Ok a, t).

Definition ibind {A B} (m : IM A) (k : A -> IM B) : IM B :=
  fun t =>
    match m t with
    | (Ok a, t') => k a t'
    | (Raise e, t') => (Raise e, t')
    end.

Definition ilift {A} (r : result A) : IM A := fun t => (r, t).

Definition icall {A} (ev : index_event) (r : result A) : IM A :=
  fun t => (r, t ++ [ev]).

(** A [for] loop over [l] whose body is run for its effects. *)
Fixpoint ifor {A} (body : A -> IM unit) (l : list A) : IM unit :=
  match l with
  | [] => iret tt
  | x :: l' => ibind (body x) (fun _ => ifor body l')
  end.

(** [int(v)] *)
Definition py_int (I : Indexer) (v : pyval) : result Z :=
  match v with
  | VInt n => Ok n
  | VStr s => int_of_str I s
  | VNone => Raise TypeError
  end.

(** [_ensure_index]. *)
Definition _ensure_index (I : Indexer) (index_dir : string) : IM unit :=
  ibind (icall (IxMakedirs index_dir) (os_makedirs I index_dir)) (fun _ =>
  ibind (icall (IxExistsIn index_dir) (windex_exists_in I index_dir))
        (fun present =>
  if negb present
  then icall (IxCreateIn index_dir) (windex_create_in I index_dir)
  else icall (IxOpenDir index_dir) (windex_open_dir I index_dir))).

(** The arguments [build_bm25_index] passes to [update_document] for the
    document [d]; [int] may raise. *)
Definition index_entry (I : Indexer) (d : Document) : result IndexEntry :=
  let md := metadata_or_empty d in
  rbind (py_int I (md_get_default md "page" (VInt 0))) (fun page =>
  Ok {| entry_doc_id := md_get_default md "doc_id" (VStr "");
        entry_source := md_get_default md "source" (VStr "");
        entry_page := page;
        entry_content := page_content d |}).

(** [build_bm25_index]. *)
Definition build_bm25_index (I : Indexer) (documents : list Document)
    (index_dir : string) : IM string :=
  ibind (_ensure_index I index_dir) (fun _ =>
  ibind (icall IxWriter (idx_writer I)) (fun _ =>
  ibind (ifor (fun d =>
                 ibind (ilift (index_entry I d)) (fun e =>
                 icall (IxUpdate e) (writer_update_document I e)))
              documents) (fun _ =>
  ibind (icall IxCommit (writer_commit I)) (fun _ =>
  iret index_dir)))).

(** ** [ingestion/extract_text.py] *)

(** One entry of a page list: [{"page_number": i, "text": txt}]; the
    text may be [None]. *)
Record Page : Type := {
  page_number : Z;
  page_text : option string
}.

(** The file system and the PDF reader as the extraction sees them. *)
Record Files : Type := {
  os_listdir : string -> result (list string);
  os_path_join : string -> string -> string;
  (** [PdfReader(path).pages]: for every page what [extract_text()] does,
      raise or return a string or [None] *)
  pdf_reader_pages : string -> result (list (result (option string)));
  (** [str.strip()] *)
  txt_strip : string -> string
}.

(** [s.endswith(suffix)] *)
Definition endswith (s suffix : string) : bool :=
  let n := String.length s in
  let m := String.length suffix in
  (m <=? n)%nat && String.eqb (substring (n - m) m s) suffix.

(** [x or ""] for a string or [None]. *)
Definition or_empty (x : option string) : string :=
  match x with
  | Some s => s
  | None => ""
  end.

(** The body of the loop over the pages of one file. *)
Definition page_step (F : Files) (pages : list Page)
    (ip : Z * result (option string)) : result (list Page) :=
  rbind (snd ip) (fun extracted =>
  let txt := or_empty extracted in
  if nonempty (txt_strip F txt)
  then Ok (pages ++ [{| page_number := fst ip; page_text := Some txt |}])
  else Ok pages).

(** The body of the loop over the files of the folder. *)
Definition file_step (F : Files) (folder : string) (data : dict (list Page))
    (file : string) : result (dict (list Page)) :=
  if negb (endswith file ".pdf") then Ok data
  else
    rbind (pdf_reader_pages F (os_path_join F folder file)) (fun reader =>
    rbind (for_each (page_step F) (enumerate 1 reader) []) (fun pages =>
    match pages with
    | [] => Ok data
    | _ :: _ => Ok (dict_set data (VStr file) pages)
    end)).

(** [extract_text_with_pages]. *)
Definition extract_text_with_pages (F : Files) (pdf__folder : string)
  : result (dict (list Page)) :=
  rbind (os_listdir F pdf__folder) (fun files =>
  for_each (file_step F pdf__folder) files []).

(** ** [ingestion/chunk_text.py] *)

Section Chunking.
(** [RecursiveCharacterTextSplitter(chunk_size, chunk_overlap,
    separators)]: the constructor may raise; an instance is seen through
    its [split_text]. *)
Variable text_splitter : Z -> Z -> result (string -> result (list string)).

(** [split_with_metadata]. *)
Definition split_with_metadata (text : string) (source : pyval)
    (chunk_size chunk_overlap : Z) : result (list Document) :=
  rbind (text_splitter chunk_size chunk_overlap) (fun split_text =>
  rbind (split_text text) (fun chunks =>
  Ok (map (fun ic =>
             {| page_content := snd ic;
                metadata := Some [("source", source);
                                  ("chunk_id", VInt (fst ic))] |})
          (enumerate 0 chunks)))).

(** [f"{source}::p{page_no}"] *)
Definition parent_id_of (source : pyval) (page_no : Z) : string :=
  (py_str source ++ "::p" ++ str_of_int page_no)%string.

(** [f"{parent_id}::c{i}"] *)
Definition child_id_of (parent_id : string) (i : Z) : string :=
  (parent_id ++ "::c" ++ str_of_int i)%string.

(** The [Document] appended for chunk [i] of a page. *)
Definition child_doc (source : pyval) (page_no : Z) (parent_id : string)
    (ic : Z * string) : Document :=
  {| page_content := snd ic;
     metadata := Some [("doc_id", VStr (child_id_of parent_id (fst ic)));
                       ("parent_id", VStr parent_id);
                       ("source", source);
                       ("page", VInt page_no)] |}.

(** The body of the loop over the pages. *)
Definition split_page (split_text : string -> result (list string))
    (source : pyval) (docs : list Document) (p : Page)
  : result (list Document) :=
  let page_no := page_number p in
  let parent_id := parent_id_of source page_no in
  rbind (split_text (or_empty (page_text p))) (fun chunks =>
  Ok (docs ++ map (child_doc source page_no parent_id)
                  (enumerate 0 chunks))).

(** [split_parent_child]. *)
Definition split_parent_child (pages : list Page) (source : pyval)
    (child_tokens overlap_tokens : Z) : result (list Document) :=
  rbind (text_splitter child_tokens overlap_tokens) (fun split_text =>
  for_each (split_page split_text source) pages []).

(** ** [pipeline_runner.py] *)

(** Step (3) of [run_pipeline]: the child documents of every file of
    [pdf_pages], in the order of the dictionary. *)
Definition all_child_docs (pdf_pages : dict (list Page))
  : result (list Document) :=
  for_each (fun acc fp =>
              rbind (split_parent_child (snd fp) (fst fp) 220 40)
                    (fun child_docs => Ok (acc ++ child_docs)))
           (items pdf_pages) [].

End Chunking.

(** *** Notions used in the statements about ingestion and indexing *)

(** The search result [r] carries the stored fields of the entry [e]. *)
Definition stores (e : IndexEntry) (r : Hit) : Prop :=
  entry_doc_id e = VStr (stored_doc_id r)
  /\ entry_source e = VStr (stored_source r)
  /\ entry_page e = stored_page r
  /\ entry_content e = stored_content r.

(** The page numbers of a page list. *)
Definition page_numbers (pages : list Page) : list Z :=
  map page_number pages.

(** A list of integers that starts at [lo] or above and increases
    strictly. *)
Fixpoint increasing_from (lo : Z) (l : list Z) : Prop :=
  match l with
  | [] => True
  | x :: l' => lo <= x /\ increasing_from (x + 1) l'
  end.

(** An indexer whose calls all succeed on a directory without an index;
    [int] of a string raises. *)
Definition indexer_ok : Indexer :=
  {| os_makedirs := fun _ => Ok tt;
     windex_exists_in := fun _ => Ok false;
     windex_create_in := fun _ => Ok tt;
     windex_open_dir := fun _ => Ok tt;
     idx_writer := Ok tt;
     writer_update_document := fun _ => Ok tt;
     writer_commit := Ok tt;
     int_of_str := fun _ => Raise (BackendError "ValueError") |}.

(** A chunk as the pipeline indexes it, and the search result of
    [world_of] that carries its stored fields. *)
Definition doc_b_paged : Document :=
  {| page_content := "beta";
     metadata := Some [("doc_id", VStr "B"); ("source", VStr "b.pdf");
                       ("page", VInt 1)] |}.

Definition hit_b : Hit :=
  {| stored_doc_id := "B"; stored_source := "b.pdf"; stored_page := 1;
     stored_content := "beta"; hit_score := 7.5%float |}.

(** The loop body of [build_bm25_index]. *)
Definition write_document (I : Indexer) (d : Document) : IM unit :=
  ibind (ilift (index_entry I d)) (fun e =>
  icall (IxUpdate e) (writer_update_document I e)).

(** The calls of [_ensure_index] that succeed on [index_dir]. *)
Definition opening_of (index_dir : string) (opening : list index_event)
  : Prop :=
  opening = [IxMakedirs index_dir; IxExistsIn index_dir;
             IxCreateIn index_dir]
  \/ opening = [IxMakedirs index_dir; IxExistsIn index_dir;
                IxOpenDir index_dir].

(** The page holds a text that is not blank. *)
Definition page_has_text (F : Files) (p : Page) : Prop :=
  match page_text p with
  | Some txt => txt_strip F txt <> ""
  | None => False
  end.

(** A folder with a note and two PDFs: the first has a blank page between
    two pages of text, the second has blank pages only. *)
Definition files_example : Files :=
  {| os_listdir := fun _ => Ok ["notes.txt"; "a.pdf"; "blank.pdf"];
     os_path_join := fun folder file => (folder ++ "/" ++ file)%string;
     pdf_reader_pages := fun path =>
       if String.eqb path "data/a.pdf"
       then Ok [Ok (Some "one"); Ok None; Ok (Some "three")]
       else Ok [Ok (Some ""); Ok None];
     txt_strip := fun s => s |}.

(** A chunk of the corpus: the source, the page number, the position of
    the chunk on its page and the text. *)
Definition Chunk : Type := pyval * (Z * (Z * string)).

Definition chunk_source (c : Chunk) : pyval := fst c.
Definition chunk_page (c : Chunk) : Z := fst (snd c).
Definition chunk_index (c : Chunk) : Z := fst (snd (snd c)).

(** The [Document] that [split_parent_child] builds for a chunk. *)
Definition doc_of_chunk (c : Chunk) : Document :=
  child_doc (chunk_source c) (chunk_page c)
            (parent_id_of (chunk_source c) (chunk_page c)) (snd (snd c)).

(** The ["doc_id"] of that document. *)
Definition id_of_chunk (c : Chunk) : string :=
  child_id_of (parent_id_of (chunk_source c) (chunk_page c))
              (chunk_index c).

(** Where the chunk comes from: the rendered source, the page, the
    position. *)
Definition place_of_chunk (c : Chunk) : string * (Z * Z) :=
  (py_str (chunk_source c), (chunk_page c, chunk_index c)).

(** A splitter that cuts every text into the same two chunks. *)
Definition splitter_two : Z -> Z -> result (string -> result (list string)) :=
  fun _ _ => Ok (fun _ => Ok ["x"; "y"]).

Definition pages_1_3 : list Page :=
  [{| page_number := 1; page_text := Some "one" |};
   {| page_number := 3; page_text := Some "three" |}].

(** ** [ingestion/extract_text.py]: the extraction without pages *)

(** The comprehension of [extract_text_from_pdfs] for one page: the text
    is extracted once for the test and, when it is not empty, once more
    for the value. *)
Definition text_step (texts : list string) (page : result (option string))
  : result (list string) :=
  rbind page (fun tested =>
  if nonempty (or_empty tested)
  then rbind page (fun extracted => Ok (texts ++ [or_empty extracted]))
  else Ok texts).

(** The body of the loop over the files of the folder. *)
Definition pdf_text_step (F : Files) (folder : string)
    (text_data : dict string) (file : string) : result (dict string) :=
  if endswith file ".pdf"
  then
    rbind (pdf_reader_pages F (os_path_join F folder file)) (fun reader =>
    rbind (for_each text_step reader []) (fun texts =>
    Ok (dict_set text_data (VStr file) (join nl texts))))
  else Ok text_data.

(** [extract_text_from_pdfs]. *)
Definition extract_text_from_pdfs (F : Files) (pdf_folder : string)
  : result (dict string) :=
  rbind (os_listdir F pdf_folder) (fun files =>
  for_each (pdf_text_step F pdf_folder) files []).

(** [key] is the name of a file of [files] that ends in [.pdf]. *)
Definition pdf_among (files : list string) (key : pyval) : Prop :=
  exists file,
    key = VStr file /\ In file files /\ endswith file ".pdf" = true.

(** Two results that are both values, related by [R], or both the same
    exception. *)
Definition both {A B} (R : A -> B -> Prop) (r1 : result A) (r2 : result B)
  : Prop :=
  match r1, r2 with
  | Ok a, Ok b => R a b
  | Raise e, Raise e' => e = e'
  | _, _ => False
  end.

(** A vector store that answers every query with A and the paged B. *)
Definition vs_a_b_paged : FAISS :=
  {| similarity_search_with_score := fun _ _ =>
       Ok [(doc_a, 0.75%float); (doc_b_paged, 0.5%float)];
     similarity_search := fun _ _ => Ok [] |}.

Definition hit_c : Hit :=
  {| stored_doc_id := "C"; stored_source := "c.pdf"; stored_page := 2;
     stored_content := "gamma"; hit_score := 3.25%float |}.

(** * Properties *)

(** ** Values, dictionaries, loops *)

Lemma pyval_eqb_eq a b : pyval_eqb a b = true <-> a = b.
Proof.
  destruct a, b; simpl; split; intro H; try discriminate; try reflexivity.
  - apply String.eqb_eq in H. now subst.
  - inversion H. apply String.eqb_refl.
  - apply Z.eqb_eq in H. now subst.
  - inversion H. apply Z.eqb_refl.
Qed.

Lemma pyval_eqb_refl a : pyval_eqb a a = true.
Proof. now apply pyval_eqb_eq. Qed.

Lemma pyval_eqb_neq a b : pyval_eqb a b = false <-> a <> b.
Proof.
  split.
  - intros H E. apply pyval_eqb_eq in E. congruence.
  - intro H. destruct (pyval_eqb a b) eqn:E; [|reflexivity].
    apply pyval_eqb_eq in E. contradiction.
Qed.

Lemma pyval_eqb_sym a b : pyval_eqb a b = pyval_eqb b a.
Proof.
  destruct (pyval_eqb a b) eqn:E.
  - apply pyval_eqb_eq in E. subst. symmetry. apply pyval_eqb_refl.
  - apply pyval_eqb_neq in E. symmetry. apply pyval_eqb_neq. congruence.
Qed.

Lemma pyval_eq_dec (a b : pyval) : {a = b} + {a <> b}.
Proof.
  destruct (pyval_eqb a b) eqn:E.
  - left. now apply pyval_eqb_eq.
  - right. now apply pyval_eqb_neq.
Qed.

Lemma dict_get_set {V} (d : dict V) k v k' :
  dict_get (dict_set d k v) k' =
  if pyval_eqb k k' then Some v else dict_get d k'.
Proof.
  induction d as [|[k0 v0] d IH]; simpl.
  - reflexivity.
  - destruct (pyval_eqb k0 k) eqn:E0; simpl.
    + apply pyval_eqb_eq in E0. subst k0.
      destruct (pyval_eqb k k'); reflexivity.
    + destruct (pyval_eqb k0 k') eqn:E1.
      * apply pyval_eqb_eq in E1. subst k'.
        rewrite pyval_eqb_sym, E0. reflexivity.
      * exact IH.
Qed.

Lemma dict_get_In {V} (d : dict V) k :
  dict_get d k <> None <-> In k (keys d).
Proof.
  induction d as [|[k0 v0] d IH]; simpl.
  - split; [congruence | tauto].
  - destruct (pyval_eqb k0 k) eqn:E.
    + apply pyval_eqb_eq in E. split; [now left | discriminate].
    + apply pyval_eqb_neq in E. rewrite IH.
      split; [now right | now intros [?|?]].
Qed.


(** Keys after an assignment: unchanged for a present key, extended at the
    end for a new one. *)
Lemma keys_dict_set {V} (d : dict V) k v :
  keys (dict_set d k v) =
  if dict_contains d k then keys d else keys d ++ [k].
Proof.
  unfold dict_contains, keys.
  induction d as [|[k0 v0] d IH]; simpl.
  - reflexivity.
  - destruct (pyval_eqb k0 k) eqn:E; simpl.
    + reflexivity.
    + rewrite IH. now destruct (dict_get d k).
Qed.


(** ** Reciprocal rank fusion *)

Lemma float_truediv_int_recip n c :
  float_truediv_int 1%float n = Ok c -> c = recip n.
Proof.
  unfold float_truediv_int, float_of_int, recip.
  destruct (binary_normalize prec emax n 0 false); cbn [rbind];
    try discriminate;
    match goal with
    | |- context [PrimFloat.eqb ?d ?z] => destruct (PrimFloat.eqb d z)
    end; congruence.
Qed.

Lemma valid_divisor_recip n :
  valid_divisor n = true -> float_truediv_int 1%float n = Ok (recip n).
Proof.
  unfold valid_divisor.
  destruct (float_truediv_int 1%float n) as [c|e] eqn:E; [|discriminate].
  intros _. now rewrite (float_truediv_int_recip _ _ E).
Qed.

Lemma valid_divisor_false n :
  valid_divisor n = false -> exists e, float_truediv_int 1%float n = Raise e.
Proof.
  unfold valid_divisor.
  destruct (float_truediv_int 1%float n) as [c|e]; [discriminate|].
  intros _. now exists e.
Qed.

Lemma add_contributions_app k o rs1 rs2 :
  add_contributions k (add_contributions k o rs1) rs2 =
  add_contributions k o (rs1 ++ rs2).
Proof.
  destruct rs1 as [|r1 rs1]; [reflexivity|].
  destruct rs2 as [|r2 rs2].
  - now rewrite app_nil_r.
  - cbn [add_contributions app]. f_equal.
    change (r1 :: rs1 ++ r2 :: rs2) with ((r1 :: rs1) ++ r2 :: rs2).
    now rewrite fold_left_app.
Qed.

Lemma rrf_add_get k s r x s' :
  rrf_add k s (r, x) = Ok s' ->
  forall id, dict_get s' id =
             add_contributions k (dict_get s id)
               (if pyval_eqb x id then [r] else []).
Proof.
  unfold rrf_add. intros H id.
  destruct (float_truediv_int 1%float (k + r)) as [c|e] eqn:E;
    simpl in H; [|discriminate].
  injection H as <-. rewrite dict_get_set.
  apply float_truediv_int_recip in E. subst c.
  destruct (pyval_eqb x id) eqn:Ex.
  - apply pyval_eqb_eq in Ex. subst id. reflexivity.
  - reflexivity.
Qed.

Lemma rrf_list_from_get k lst : forall r s s',
  for_each (rrf_add k) (enumerate r lst) s = Ok s' ->
  forall id, dict_get s' id =
             add_contributions k (dict_get s id) (ranks_from r id lst).
Proof.
  induction lst as [|x lst IH]; intros r s s' H id;
    cbn [enumerate for_each] in H.
  - now injection H as <-.
  - destruct (rrf_add k s (r, x)) as [s1|e] eqn:E1; cbn [rbind] in H;
      [|discriminate].
    rewrite (IH _ _ _ H id), (rrf_add_get _ _ _ _ _ E1 id).
    simpl. apply add_contributions_app.
Qed.

Lemma rrf_lists_get k lists : forall s s',
  for_each (rrf_list k) lists s = Ok s' ->
  forall id, dict_get s' id =
             add_contributions k (dict_get s id)
               (flat_map (ranks_of id) lists).
Proof.
  induction lists as [|lst lists IH]; intros s s' H id; cbn [for_each] in H.
  - now injection H as <-.
  - destruct (rrf_list k s lst) as [s1|e] eqn:E1; cbn [rbind] in H;
      [|discriminate].
    rewrite (IH _ _ H id). unfold rrf_list in E1.
    rewrite (rrf_list_from_get _ _ _ _ _ E1 id).
    simpl. apply add_contributions_app.
Qed.

Lemma ranks_from_nil id lst : forall r,
  ranks_from r id lst = [] <-> ~ In id lst.
Proof.
  induction lst as [|x lst IH]; intro r; simpl.
  - tauto.
  - destruct (pyval_eqb x id) eqn:E.
    + apply pyval_eqb_eq in E. split; [discriminate | intro H; exfalso; auto].
    + apply pyval_eqb_neq in E. simpl. rewrite IH. tauto.
Qed.

Lemma ranks_nil id lists :
  flat_map (ranks_of id) lists = [] <-> ~ In id (List.concat lists).
Proof.
  induction lists as [|lst lists IH]; simpl.
  - tauto.
  - rewrite in_app_iff. split.
    + intro H. apply app_eq_nil in H. destruct H as [H1 H2].
      apply ranks_from_nil in H1. apply IH in H2. tauto.
    + intro H. assert (H1 : ~ In id lst) by tauto.
      assert (H2 : ~ In id (List.concat lists)) by tauto.
      apply (ranks_from_nil id lst 1) in H1. apply IH in H2.
      unfold ranks_of at 1. now rewrite H1, H2.
Qed.

(** The ranks are the 1-based positions of the id. *)
Lemma ranks_from_spec id lst : forall r0 r,
  In r (ranks_from r0 id lst) <->
  r0 <= r /\ nth_error lst (Z.to_nat (r - r0)) = Some id.
Proof.
  induction lst as [|x lst IH]; intros r0 r; simpl.
  - split; [tauto|]. intros [_ H]. now destruct (Z.to_nat (r - r0)).
  - rewrite in_app_iff, IH. split.
    + intros [H|[H1 H2]].
      * destruct (pyval_eqb x id) eqn:E; [|contradiction].
        destruct H as [<-|[]]. rewrite Z.sub_diag. simpl.
        apply pyval_eqb_eq in E. subst. split; [lia | reflexivity].
      * split; [lia|].
        replace (Z.to_nat (r - r0)) with (S (Z.to_nat (r - (r0 + 1)))) by lia.
        exact H2.
    + intros [H1 H2]. destruct (Z.eq_dec r r0) as [->|Hne].
      * left. rewrite Z.sub_diag in H2. simpl in H2. injection H2 as ->.
        rewrite pyval_eqb_refl. now left.
      * right. split; [lia|].
        replace (Z.to_nat (r - r0)) with (S (Z.to_nat (r - (r0 + 1)))) in H2
          by lia.
        exact H2.
Qed.

Lemma fold_left_add_map {A} (g : A -> float) l : forall x,
  fold_left (fun a r => PrimFloat.add a (g r)) l x =
  fold_left PrimFloat.add (map g l) x.
Proof.
  induction l as [|y l IH]; intro x; simpl; [reflexivity | apply IH].
Qed.

Lemma add_contributions_fresh k id lists :
  add_contributions k None (flat_map (ranks_of id) lists) =
  match flat_map (ranks_of id) lists with
  | [] => None
  | _ :: _ => Some (rrf_score_spec k id lists)
  end.
Proof.
  unfold rrf_score_spec, contributions, float_sum, add_contributions.
  destruct (flat_map (ranks_of id) lists); [reflexivity|].
  now rewrite fold_left_add_map.
Qed.

Lemma rrf_list_from_total k lst : forall r s,
  forallb (fun p => valid_divisor (k + fst p)) (enumerate r lst) = true ->
  exists s', for_each (rrf_add k) (enumerate r lst) s = Ok s'.
Proof.
  induction lst as [|x lst IH]; intros r s H; simpl in *.
  - now exists s.
  - apply andb_prop in H. destruct H as [H1 H2].
    unfold rrf_add at 1. rewrite (valid_divisor_recip _ H1). simpl.
    apply IH, H2.
Qed.

Lemma rrf_lists_total k lists : forall s,
  divisors_ok k lists = true ->
  exists s', for_each (rrf_list k) lists s = Ok s'.
Proof.
  induction lists as [|lst lists IH]; intros s H; simpl in *.
  - now exists s.
  - apply andb_prop in H. destruct H as [H1 H2].
    destruct (rrf_list_from_total k lst 1 s H1) as [s1 E1].
    unfold rrf_list at 1. rewrite E1. simpl. apply IH, H2.
Qed.

Lemma rrf_list_from_raises k lst : forall r s,
  forallb (fun p => valid_divisor (k + fst p)) (enumerate r lst) = false ->
  exists e, for_each (rrf_add k) (enumerate r lst) s = Raise e.
Proof.
  induction lst as [|x lst IH]; intros r s H; simpl in *.
  - discriminate.
  - unfold rrf_add at 1.
    destruct (valid_divisor (k + r)) eqn:E1; simpl in H.
    + rewrite (valid_divisor_recip _ E1). simpl. apply IH, H.
    + destruct (valid_divisor_false _ E1) as [e ->]. now exists e.
Qed.

Lemma rrf_lists_raises k lists : forall s,
  divisors_ok k lists = false ->
  exists e, for_each (rrf_list k) lists s = Raise e.
Proof.
  induction lists as [|lst lists IH]; intros s H; simpl in *.
  - discriminate.
  - unfold rrf_list at 1.
    destruct (forallb (fun p => valid_divisor (k + fst p)) (enumerate 1 lst))
      eqn:E1; simpl in H.
    + destruct (rrf_list_from_total k lst 1 s E1) as [s1 ->]. simpl.
      apply IH, H.
    + destruct (rrf_list_from_raises k lst 1 s E1) as [e ->]. now exists e.
Qed.

(** *** The iteration order of the fused dictionary *)

Lemma existsb_pyval_In x l : existsb (pyval_eqb x) l = true <-> In x l.
Proof.
  rewrite existsb_exists. split.
  - intros [y [Hy E]]. apply pyval_eqb_eq in E. now subst.
  - intro H. exists x. split; [assumption | apply pyval_eqb_refl].
Qed.

Lemma dict_contains_existsb {V} (d : dict V) x :
  dict_contains d x = existsb (pyval_eqb x) (keys d).
Proof.
  unfold dict_contains, keys.
  induction d as [|[k0 v0] d IH]; simpl; [reflexivity|].
  rewrite (pyval_eqb_sym x k0). destruct (pyval_eqb k0 x); simpl; auto.
Qed.

Lemma keys_rrf_add k s r x s' :
  rrf_add k s (r, x) = Ok s' -> keys s' = add_new (keys s) x.
Proof.
  unfold rrf_add, add_new. intro H.
  destruct (float_truediv_int 1%float (k + r)) as [c|e];
    cbn [rbind] in H; [|discriminate].
  injection H as <-. now rewrite keys_dict_set, dict_contains_existsb.
Qed.

Lemma keys_rrf_list_from k lst : forall r s s',
  for_each (rrf_add k) (enumerate r lst) s = Ok s' ->
  keys s' = fold_left add_new lst (keys s).
Proof.
  induction lst as [|x lst IH]; intros r s s' H;
    cbn [enumerate for_each] in H.
  - now injection H as <-.
  - destruct (rrf_add k s (r, x)) as [s1|e] eqn:E1; cbn [rbind] in H;
      [|discriminate].
    simpl. rewrite (IH _ _ _ H). now rewrite (keys_rrf_add _ _ _ _ _ E1).
Qed.

Lemma keys_rrf_lists k lists : forall s s',
  for_each (rrf_list k) lists s = Ok s' ->
  keys s' = fold_left add_new (List.concat lists) (keys s).
Proof.
  induction lists as [|lst lists IH]; intros s s' H; cbn [for_each] in H.
  - now injection H as <-.
  - destruct (rrf_list k s lst) as [s1|e] eqn:E1; cbn [rbind] in H;
      [|discriminate].
    simpl. rewrite fold_left_app, (IH _ _ H).
    unfold rrf_list in E1. now rewrite (keys_rrf_list_from _ _ _ _ _ E1).
Qed.

Lemma filter_filter {A} (f g : A -> bool) l :
  filter f (filter g l) = filter (fun y => g y && f y) l.
Proof.
  induction l as [|y l IH]; simpl; [reflexivity|].
  destruct (g y); simpl; [destruct (f y)|]; now rewrite IH.
Qed.

Lemma fold_add_new_first_seen l : forall acc,
  fold_left add_new l acc =
  acc ++ filter (fun y => negb (existsb (pyval_eqb y) acc)) (first_seen l).
Proof.
  induction l as [|x l IH]; intro acc; simpl.
  - now rewrite app_nil_r.
  - rewrite IH. unfold add_new.
    destruct (existsb (pyval_eqb x) acc) eqn:E; simpl.
    + f_equal. rewrite filter_filter. apply filter_ext. intro y.
      destruct (pyval_eqb x y) eqn:Exy; simpl; [|reflexivity].
      apply pyval_eqb_eq in Exy. subst y. now rewrite E.
    + rewrite <- app_assoc. simpl. do 2 f_equal.
      rewrite filter_filter. apply filter_ext. intro y.
      rewrite existsb_app. simpl. rewrite orb_false_r, negb_orb.
      rewrite (pyval_eqb_sym y x). apply andb_comm.
Qed.

Lemma keys_rrf_fuse lists k fused :
  _rrf_fuse lists k = Ok fused -> keys fused = first_seen (List.concat lists).
Proof.
  intro H. unfold _rrf_fuse in H.
  rewrite (keys_rrf_lists _ _ _ _ H), fold_add_new_first_seen. simpl.
  induction (first_seen (List.concat lists)); simpl; congruence.
Qed.

Lemma first_seen_In x l : In x (first_seen l) <-> In x l.
Proof.
  induction l as [|y l IH]; simpl; [tauto|].
  rewrite filter_In, IH. split.
  - intros [H|[H _]]; auto.
  - intros [H|H]; [now left|].
    destruct (pyval_eq_dec y x) as [E|E]; [now left|].
    right. split; [assumption|].
    apply pyval_eqb_neq in E. now rewrite E.
Qed.

Lemma NoDup_filter {A} (f : A -> bool) l : NoDup l -> NoDup (filter f l).
Proof.
  induction 1 as [|x l Hx _ IH]; simpl; [constructor|].
  destruct (f x); [|assumption].
  constructor; [|assumption]. rewrite filter_In. tauto.
Qed.

Lemma first_seen_NoDup l : NoDup (first_seen l).
Proof.
  induction l as [|y l IH]; simpl; constructor.
  - rewrite filter_In, pyval_eqb_refl. simpl. intros [_ H]. discriminate.
  - now apply NoDup_filter.
Qed.

(** *** Divisors that are certainly valid

    An integer between 1 and 2^53 - 1 converts to a [float] exactly: the
    result is finite and not zero, so [1.0 / n] is defined. *)

Lemma digits2_pos_iter_xO p q :
  digits2_pos (Pos.iter xO p q) = (digits2_pos p + q)%positive.
Proof.
  induction q as [|q IH] using Pos.peano_ind.
  - simpl. now rewrite Pos.add_1_r.
  - rewrite Pos.iter_succ. simpl. rewrite IH. lia.
Qed.

Lemma digits2_pos_lower p : 2 ^ (Zpos (digits2_pos p) - 1) <= Zpos p.
Proof.
  induction p as [p IH|p IH|]; simpl digits2_pos.
  - rewrite Pos2Z.inj_succ.
    replace (Z.succ (Zpos (digits2_pos p)) - 1)
      with (Z.succ (Zpos (digits2_pos p) - 1)) by lia.
    rewrite Z.pow_succ_r by lia. lia.
  - rewrite Pos2Z.inj_succ.
    replace (Z.succ (Zpos (digits2_pos p)) - 1)
      with (Z.succ (Zpos (digits2_pos p) - 1)) by lia.
    rewrite Z.pow_succ_r by lia. lia.
  - simpl. lia.
Qed.

Lemma digits2_pos_small p : Zpos p < 2 ^ 53 -> Zpos (digits2_pos p) <= 53.
Proof.
  intro H.
  destruct (Z_le_gt_dec (Zpos (digits2_pos p)) 53) as [L|G]; [exact L|].
  exfalso. pose proof (digits2_pos_lower p) as Hl.
  assert (2 ^ 53 <= 2 ^ (Zpos (digits2_pos p) - 1)).
  { apply Z.pow_le_mono_r; lia. }
  lia.
Qed.

Lemma fexp_canonical e : -1074 <= e -> fexp prec emax (53 + e) = e.
Proof. intro H. unfold fexp, emin, prec, emax. lia. Qed.

(** A mantissa of 53 bits with an exponent in range is left as it is. *)
Lemma binary_round_aux_canonical s m e :
  Zpos (digits2_pos m) = 53 -> -1074 <= e <= 971 ->
  binary_round_aux prec emax s (Zpos m) e loc_Exact = S754_finite s m e.
Proof.
  intros Hd He. unfold binary_round_aux, shr_fexp.
  cbn [Zdigits2 shr_record_of_loc]. rewrite Hd, fexp_canonical by lia.
  rewrite Z.sub_diag. cbn [shr shr_m loc_of_shr_record round_nearest_even].
  cbn [Zdigits2 shr_record_of_loc]. rewrite Hd, fexp_canonical by lia.
  rewrite Z.sub_diag. cbn [shr shr_m].
  replace (e <=? emax - prec) with true; [reflexivity|].
  symmetry. apply Z.leb_le. unfold emax, prec. lia.
Qed.

Lemma float_of_small_int p :
  Zpos p < 2 ^ 53 ->
  exists m e,
    binary_normalize prec emax (Zpos p) 0 false = S754_finite false m e
    /\ valid_binary (S754_finite false m e) = true.
Proof.
  intro H. apply digits2_pos_small in H.
  unfold binary_normalize, binary_round, shl_align.
  unfold fexp, emin.
  replace (Z.max (Zpos (digits2_pos p) + 0 - prec) (3 - emax - prec))
    with (Zpos (digits2_pos p) - 53) by (unfold prec, emax; lia).
  rewrite Z.sub_0_r.
  assert (V : forall m e, Zpos (digits2_pos m) = 53 -> -1074 <= e <= 971 ->
                valid_binary (S754_finite false m e) = true).
  { intros m e Hd He.
    unfold valid_binary, SpecFloat.valid_binary, bounded, canonical_mantissa.
    rewrite Hd, fexp_canonical by lia.
    rewrite Z.eqb_refl. simpl. apply Z.leb_le. unfold emax, prec. lia. }
  destruct (Zpos (digits2_pos p) - 53) as [|q|q] eqn:E; [| lia |].
  - exists p, 0. split; [|apply V; lia].
    apply binary_round_aux_canonical; lia.
  - exists (Pos.iter xO p q), (Zneg q).
    assert (Hd : Zpos (digits2_pos (Pos.iter xO p q)) = 53).
    { rewrite digits2_pos_iter_xO. lia. }
    split; [|apply V; lia].
    apply binary_round_aux_canonical; lia.
Qed.

Lemma valid_divisor_small n : 1 <= n < 2 ^ 53 -> valid_divisor n = true.
Proof.
  intros [H1 H2]. destruct n as [|p|p]; try lia.
  destruct (float_of_small_int p H2) as [m [e [E V]]].
  unfold valid_divisor, float_truediv_int, float_of_int. rewrite E.
  cbn [rbind]. rewrite FloatAxioms.eqb_spec, (Prim2SF_SF2Prim _ V).
  reflexivity.
Qed.

Lemma enumerate_ranks {A} (l : list A) : forall start r x,
  In (r, x) (enumerate start l) ->
  start <= r < start + Z.of_nat (List.length l).
Proof.
  induction l as [|y l IH]; intros start r x H; simpl in H.
  - destruct H.
  - destruct H as [E|H].
    + injection E as <- _. simpl List.length. lia.
    + apply IH in H. simpl List.length. lia.
Qed.

(** A non-negative [k] and lists that keep [k + rank] below 2^53 make
    every division of the run defined. *)
Lemma divisors_ok_small k lists :
  0 <= k ->
  (forall lst, In lst lists -> k + Z.of_nat (List.length lst) < 2 ^ 53) ->
  divisors_ok k lists = true.
Proof.
  intros Hk Hl. unfold divisors_ok. apply forallb_forall. intros lst Hin.
  apply forallb_forall. intros [r x] Hp. cbn [fst].
  apply enumerate_ranks in Hp. specialize (Hl lst Hin).
  apply valid_divisor_small. lia.
Qed.

(** ** C1 *)

(** C1 (as amended). Whenever every division [1.0 / (k + r)] of the run
    is defined, [_rrf_fuse] returns a map that gives each id of the lists
    the sum, over the lists and the ranks [r] at which the id stands in
    them, of [1 / (k + r)], and has no entry for any other id; when some
    division is not defined the call raises. The divisions are all
    defined when [k >= 0] and every [k + r] stays below 2^53. In the
    scenario of the specification ([A, B, C] and [B, C, A], [k = 60])
    the scores are A = 1/61 + 1/63, B = 1/62 + 1/61, C = 1/63 + 1/62 and
    the descending order is B, A, C. *)
Theorem rrf_fuse_sums_reciprocal_ranks :
  (forall lists k,
     divisors_ok k lists = true ->
     exists scores,
       _rrf_fuse lists k = Ok scores
       /\ (forall id, In id (List.concat lists) ->
                      dict_get scores id = Some (rrf_score_spec k id lists))
       /\ (forall id, ~ In id (List.concat lists) ->
                      dict_get scores id = None))
  /\ (forall lists k,
        divisors_ok k lists = false -> exists e, _rrf_fuse lists k = Raise e)
  /\ (forall lists k,
        0 <= k ->
        (forall lst, In lst lists ->
                     k + Z.of_nat (List.length lst) < 2 ^ 53) ->
        divisors_ok k lists = true)
  /\ (forall id lst r,
        In r (ranks_of id lst) <->
        1 <= r /\ nth_error lst (Z.to_nat (r - 1)) = Some id)
  /\ _rrf_fuse scenario_lists 60 =
       Ok [(id_A, PrimFloat.add (PrimFloat.add 0 (recip 61)) (recip 63));
           (id_B, PrimFloat.add (PrimFloat.add 0 (recip 62)) (recip 61));
           (id_C, PrimFloat.add (PrimFloat.add 0 (recip 63)) (recip 62))]
  /\ (forall scores, _rrf_fuse scenario_lists 60 = Ok scores ->
                     fused_order scores = [id_B; id_A; id_C]).
Proof.
  split; [|split; [|split; [|split; [|split]]]].
  - intros lists k Hok.
    destruct (rrf_lists_total k lists [] Hok) as [scores Hs].
    exists scores. split; [exact Hs|].
    assert (G : forall id, dict_get scores id =
                           add_contributions k None
                             (flat_map (ranks_of id) lists)).
    { intro id. apply (rrf_lists_get _ _ _ _ Hs id). }
    split; intros id Hid; rewrite G, add_contributions_fresh.
    + destruct (flat_map (ranks_of id) lists) eqn:E; [|reflexivity].
      apply ranks_nil in E. contradiction.
    + apply ranks_nil in Hid. now rewrite Hid.
  - intros lists k Hbad. apply rrf_lists_raises, Hbad.
  - intros lists k. apply divisors_ok_small.
  - intros id lst r. apply ranks_from_spec.
  - vm_compute. reflexivity.
  - intros scores H. vm_compute in H. injection H as <-.
    vm_compute. reflexivity.
Qed.

(** The general statement applied to the scenario of the specification. *)
Lemma rrf_fuse_sums_reciprocal_ranks_witness :
  divisors_ok 60 scenario_lists = true
  /\ exists scores,
       _rrf_fuse scenario_lists 60 = Ok scores
       /\ (forall id, In id (List.concat scenario_lists) ->
                      dict_get scores id =
                      Some (rrf_score_spec 60 id scenario_lists))
       /\ (forall id, ~ In id (List.concat scenario_lists) ->
                      dict_get scores id = None).
Proof.
  split.
  - vm_compute. reflexivity.
  - apply (proj1 rrf_fuse_sums_reciprocal_ranks scenario_lists 60).
    vm_compute. reflexivity.
Defined.

(** The fused order of the scenario is B, A, C and not B, C, A: the
    score of C is strictly below that of A. And not every [k] yields a
    map: [k = -1] makes the first division [1.0 / 0]. *)
Lemma rrf_scenario_order_not_B_C_A :
  (exists scores,
     _rrf_fuse scenario_lists 60 = Ok scores
     /\ fused_order scores = [id_B; id_A; id_C]
     /\ fused_order scores <> [id_B; id_C; id_A]
     /\ PrimFloat.ltb (score_of scores id_C) (score_of scores id_A) = true)
  /\ _rrf_fuse [[id_A]] (-1) = Raise ZeroDivisionError.
Proof.
  split.
  - eexists. split; [vm_compute; reflexivity|].
    split; [vm_compute; reflexivity|].
    split; [vm_compute; discriminate | vm_compute; reflexivity].
  - vm_compute. reflexivity.
Qed.

(** ** Comparison of floats *)

Lemma SFcompare_antisym x y :
  SFcompare y x = option_map CompOpp (SFcompare x y).
Proof.
  destruct x as [sx|sx| |sx mx ex], y as [sy|sy| |sy my ey]; simpl;
    try reflexivity;
    try (destruct sx; reflexivity);
    try (destruct sy; reflexivity);
    try (destruct sx, sy; reflexivity).
  destruct sx, sy; try reflexivity; f_equal;
    rewrite (Z.compare_antisym ex ey);
    destruct (ex ?= ey); simpl; try reflexivity;
    rewrite (Pos.compare_cont_antisym mx my Eq); simpl;
    rewrite ?CompOpp_involutive; reflexivity.
Qed.

Lemma float_ltb_asym x y :
  PrimFloat.ltb x y = true -> PrimFloat.ltb y x = false.
Proof.
  rewrite !ltb_spec. unfold SFltb.
  rewrite (SFcompare_antisym (Prim2SF x) (Prim2SF y)).
  destruct (SFcompare (Prim2SF x) (Prim2SF y)) as [[]|]; simpl; congruence.
Qed.


Lemma float_eqb_not_ltb x y :
  PrimFloat.eqb x y = true -> PrimFloat.ltb x y = false.
Proof.
  rewrite eqb_spec, ltb_spec. unfold SFeqb, SFltb.
  destruct (SFcompare (Prim2SF x) (Prim2SF y)) as [[]|]; congruence.
Qed.

(** ** The stable descending sort *)

Section SortingFacts.
Context {A : Type} (key : A -> float).

Lemma insert_desc_perm x l : Permutation (x :: l) (insert_desc key x l).
Proof.
  induction l as [|y l IH]; simpl.
  - apply Permutation_refl.
  - destruct (PrimFloat.ltb (key x) (key y)).
    + apply perm_trans with (y :: x :: l); [apply perm_swap|].
      now apply perm_skip.
    + apply Permutation_refl.
Qed.

Lemma sorted_reverse_perm l : Permutation l (sorted_reverse key l).
Proof.
  induction l as [|x l IH]; simpl.
  - apply Permutation_refl.
  - apply perm_trans with (x :: sorted_reverse key l).
    + now apply perm_skip.
    + apply insert_desc_perm.
Qed.

Lemma insert_desc_descending x l :
  descending key l -> descending key (insert_desc key x l).
Proof.
  unfold descending.
  induction l as [|y l IH]; intro H; simpl.
  - repeat constructor.
  - destruct (PrimFloat.ltb (key x) (key y)) eqn:E.
    + inversion H as [|? ? Hs Hh]; subst.
      constructor; [now apply IH|].
      destruct l as [|z l]; simpl.
      * constructor. now apply float_ltb_asym.
      * destruct (PrimFloat.ltb (key x) (key z)).
        -- constructor. now inversion Hh.
        -- constructor. now apply float_ltb_asym.
    + constructor; [assumption|]. now constructor.
Qed.

Lemma sorted_reverse_descending l : descending key (sorted_reverse key l).
Proof.
  induction l as [|x l IH]; simpl.
  - constructor.
  - now apply insert_desc_descending.
Qed.

Lemma precedes_cons (a b x : A) l : precedes a b l -> precedes a b (x :: l).
Proof.
  intros [l1 [l2 [-> Hb]]]. exists (x :: l1), l2. now split.
Qed.

Lemma precedes_head (a b : A) l : In b l -> precedes a b (a :: l).
Proof. intro H. exists [], l. now split. Qed.

Lemma precedes_inv (a b x : A) l :
  precedes a b (x :: l) -> (x = a /\ In b l) \/ precedes a b l.
Proof.
  intros [l1 [l2 [E Hb]]]. destruct l1 as [|y l1]; simpl in E.
  - injection E as -> ->. now left.
  - injection E as -> ->. right. now exists l1, l2.
Qed.

(** An inserted item stays in front of every item whose key is not
    strictly greater. *)
Lemma insert_desc_before a b l :
  In b l -> PrimFloat.ltb (key a) (key b) = false ->
  precedes a b (insert_desc key a l).
Proof.
  induction l as [|y l IH]; intros Hb Hk; simpl.
  - destruct Hb.
  - destruct (PrimFloat.ltb (key a) (key y)) eqn:E.
    + apply precedes_cons. apply IH; [|assumption].
      destruct Hb as [->|Hb]; [congruence | assumption].
    + now apply precedes_head.
Qed.

(** An insertion does not reorder the items already there. *)
Lemma insert_desc_keeps x a b l :
  precedes a b l -> precedes a b (insert_desc key x l).
Proof.
  induction l as [|y l IH]; intro H; simpl.
  - destruct H as [l1 [l2 [E _]]]. now destruct l1.
  - destruct (PrimFloat.ltb (key x) (key y)).
    + destruct (precedes_inv _ _ _ _ H) as [[-> Hb]|H'].
      * apply precedes_head.
        apply (Permutation_in _ (insert_desc_perm x l)). now right.
      * apply precedes_cons. now apply IH.
    + now apply precedes_cons.
Qed.

(** Stability: two items of which the first does not have the strictly
    smaller key keep their order. *)
Lemma sorted_reverse_stable a b l :
  precedes a b l -> PrimFloat.ltb (key a) (key b) = false ->
  precedes a b (sorted_reverse key l).
Proof.
  induction l as [|x l IH]; intros H Hk; simpl.
  - destruct H as [l1 [l2 [E _]]]. now destruct l1.
  - destruct (precedes_inv _ _ _ _ H) as [[-> Hb]|H'].
    + apply insert_desc_before; [|assumption].
      now apply (Permutation_in _ (sorted_reverse_perm l)).
    + apply insert_desc_keeps. now apply IH.
Qed.
End SortingFacts.

Lemma precedes_map {A B} (f : A -> B) a b l :
  precedes a b l -> precedes (f a) (f b) (map f l).
Proof.
  intros [l1 [l2 [-> Hb]]]. exists (map f l1), (map f l2).
  rewrite map_app. simpl. split; [reflexivity | now apply in_map].
Qed.

Lemma precedes_map_inv {A B} (f : A -> B) i j l :
  precedes i j (map f l) ->
  exists a b, f a = i /\ f b = j /\ precedes a b l.
Proof.
  intros [l1 [l2 [E Hj]]].
  apply map_eq_app in E. destruct E as [m1 [m2 [-> [<- E2]]]].
  apply map_eq_cons in E2. destruct E2 as [a [m3 [-> [<- <-]]]].
  apply in_map_iff in Hj. destruct Hj as [b [<- Hb]].
  exists a, b. repeat split. now exists m1, m3.
Qed.

Lemma dict_get_of_In {V} (d : dict V) k v :
  NoDup (keys d) -> In (k, v) d -> dict_get d k = Some v.
Proof.
  unfold keys. induction d as [|[k0 v0] d IH]; simpl; intros Hnd Hin.
  - destruct Hin.
  - inversion Hnd as [|? ? Hk0 Hnd']; subst.
    destruct Hin as [E|Hin].
    + injection E as -> ->. now rewrite pyval_eqb_refl.
    + destruct (pyval_eqb k0 k) eqn:E.
      * apply pyval_eqb_eq in E. subst k0. exfalso. apply Hk0.
        apply in_map_iff. now exists (k, v).
      * now apply IH.
Qed.

Lemma descending_map_fst (fused : dict float) (l : list (pyval * float)) :
  (forall p, In p l -> snd p = score_of fused (fst p)) ->
  descending snd l -> descending (score_of fused) (map fst l).
Proof.
  unfold descending. intros Hl H.
  induction H as [|p l Hs IH Hh]; simpl; constructor.
  - apply IH. intros q Hq. apply Hl. now right.
  - destruct Hh as [|q l Hpq]; simpl; constructor.
    rewrite <- (Hl p), <- (Hl q); simpl; auto.
Qed.

(** ** C2 *)

(** C2. The order of the ids after fusion is a function of the ranked
    lists and [k]: the fused dictionary iterates its ids in first-seen
    order of the concatenated lists, the sorted ids are these same ids,
    each once, no id is followed by one with a strictly greater fused
    score, and two ids with equal fused scores stand in first-seen
    order. *)
Theorem fused_order_deterministic lists k fused :
  _rrf_fuse lists k = Ok fused ->
  keys fused = first_seen (List.concat lists)
  /\ Permutation (first_seen (List.concat lists)) (fused_order fused)
  /\ NoDup (fused_order fused)
  /\ descending (score_of fused) (fused_order fused)
  /\ (forall i j,
        PrimFloat.eqb (score_of fused i) (score_of fused j) = true ->
        precedes i j (first_seen (List.concat lists)) ->
        precedes i j (fused_order fused))
  /\ (forall fused', _rrf_fuse lists k = Ok fused' ->
                     fused_order fused' = fused_order fused).
Proof.
  intro H. pose proof (keys_rrf_fuse _ _ _ H) as Hk.
  assert (Hnd : NoDup (keys fused)) by (rewrite Hk; apply first_seen_NoDup).
  assert (Hperm : Permutation (keys fused) (fused_order fused)).
  { unfold keys, fused_order, items. apply Permutation_map.
    apply sorted_reverse_perm. }
  assert (Hscore : forall p, In p fused -> snd p = score_of fused (fst p)).
  { intros [i s] Hp. unfold score_of, dict_get_default. cbn [fst snd].
    now rewrite (dict_get_of_In _ _ _ Hnd Hp). }
  split; [exact Hk|]. split; [now rewrite <- Hk|].
  split; [apply (Permutation_NoDup Hperm Hnd)|].
  split; [|split].
  - unfold fused_order, items. apply descending_map_fst.
    + intros p Hp. apply Hscore.
      apply (Permutation_in _
               (Permutation_sym (sorted_reverse_perm snd fused))).
      exact Hp.
    + apply sorted_reverse_descending.
  - intros i j Heq Hprec. rewrite <- Hk in Hprec.
    apply precedes_map_inv in Hprec.
    destruct Hprec as [p [q [<- [<- Hpq]]]].
    unfold fused_order, items. apply precedes_map.
    apply sorted_reverse_stable; [exact Hpq|].
    assert (Hp : In p fused).
    { destruct Hpq as [l1 [l2 [-> _]]]. apply in_elt. }
    assert (Hq : In q fused).
    { destruct Hpq as [l1 [l2 [-> Hq]]]. apply in_or_app. right. now right. }
    rewrite (Hscore p Hp), (Hscore q Hq). now apply float_eqb_not_ltb.
  - intros fused' H'. congruence.
Qed.

(** The theorem at the scenario of the specification. *)
Lemma fused_order_deterministic_witness :
  exists fused,
    _rrf_fuse scenario_lists 60 = Ok fused
    /\ keys fused = first_seen (List.concat scenario_lists)
    /\ descending (score_of fused) (fused_order fused).
Proof.
  eexists. split; [vm_compute; reflexivity|].
  match goal with
  | |- keys ?f = _ /\ _ =>
      destruct (fused_order_deterministic scenario_lists 60 f)
        as [H1 [_ [_ [H4 _]]]]
  end.
  - vm_compute. reflexivity.
  - split; assumption.
Defined.

(** ** Traces *)

Lemma logs_ret {A} (P : event -> Prop) (a : A) : logs P (ret a).
Proof. intro t. exists []. simpl. now rewrite app_nil_r. Qed.

Lemma logs_lift {A} (P : event -> Prop) (r : result A) : logs P (lift r).
Proof. intro t. exists []. simpl. now rewrite app_nil_r. Qed.

Lemma logs_call {A} (P : event -> Prop) ev (r : result A) :
  P ev -> logs P (call ev r).
Proof.
  intros H t. exists [ev]. simpl. split; [reflexivity | now constructor].
Qed.

Lemma logs_bind {A B} (P : event -> Prop) (m : M A) (f : A -> M B) :
  logs P m -> (forall a, logs P (f a)) -> logs P (bind m f).
Proof.
  intros Hm Hf t. unfold bind. destruct (Hm t) as [c1 [E1 F1]].
  destruct (m t) as [[a|e] t1]; simpl in E1; subst t1.
  - destruct (Hf a (t ++ c1)) as [c2 [E2 F2]].
    exists (c1 ++ c2). rewrite E2, app_assoc. split; [reflexivity|].
    apply Forall_app. now split.
  - now exists c1.
Qed.

Lemma logs_try_except {A} (P : event -> Prop) (m : M A) (h : exn -> M A) :
  logs P m -> (forall e, logs P (h e)) -> logs P (try_except m h).
Proof.
  intros Hm Hh t. unfold try_except. destruct (Hm t) as [c1 [E1 F1]].
  destruct (m t) as [[a|e] t1]; simpl in E1; subst t1.
  - now exists c1.
  - destruct (Hh e (t ++ c1)) as [c2 [E2 F2]].
    exists (c1 ++ c2). rewrite E2, app_assoc. split; [reflexivity|].
    apply Forall_app. now split.
Qed.

Lemma logs_for_eachM {S A} (P : event -> Prop) (body : S -> A -> M S) l :
  (forall s x, logs P (body s x)) -> forall s, logs P (for_eachM body l s).
Proof.
  intro Hb. induction l as [|x l IH]; intro s; simpl.
  - apply logs_ret.
  - apply logs_bind; [apply Hb | apply IH].
Qed.

Lemma logs_mapM {A B} (P : event -> Prop) (f : A -> M B) l :
  (forall x, logs P (f x)) -> logs P (mapM f l).
Proof.
  intro Hf. induction l as [|x l IH]; simpl.
  - apply logs_ret.
  - apply logs_bind; [apply Hf|]. intro y.
    apply logs_bind; [apply IH|]. intro ys. apply logs_ret.
Qed.

Lemma logs_weaken {A} (P Q : event -> Prop) (m : M A) :
  (forall ev, P ev -> Q ev) -> logs P m -> logs Q m.
Proof.
  intros HPQ Hm t. destruct (Hm t) as [c [E F]]. exists c.
  split; [assumption|]. eapply Forall_impl; eauto.
Qed.

(** A computation that logs nothing leaves the trace as it was. *)
Lemma logs_nothing {A} (m : M A) t :
  logs (fun _ => False) m -> snd (m t) = t.
Proof.
  intro H. destruct (H t) as [c [E F]]. rewrite E.
  destruct c as [|ev c]; [apply app_nil_r|]. now inversion F.
Qed.

(** ** C4 *)

Lemma generate_rewrites_head W query n hyde t qs t' :
  _generate_rewrites_openai W query n hyde t = (Ok qs, t') ->
  hd_error qs = Some query.
Proof.
  unfold _generate_rewrites_openai, bind, call, content_text, ret, lift.
  destruct (openai_client W); [|discriminate].
  destruct (chat_completions_create W "gpt-4o-mini"
              (paraphrase_messages query n) 150) as [[s|]|];
    try discriminate.
  destruct hyde.
  - destruct (chat_completions_create W "gpt-4o-mini"
                (hyde_messages query) 120) as [[s'|]|];
      try discriminate.
    intro H. now injection H as <- _.
  - intro H. now injection H as <- _.
Qed.

(** C4. Query expansion cannot fail the session: [query_variants] always
    returns a list, the original query is its first element, and whenever
    [_generate_rewrites_openai] raises (the client cannot be built, a chat
    call raises, or a reply has no content) the list is the original query
    alone. *)
Theorem query_expansion_never_fails W query t :
  exists queries t',
    query_variants W query t = (Ok queries, t')
    /\ hd_error queries = Some query
    /\ (forall e t1,
          _generate_rewrites_openai W query N_REWRITES USE_HYDE t
          = (Raise e, t1) -> queries = [query])
    /\ (forall e, openai_client W = Raise e -> queries = [query])
    /\ (forall e,
          chat_completions_create W "gpt-4o-mini"
            (paraphrase_messages query N_REWRITES) 150 = Raise e ->
          queries = [query])
    /\ (chat_completions_create W "gpt-4o-mini"
          (paraphrase_messages query N_REWRITES) 150 = Ok None ->
        queries = [query])
    /\ (forall e,
          chat_completions_create W "gpt-4o-mini"
            (hyde_messages query) 120 = Raise e ->
          queries = [query])
    /\ (chat_completions_create W "gpt-4o-mini" (hyde_messages query) 120
        = Ok None ->
        queries = [query]).
Proof.
  unfold query_variants, try_except. simpl.
  destruct (_generate_rewrites_openai W query N_REWRITES USE_HYDE t)
    as [[qs|e] t1] eqn:E.
  - exists qs, t1. split; [reflexivity|].
    split; [apply (generate_rewrites_head _ _ _ _ _ _ _ E)|].
    split; [discriminate|].
    revert E.
    unfold _generate_rewrites_openai, bind, call, content_text, ret, lift,
      USE_HYDE.
    destruct (openai_client W).
    2: discriminate.
    destruct (chat_completions_create W "gpt-4o-mini"
                (paraphrase_messages query N_REWRITES) 150) as [[s|]|].
    2, 3: discriminate.
    destruct (chat_completions_create W "gpt-4o-mini"
                (hyde_messages query) 120) as [[s'|]|].
    2, 3: discriminate.
    intros _. repeat split; discriminate.
  - exists [query], t1. unfold ret. repeat split; reflexivity.
Qed.

(** The theorem in a world without a chat model. *)
Lemma query_expansion_never_fails_witness :
  exists queries t',
    query_variants (world_of secret_seed0 vs_abc) "q" [] = (Ok queries, t')
    /\ hd_error queries = Some "q"
    /\ queries = ["q"].
Proof.
  destruct (query_expansion_never_fails (world_of secret_seed0 vs_abc) "q" [])
    as [queries [t' [H1 [H2 [_ [H3 _]]]]]].
  exists queries, t'. split; [exact H1|]. split; [exact H2|].
  apply (H3 (BackendError "no API key")). reflexivity.
Defined.

(** ** C6 *)

Lemma zero_scores_sorted (docs : list Document) :
  sorted_by_score (map (fun d => (d, 0%float)) docs).
Proof.
  unfold sorted_by_score, descending.
  induction docs as [|d docs IH]; simpl; constructor.
  - exact IH.
  - destruct docs; simpl; constructor. reflexivity.
Qed.

(** C6 (as amended). [_dense_search] hands back what the backend
    returned, in the backend's order, and sorts nothing: when
    [similarity_search_with_score] answers, the result is that very list
    (so it is in descending score order exactly when the backend's list
    is), and when it raises, the result is the list of
    [similarity_search] with the score [0.0] for every document. *)
Theorem dense_search_keeps_backend_order vs q k t :
  (forall hits,
     similarity_search_with_score vs q k = Ok hits ->
     _dense_search vs q k t = (Ok hits, t ++ [EvSearchWithScore q k]))
  /\ (forall e docs,
        similarity_search_with_score vs q k = Raise e ->
        similarity_search vs q k = Ok docs ->
        _dense_search vs q k t =
          (Ok (map (fun d => (d, 0%float)) docs),
           t ++ [EvSearchWithScore q k] ++ [EvSearch q k])
        /\ sorted_by_score (map (fun d => (d, 0%float)) docs))
  /\ (forall hits t',
        _dense_search vs q k t = (Ok hits, t') ->
        forall hits0, similarity_search_with_score vs q k = Ok hits0 ->
        hits = hits0 /\ (sorted_by_score hits <-> sorted_by_score hits0)).
Proof.
  unfold _dense_search, try_except, call, bind, ret.
  split; [|split].
  - intros hits ->. reflexivity.
  - intros e docs -> ->. rewrite <- app_assoc.
    split; [reflexivity | apply zero_scores_sorted].
  - intros hits t' H hits0 E. rewrite E in H. injection H as <- _.
    split; [reflexivity | tauto].
Qed.

(** The theorem for a backend that answers A, B, C. *)
Lemma dense_search_keeps_backend_order_witness :
  _dense_search vs_abc "q" DENSE_TOP_K []
  = (Ok [(doc_a, 0.75%float); (doc_b, 0.5%float); (doc_c, 0.25%float)],
     [EvSearchWithScore "q" DENSE_TOP_K]).
Proof.
  apply (proj1 (dense_search_keeps_backend_order vs_abc "q" DENSE_TOP_K [])).
  reflexivity.
Defined.

(** The adapter does not sort: a backend that answers in ascending score
    order gets its list back as it is. *)
Lemma dense_search_unsorted_backend :
  exists hits t',
    _dense_search vs_unsorted "q" DENSE_TOP_K [] = (Ok hits, t')
    /\ hits = [(doc_a, 0.25%float); (doc_b, 0.75%float)]
    /\ ~ sorted_by_score hits.
Proof.
  eexists. eexists. split; [vm_compute; reflexivity|].
  split; [reflexivity|].
  intro H. inversion H as [|? ? _ Hh]; subst.
  inversion Hh as [|? ? Hlt]; subst. vm_compute in Hlt. discriminate.
Qed.

(** ** C3 *)

Lemma dense_search_raises vs q k t e1 e2 :
  similarity_search_with_score vs q k = Raise e1 ->
  similarity_search vs q k = Raise e2 ->
  _dense_search vs q k t =
    (Raise e2, t ++ [EvSearchWithScore q k] ++ [EvSearch q k]).
Proof.
  unfold _dense_search, try_except, call, bind. intros -> ->.
  now rewrite <- app_assoc.
Qed.

Lemma for_eachM_raises {S A} (body : S -> A -> M S) q l :
  (forall s t, exists e t', body s q t = (Raise e, t')) ->
  In q l ->
  forall s t, exists e t', for_eachM body l s t = (Raise e, t').
Proof.
  intros Hq. induction l as [|x l IH]; intros Hin s t.
  - destruct Hin.
  - simpl. unfold bind.
    destruct (body s x t) as [[s'|e] t1] eqn:E.
    + destruct Hin as [->|Hin].
      * destruct (Hq s t) as [e [t' E']]. congruence.
      * apply IH, Hin.
    + now exists e, t1.
Qed.

Lemma fan_out_step_raises W vs dir st q t e1 e2 :
  similarity_search_with_score vs q DENSE_TOP_K = Raise e1 ->
  similarity_search vs q DENSE_TOP_K = Raise e2 ->
  exists e t', fan_out_step W vs dir st q t = (Raise e, t').
Proof.
  intros H1 H2. unfold fan_out_step. destruct st as [bank ranked].
  unfold bind. rewrite (dense_search_raises _ _ _ _ _ _ H1 H2).
  eexists. eexists. reflexivity.
Qed.

(** C3 (as amended). A dense search that fails in both backend methods
    is fatal for every query variant, the original query or a rewrite:
    the loop over the variants stops and [retrieve_docs] raises. No dense
    call is skipped. (A failure of [similarity_search_with_score] alone
    is absorbed inside [_dense_search] by [similarity_search].) *)
Theorem dense_failure_is_fatal_for_every_variant
    W query path dir k t vs queries t1 q e1 e2 :
  faiss_load_local W path = Ok vs ->
  query_variants W query (t ++ [EvLoadLocal path]) = (Ok queries, t1) ->
  In q queries ->
  similarity_search_with_score vs q DENSE_TOP_K = Raise e1 ->
  similarity_search vs q DENSE_TOP_K = Raise e2 ->
  exists e t', retrieve_docs W query path dir k t = (Raise e, t').
Proof.
  intros Hload Hq Hin H1 H2.
  unfold retrieve_docs, load_vectorstore, bind, call.
  rewrite Hload, Hq.
  destruct (for_eachM_raises (fan_out_step W vs dir) q queries
              (fun s t0 => fan_out_step_raises W vs dir s q t0 e1 e2 H1 H2)
              Hin ([], []) t1) as [e [t' E]].
  unfold fan_out. rewrite E. now exists e, t'.
Qed.

(** The theorem in a world whose chat model proposes the rewrite ["q2"]
    and whose dense index fails for it. *)
Lemma dense_failure_is_fatal_for_every_variant_witness :
  exists e t',
    retrieve_docs (with_chat (world_of secret_seed0 vs_only_q))
      "q" VECTORSTORE_DIR (VStr BM25_DIR) FINAL_TOP_K [] = (Raise e, t').
Proof.
  apply (dense_failure_is_fatal_for_every_variant
           (with_chat (world_of secret_seed0 vs_only_q))
           "q" VECTORSTORE_DIR (VStr BM25_DIR) FINAL_TOP_K []
           vs_only_q ["q"; "q2"; "q2"]
           (snd (query_variants (with_chat (world_of secret_seed0 vs_only_q))
                   "q" [EvLoadLocal VECTORSTORE_DIR]))
           "q2"
           (BackendError "dense index unavailable")
           (BackendError "dense index unavailable")).
  - reflexivity.
  - vm_compute. reflexivity.
  - simpl. right. now left.
  - reflexivity.
  - reflexivity.
Defined.

(** The dense index answers the original query ["q"] and fails for the
    rewrite ["q2"]; the failed call is not skipped, [retrieve_docs]
    raises. *)
Lemma dense_failure_on_rewrite_not_skipped :
  let W := with_chat (world_of secret_seed0 vs_only_q) in
  fst (query_variants W "q" [EvLoadLocal VECTORSTORE_DIR])
  = Ok ["q"; "q2"; "q2"]
  /\ fst (_dense_search vs_only_q "q" DENSE_TOP_K [])
     = Ok [(doc_a, 0.75%float)]
  /\ fst (_dense_search vs_only_q "q2" DENSE_TOP_K [])
     = Raise (BackendError "dense index unavailable")
  /\ fst (retrieve_docs W "q" VECTORSTORE_DIR (VStr BM25_DIR) FINAL_TOP_K [])
     = Raise (BackendError "dense index unavailable").
Proof.
  repeat split; vm_compute; reflexivity.
Qed.

(** ** C7 *)

Lemma fuse_and_assemble_logs_nothing bank ranked k :
  logs (fun _ => False) (fuse_and_assemble bank ranked k).
Proof.
  unfold fuse_and_assemble.
  apply logs_bind; [apply logs_lift|]. intro fused.
  apply logs_bind; [|intro; apply logs_ret].
  apply logs_mapM. intro i. apply logs_lift.
Qed.

Lemma dense_search_logs vs q k :
  logs (dense_search_of q) (_dense_search vs q k).
Proof.
  unfold _dense_search.
  apply logs_try_except; [now apply logs_call|]. intro e.
  apply logs_bind; [now apply logs_call|]. intro. apply logs_ret.
Qed.

(** C7. Once the loop is over, [retrieve_docs] falls back exactly when no
    ranked list was accumulated. With no ranked list it runs one dense
    search, for the original query, and returns its first [k] documents
    ([hits[:k]]) without fusing anything; with at least one ranked list
    it fuses and makes no further call. *)
Theorem fallback_exactly_when_no_ranked_list vs query k bank ranked t :
  (ranked = [] ->
   after_fan_out vs query k bank ranked t =
     (match fst (_dense_search vs query DENSE_TOP_K t) with
      | Ok hits => Ok (map fst (slice_to k hits))
      | Raise e => Raise e
      end,
      snd (_dense_search vs query DENSE_TOP_K t))
   /\ exists calls,
        snd (after_fan_out vs query k bank ranked t) = t ++ calls
        /\ (calls = [EvSearchWithScore query DENSE_TOP_K]
            \/ calls = [EvSearchWithScore query DENSE_TOP_K;
                        EvSearch query DENSE_TOP_K]))
  /\ (ranked <> [] ->
      after_fan_out vs query k bank ranked t =
        fuse_and_assemble bank ranked k t
      /\ snd (after_fan_out vs query k bank ranked t) = t).
Proof.
  split.
  - intros ->. unfold after_fan_out, dense_only_fallback, bind, ret.
    unfold _dense_search, try_except, call, bind, ret.
    destruct (similarity_search_with_score vs query DENSE_TOP_K) as [hits|e].
    + simpl. split; [reflexivity|]. eexists. split; [reflexivity|]. now left.
    + destruct (similarity_search vs query DENSE_TOP_K) as [docs|e'];
        simpl; (split; [reflexivity|]); eexists;
        (split; [rewrite <- app_assoc; reflexivity|]); now right.
  - intro H. destruct ranked as [|lst ranked]; [contradiction|].
    unfold after_fan_out. split; [reflexivity|].
    apply logs_nothing, fuse_and_assemble_logs_nothing.
Qed.

(** The theorem on both branches: no ranked list, and one ranked list. *)
Lemma fallback_exactly_when_no_ranked_list_witness :
  fst (after_fan_out vs_abc "q" 2 [] [] [])
  = Ok [doc_a; doc_b]
  /\ snd (after_fan_out vs_abc "q" 2
            [(id_A, doc_a)] [[id_A]] []) = [].
Proof.
  split.
  - rewrite (proj1 (proj1 (fallback_exactly_when_no_ranked_list
                             vs_abc "q" 2 [] [] []) eq_refl)).
    reflexivity.
  - apply (proj2 (fallback_exactly_when_no_ranked_list
                    vs_abc "q" 2 [(id_A, doc_a)] [[id_A]] [])).
    discriminate.
Defined.

(** ** Slices *)

Lemma slice_to_firstn {A} (n : Z) (l : list A) :
  exists m, slice_to n l = firstn m l.
Proof. unfold slice_to. destruct (n <? 0); eexists; reflexivity. Qed.

Lemma slice_to_length {A} (n : Z) (l : list A) :
  0 <= n -> Z.of_nat (List.length (slice_to n l)) <= n.
Proof.
  intro H. unfold slice_to.
  destruct (n <? 0) eqn:E; [apply Z.ltb_lt in E; lia|].
  pose proof (firstn_le_length (Z.to_nat n) l) as H1.
  rewrite length_firstn. lia.
Qed.

Lemma NoDup_firstn {A} (m : nat) (l : list A) : NoDup l -> NoDup (firstn m l).
Proof.
  revert m. induction l as [|x l IH]; intros m H.
  - now rewrite firstn_nil.
  - destruct m; simpl; [constructor|].
    inversion H as [|? ? Hx Hl]; subst. constructor; [|now apply IH].
    intro Hin. apply Hx. rewrite <- (firstn_skipn m l).
    apply in_or_app. now left.
Qed.

Lemma In_firstn {A} (m : nat) (l : list A) x : In x (firstn m l) -> In x l.
Proof.
  intro H. rewrite <- (firstn_skipn m l). apply in_or_app. now left.
Qed.

(** ** Inversion of monadic steps *)

Lemma bind_ok {A B} (m : M A) (f : A -> M B) t b t' :
  bind m f t = (Ok b, t') ->
  exists a t1, m t = (Ok a, t1) /\ f a t1 = (Ok b, t').
Proof.
  unfold bind. destruct (m t) as [[a|e] t1]; [|discriminate].
  intro H. now exists a, t1.
Qed.

(** ** C10 *)

Lemma query_variants_logs W query P :
  (forall ev, match ev with EvOpenAI | EvChat _ _ _ => P ev | _ => True end) ->
  logs P (query_variants W query).
Proof.
  intro HP. unfold query_variants. simpl.
  apply logs_try_except; [|intro; apply logs_ret].
  unfold _generate_rewrites_openai.
  apply logs_bind; [apply logs_call, (HP EvOpenAI)|]. intros _.
  apply logs_bind; [apply logs_call, (HP (EvChat _ _ _))|]. intro c.
  apply logs_bind; [destruct c; [apply logs_ret | apply logs_lift]|].
  intro text. apply logs_bind; [|intro; apply logs_ret].
  simpl.
  apply logs_bind; [apply logs_call, (HP (EvChat _ _ _))|]. intro c'.
  apply logs_bind; [destruct c'; [apply logs_ret | apply logs_lift]|].
  intro. apply logs_ret.
Qed.

Lemma fan_out_step_logs W vs dir st q :
  logs (lexical_dir_is dir) (fan_out_step W vs dir st q).
Proof.
  unfold fan_out_step. destruct st as [bank ranked].
  apply logs_bind.
  { apply (logs_weaken (dense_search_of q)); [|apply dense_search_logs].
    intros [] H; simpl in *; auto; contradiction. }
  intro hits. destruct (collect_hits W bank hits) as [bank1 ids].
  apply logs_bind.
  { destruct (HAS_BM25 W); [now apply logs_call | apply logs_ret]. }
  intros [|]; [|apply logs_ret].
  apply logs_try_except; [|intro; apply logs_ret].
  apply logs_bind.
  { unfold search_bm25. apply logs_bind; [now apply logs_call|].
    intro. apply logs_ret. }
  intro lex. destruct (collect_hits W bank1 lex). apply logs_ret.
Qed.

Lemma retrieve_docs_logs W query path dir k :
  logs (lexical_dir_is dir) (retrieve_docs W query path dir k).
Proof.
  unfold retrieve_docs.
  apply logs_bind; [now apply logs_call|]. intro vs.
  apply logs_bind; [apply query_variants_logs; now intros []|].
  intro queries. apply logs_bind.
  { apply logs_for_eachM. intros s x. apply fan_out_step_logs. }
  intros [bank ranked]. unfold after_fan_out.
  destruct ranked as [|lst ranked].
  - unfold dense_only_fallback.
    apply logs_bind; [|intro; apply logs_ret].
    apply (logs_weaken (dense_search_of query)); [|apply dense_search_logs].
    intros [] H; simpl in *; auto; contradiction.
  - apply (logs_weaken (fun _ => False)); [contradiction|].
    apply fuse_and_assemble_logs_nothing.
Qed.

Lemma after_fan_out_length vs query k bank ranked t docs t' :
  after_fan_out vs query k bank ranked t = (Ok docs, t') ->
  0 <= k -> Z.of_nat (List.length docs) <= k.
Proof.
  intros H Hk. unfold after_fan_out in H. destruct ranked as [|lst ranked].
  - unfold dense_only_fallback in H.
    apply bind_ok in H. destruct H as [hits [t1 [_ H]]].
    injection H as <- _. rewrite length_map. now apply slice_to_length.
  - unfold fuse_and_assemble in H.
    apply bind_ok in H. destruct H as [fused [t1 [_ H]]].
    apply bind_ok in H. destruct H as [all [t2 [_ H]]].
    injection H as <- _. now apply slice_to_length.
Qed.

Lemma retrieve_docs_length W query path dir k t docs t' :
  retrieve_docs W query path dir k t = (Ok docs, t') ->
  0 <= k -> Z.of_nat (List.length docs) <= k.
Proof.
  intros H Hk. unfold retrieve_docs in H.
  apply bind_ok in H. destruct H as [vs [t1 [_ H]]].
  apply bind_ok in H. destruct H as [queries [t2 [_ H]]].
  apply bind_ok in H. destruct H as [[bank ranked] [t3 [_ H]]].
  now apply (after_fan_out_length _ _ _ _ _ _ _ _ H).
Qed.

(** C10. The retrieval that [generate_answer] runs is [retrieve_docs]
    with the caller's [k] in the place of [bm25_dir] and with the default
    [FINAL_TOP_K] as the final count: whatever [k] the caller passes, at
    most 5 documents come back, and every lexical call of the run (the
    directory test and the index search) is made on the value [k].
    [generate_answer] answers from these documents. In the example a
    caller asking for 2 documents receives 3, and the real BM25 directory
    is never searched. *)
Theorem generate_answer_passes_k_as_bm25_dir W query path k t :
  generate_answer_retrieval W query path k t
  = retrieve_docs W query path (VInt k) FINAL_TOP_K t
  /\ (forall docs t',
        generate_answer_retrieval W query path k t = (Ok docs, t') ->
        Z.of_nat (List.length docs) <= FINAL_TOP_K)
  /\ (exists calls,
        snd (generate_answer_retrieval W query path k t) = t ++ calls
        /\ Forall (lexical_dir_is (VInt k)) calls)
  /\ (forall model e t',
        generate_answer_retrieval W query path k t = (Raise e, t') ->
        generate_answer W query path k model t = (Raise e, t'))
  /\ (forall model t',
        generate_answer_retrieval W query path k t = (Ok [], t') ->
        generate_answer W query path k model t
        = (Ok (Some "No relevant documents found."), t'))
  /\ generate_answer_retrieval (world_of secret_seed0 vs_abc)
       "q" VECTORSTORE_DIR 2 []
     = (Ok [doc_a; doc_b; doc_c],
        [EvLoadLocal VECTORSTORE_DIR; EvOpenAI;
         EvSearchWithScore "q" DENSE_TOP_K; EvIsdir (VInt 2)]).
Proof.
  split; [reflexivity|]. split; [|split; [|split; [|split]]].
  - intros docs t' H. unfold generate_answer_retrieval in H.
    apply (retrieve_docs_length _ _ _ _ _ _ _ _ H). unfold FINAL_TOP_K. lia.
  - apply (retrieve_docs_logs W query path (VInt k) FINAL_TOP_K t).
  - intros model e t' H. unfold generate_answer, bind. now rewrite H.
  - intros model t' H. unfold generate_answer, bind. now rewrite H.
  - vm_compute. reflexivity.
Qed.

(** The theorem for a caller that asks for 2 documents. *)
Lemma generate_answer_passes_k_as_bm25_dir_witness :
  exists calls,
    snd (generate_answer_retrieval (world_of secret_seed0 vs_abc)
           "q" VECTORSTORE_DIR 2 []) = [] ++ calls
    /\ Forall (lexical_dir_is (VInt 2)) calls.
Proof.
  apply (generate_answer_passes_k_as_bm25_dir
           (world_of secret_seed0 vs_abc) "q" VECTORSTORE_DIR 2 []).
Defined.

(** ** The Document Bank *)

Lemma dict_set_new {V} (d : dict V) k v :
  dict_contains d k = false -> dict_set d k v = d ++ [(k, v)].
Proof.
  unfold dict_contains.
  induction d as [|[k0 v0] d IH]; simpl; [reflexivity|].
  destruct (pyval_eqb k0 k); [discriminate|].
  intro H. now rewrite IH.
Qed.

Lemma dict_get_Some_In {V} (d : dict V) k v :
  dict_get d k = Some v -> In (k, v) d.
Proof.
  induction d as [|[k0 v0] d IH]; simpl; [discriminate|].
  destruct (pyval_eqb k0 k) eqn:E.
  - apply pyval_eqb_eq in E. subst k0. intro H. injection H as ->. now left.
  - intro H. right. now apply IH.
Qed.

Lemma dict_contains_In {V} (d : dict V) k :
  dict_contains d k = true <-> In k (keys d).
Proof. rewrite dict_contains_existsb. apply existsb_pyval_In. Qed.

Lemma collect_spec W bank ids hit :
  bank_ok W bank ->
  bank_ok W (fst (collect W (bank, ids) hit))
  /\ incl (keys bank) (keys (fst (collect W (bank, ids) hit)))
  /\ snd (collect W (bank, ids) hit) = ids ++ [doc_id_of W (fst hit)]
  /\ In (doc_id_of W (fst hit)) (keys (fst (collect W (bank, ids) hit))).
Proof.
  intros [Hnd Hid]. unfold collect. cbn [fst snd].
  destruct (dict_contains bank (doc_id_of W (fst hit))) eqn:E.
  - split; [now split|]. split; [apply incl_refl|].
    split; [reflexivity | now apply dict_contains_In].
  - rewrite (dict_set_new _ _ _ E). unfold bank_ok, keys in *.
    rewrite map_app. simpl.
    split; [split|].
    + apply Permutation_NoDup with (l := doc_id_of W (fst hit) :: map fst bank).
      * apply Permutation_cons_append.
      * constructor; [|exact Hnd]. intro Hin.
        apply dict_contains_In in Hin. congruence.
    + intros id d Hin. apply in_app_or in Hin. destruct Hin as [Hin|Hin].
      * now apply Hid.
      * destruct Hin as [Heq|[]]. now injection Heq as <- <-.
    + split; [apply incl_appl, incl_refl|].
      split; [reflexivity|]. apply in_or_app. right. now left.
Qed.

Lemma collect_hits_from W hits : forall bank ids,
  bank_ok W bank ->
  bank_ok W (fst (fold_left (collect W) hits (bank, ids)))
  /\ incl (keys bank) (keys (fst (fold_left (collect W) hits (bank, ids))))
  /\ exists new,
       snd (fold_left (collect W) hits (bank, ids)) = ids ++ new
       /\ incl new (keys (fst (fold_left (collect W) hits (bank, ids)))).
Proof.
  induction hits as [|hit hits IH]; intros bank ids Hb; cbn [fold_left].
  - split; [assumption|]. split; [apply incl_refl|].
    exists []. split; [now rewrite app_nil_r | apply incl_nil_l].
  - destruct (collect_spec W bank ids hit Hb) as [Hb1 [Hinc1 [Hids1 Hin1]]].
    destruct (collect W (bank, ids) hit) as [bank1 ids1] eqn:E.
    cbn [fst snd] in *. subst ids1.
    destruct (IH bank1 (ids ++ [doc_id_of W (fst hit)]) Hb1)
      as [Hb2 [Hinc2 [new [Hs Hnew]]]].
    split; [assumption|]. split; [eapply incl_tran; eauto|].
    exists (doc_id_of W (fst hit) :: new). split.
    + rewrite Hs, <- app_assoc. reflexivity.
    + intros x [<-|Hx]; [now apply Hinc2 | now apply Hnew].
Qed.

Lemma collect_hits_spec W bank hits :
  bank_ok W bank ->
  bank_ok W (fst (collect_hits W bank hits))
  /\ incl (keys bank) (keys (fst (collect_hits W bank hits)))
  /\ incl (snd (collect_hits W bank hits))
          (keys (fst (collect_hits W bank hits))).
Proof.
  intro Hb. unfold collect_hits.
  destruct (collect_hits_from W hits bank [] Hb) as [H1 [H2 [new [H3 H4]]]].
  split; [assumption|]. split; [assumption|]. now rewrite H3.
Qed.

Lemma concat_snoc {A} (ls : list (list A)) (l : list A) :
  List.concat (ls ++ [l]) = List.concat ls ++ l.
Proof. rewrite concat_app. simpl. now rewrite app_nil_r. Qed.

(** One turn of the loop keeps the bank well formed and covering the
    ranked lists, and leaves at least one ranked list. *)
Lemma fan_out_step_inv W vs dir bank ranked q t bank' ranked' t' :
  bank_ok W bank ->
  incl (List.concat ranked) (keys bank) ->
  fan_out_step W vs dir (bank, ranked) q t = (Ok (bank', ranked'), t') ->
  bank_ok W bank'
  /\ incl (List.concat ranked') (keys bank')
  /\ ranked' <> [].
Proof.
  intros Hb Hc H. unfold fan_out_step in H.
  apply bind_ok in H. destruct H as [hits [t1 [_ H]]].
  destruct (collect_hits_spec W bank hits Hb) as [Hb1 [Hinc1 Hids1]].
  destruct (collect_hits W bank hits) as [bank1 dense_ids].
  cbn [fst snd] in *.
  assert (Hc1 : incl (List.concat (ranked ++ [dense_ids])) (keys bank1)).
  { rewrite concat_snoc. apply incl_app; [|assumption].
    eapply incl_tran; eauto. }
  apply bind_ok in H. destruct H as [use [t2 [_ H]]].
  destruct use.
  - unfold try_except in H.
    destruct (bind (search_bm25 W q dir BM25_TOP_K) _ t2) as [[st|e] t3] eqn:E.
    + injection H as -> ->.
      apply bind_ok in E. destruct E as [lex [t4 [_ E]]].
      destruct (collect_hits_spec W bank1 lex Hb1) as [Hb2 [Hinc2 Hids2]].
      destruct (collect_hits W bank1 lex) as [bank2 lex_ids].
      cbn [fst snd] in *. injection E as <- <- _.
      split; [assumption|]. split.
      * rewrite concat_snoc. apply incl_app; [|assumption].
        eapply incl_tran; eauto.
      * now destruct ranked.
    + injection H as <- <- _.
      split; [assumption|]. split; [assumption|]. now destruct ranked.
  - injection H as <- <- _.
    split; [assumption|]. split; [assumption|]. now destruct ranked.
Qed.

Lemma for_eachM_inv {S A} (I : S -> Prop) (body : S -> A -> M S) l :
  (forall s x t s' t', I s -> body s x t = (Ok s', t') -> I s') ->
  forall s t s' t', I s -> for_eachM body l s t = (Ok s', t') -> I s'.
Proof.
  intro Hb. induction l as [|x l IH]; intros s t s' t' Hs H; simpl in H.
  - injection H as <- _. exact Hs.
  - apply bind_ok in H. destruct H as [s1 [t1 [H1 H2]]].
    eapply IH; [|exact H2]. eapply Hb; eauto.
Qed.

Lemma fan_out_inv W vs dir queries t bank ranked t' :
  fan_out W vs dir queries t = (Ok (bank, ranked), t') ->
  bank_ok W bank /\ incl (List.concat ranked) (keys bank).
Proof.
  unfold fan_out. intro H.
  apply (for_eachM_inv
           (fun st => bank_ok W (fst st)
                      /\ incl (List.concat (snd st)) (keys (fst st)))
           (fan_out_step W vs dir) queries) with (s' := (bank, ranked)) in H.
  - exact H.
  - intros [b r] x t0 [b' r'] t0' [Hb Hc] Hstep. cbn [fst snd] in *.
    destruct (fan_out_step_inv _ _ _ _ _ _ _ _ _ _ Hb Hc Hstep) as [? [? _]].
    now split.
  - simpl. split; [split; [constructor | intros ? ? []] | apply incl_nil_l].
Qed.

(** The loop over a non-empty list of variants leaves a ranked list: the
    dense id list of every variant is appended unconditionally. *)
Lemma fan_out_nonempty W vs dir queries t bank ranked t' :
  queries <> [] ->
  fan_out W vs dir queries t = (Ok (bank, ranked), t') ->
  ranked <> [].
Proof.
  unfold fan_out. destruct queries as [|q queries]; [contradiction|].
  intros _ H. simpl in H.
  apply bind_ok in H. destruct H as [[b1 r1] [t1 [H1 H2]]].
  assert (Hr1 : r1 <> []).
  { unfold fan_out_step in H1.
    apply bind_ok in H1. destruct H1 as [hits [t2 [_ H1]]].
    destruct (collect_hits W [] hits) as [bank1 dense_ids].
    apply bind_ok in H1. destruct H1 as [use [t3 [_ H1]]].
    destruct use.
    - unfold try_except in H1.
      destruct (bind (search_bm25 W q dir BM25_TOP_K) _ t3)
        as [[st|e] t4] eqn:E.
      + injection H1 as -> _.
        apply bind_ok in E. destruct E as [lex [t5 [_ E]]].
        destruct (collect_hits W bank1 lex) as [bank2 lex_ids].
        injection E as _ <- _. discriminate.
      + injection H1 as _ <- _. discriminate.
    - injection H1 as _ <- _. discriminate. }
  apply (for_eachM_inv (fun st => snd st <> [])
           (fan_out_step W vs dir) queries) with (s' := (bank, ranked)) in H2.
  - exact H2.
  - intros [b r] x t0 [b' r'] t0' _ Hstep. cbn [snd].
    unfold fan_out_step in Hstep.
    apply bind_ok in Hstep. destruct Hstep as [hits [t2 [_ Hs]]].
    destruct (collect_hits W b hits) as [bank1 dense_ids].
    apply bind_ok in Hs. destruct Hs as [use [t3 [_ Hs]]].
    destruct use.
    + unfold try_except in Hs.
      destruct (bind (search_bm25 W x dir BM25_TOP_K) _ t3)
        as [[st|e] t4] eqn:E.
      * injection Hs as -> _.
        apply bind_ok in E. destruct E as [lex [t5 [_ E]]].
        destruct (collect_hits W bank1 lex) as [bank2 lex_ids].
        injection E as _ <- _. now destruct r.
      * injection Hs as _ <- _. now destruct r.
    + injection Hs as _ <- _. now destruct r.
  - exact Hr1.
Qed.

(** ** C8 *)

Lemma query_variants_head W query t qs t' :
  query_variants W query t = (Ok qs, t') -> hd_error qs = Some query.
Proof.
  unfold query_variants, try_except. simpl.
  destruct (_generate_rewrites_openai W query N_REWRITES USE_HYDE t)
    as [[qs0|e] t1] eqn:E.
  - intro H. injection H as <- _.
    apply (generate_rewrites_head _ _ _ _ _ _ _ E).
  - unfold ret. intro H. now injection H as <- _.
Qed.

Lemma fused_order_perm_keys (fused : dict float) :
  Permutation (keys fused) (fused_order fused).
Proof.
  unfold keys, fused_order, items. apply Permutation_map.
  apply sorted_reverse_perm.
Qed.

Lemma float_truediv_int_exn x n e :
  float_truediv_int x n = Raise e ->
  e = ZeroDivisionError \/ e = OverflowError.
Proof.
  unfold float_truediv_int, float_of_int.
  destruct (binary_normalize prec emax n 0 false); cbn [rbind];
    try (intro H; injection H as <-; now right);
    match goal with
    | |- context [PrimFloat.eqb ?d ?z] => destruct (PrimFloat.eqb d z)
    end; intro H; try discriminate; injection H as <-; now left.
Qed.

Lemma for_each_raise_inv {S A} (body : S -> A -> result S) l : forall s e,
  for_each body l s = Raise e -> exists s0 x, body s0 x = Raise e.
Proof.
  induction l as [|x l IH]; intros s e H; cbn [for_each] in H.
  - discriminate.
  - destruct (body s x) as [s1|e1] eqn:E; cbn [rbind] in H.
    + apply (IH _ _ H).
    + injection H as <-. now exists s, x.
Qed.

Lemma rrf_fuse_exn lists k e :
  _rrf_fuse lists k = Raise e ->
  e = ZeroDivisionError \/ e = OverflowError.
Proof.
  unfold _rrf_fuse. intro H.
  apply for_each_raise_inv in H. destruct H as [s0 [lst H]].
  unfold rrf_list in H. apply for_each_raise_inv in H.
  destruct H as [s1 [[r x] H]]. unfold rrf_add in H.
  destruct (float_truediv_int 1%float (k + r)) as [c|e1] eqn:E;
    cbn [rbind] in H; [discriminate|].
  injection H as <-. apply (float_truediv_int_exn _ _ _ E).
Qed.

(** Reading banked ids back into documents cannot miss, and gives
    documents whose ids are the ids read. *)
Lemma bank_lookup_all W bank ids t :
  bank_ok W bank -> incl ids (keys bank) ->
  exists docs,
    mapM (fun i => lift (dict_getitem bank i)) ids t = (Ok docs, t)
    /\ map (doc_id_of W) docs = ids.
Proof.
  intros [Hnd Hid]. induction ids as [|i ids IH]; intro Hinc; cbn [mapM].
  - now exists [].
  - assert (Hi : In i (keys bank)) by (apply Hinc; now left).
    apply dict_get_In in Hi.
    destruct (dict_get bank i) as [d|] eqn:E; [|contradiction].
    destruct IH as [docs [Hm Hids]].
    { intros x Hx. apply Hinc. now right. }
    assert (Hg : dict_getitem bank i = Ok d)
      by (unfold dict_getitem; now rewrite E).
    exists (d :: docs). unfold bind at 1. unfold lift at 1.
    rewrite Hg. unfold bind. rewrite Hm. split; [reflexivity|]. simpl.
    now rewrite (Hid _ _ (dict_get_Some_In _ _ _ E)), Hids.
Qed.

Lemma fuse_and_assemble_ok W bank ranked k t fused :
  bank_ok W bank -> incl (List.concat ranked) (keys bank) ->
  _rrf_fuse ranked RRF_K = Ok fused ->
  exists docs,
    fuse_and_assemble bank ranked k t = (Ok docs, t)
    /\ NoDup (map (doc_id_of W) docs)
    /\ (0 <= k -> Z.of_nat (List.length docs) <= k).
Proof.
  intros Hb Hc Hf.
  pose proof (keys_rrf_fuse _ _ _ Hf) as Hk.
  assert (Hnd : NoDup (fused_order fused)).
  { apply (Permutation_NoDup (fused_order_perm_keys fused)).
    rewrite Hk. apply first_seen_NoDup. }
  destruct (slice_to_firstn (Z.max k 30) (fused_order fused)) as [m Hm].
  destruct (bank_lookup_all W bank (slice_to (Z.max k 30) (fused_order fused))
              t Hb) as [docs [Hdocs Hids]].
  { intros i Hi. rewrite Hm in Hi. apply In_firstn in Hi.
    apply (Permutation_in _ (Permutation_sym (fused_order_perm_keys fused)))
      in Hi.
    rewrite Hk in Hi. apply (proj1 (first_seen_In _ _)) in Hi.
    now apply Hc. }
  exists (slice_to k docs). unfold fuse_and_assemble.
  unfold bind at 1. unfold lift at 1. rewrite Hf.
  unfold bind at 1. rewrite Hdocs. split; [reflexivity|]. split.
  - destruct (slice_to_firstn k docs) as [n ->].
    rewrite <- firstn_map, Hids, Hm. now apply NoDup_firstn, NoDup_firstn.
  - apply slice_to_length.
Qed.

(** C8. After the loop over the variants every id of every ranked list
    has an entry in the Document Bank, so the lookups of the assembly
    step succeed: fusion returns its scores (for lists shorter than
    2^53 - 60), and whenever it does the assembly returns documents and
    never raises [KeyError]. The documents [retrieve_docs]
    returns carry pairwise distinct ids, and for a requested count
    [k >= 0] there are at most [k] of them. *)
Theorem fusion_path_invariants W :
  (forall vs dir queries t bank ranked t1 k,
     fan_out W vs dir queries t = (Ok (bank, ranked), t1) ->
     covers bank ranked
     /\ ((forall lst, In lst ranked ->
                      RRF_K + Z.of_nat (List.length lst) < 2 ^ 53) ->
         exists fused, _rrf_fuse ranked RRF_K = Ok fused)
     /\ (forall fused,
           _rrf_fuse ranked RRF_K = Ok fused ->
           exists docs,
             fuse_and_assemble bank ranked k t1 = (Ok docs, t1)
             /\ NoDup (map (doc_id_of W) docs)
             /\ (0 <= k -> Z.of_nat (List.length docs) <= k))
     /\ (forall key t2,
           fuse_and_assemble bank ranked k t1 <> (Raise (KeyError key), t2)))
  /\ (forall query path dir k t docs t',
        retrieve_docs W query path dir k t = (Ok docs, t') ->
        NoDup (map (doc_id_of W) docs)
        /\ (0 <= k -> Z.of_nat (List.length docs) <= k)).
Proof.
  split.
  - intros vs dir queries t bank ranked t1 k H.
    destruct (fan_out_inv _ _ _ _ _ _ _ _ H) as [Hb Hc].
    split; [|split; [|split]].
    + intros id Hid. apply dict_contains_In. now apply Hc.
    + intro Hlen. apply (rrf_lists_total RRF_K ranked []).
      apply divisors_ok_small; [unfold RRF_K; lia | exact Hlen].
    + intros fused Hf.
      now apply (fuse_and_assemble_ok W) with (fused := fused).
    + intros key t2 Hr.
      destruct (_rrf_fuse ranked RRF_K) as [fused|e] eqn:Hf.
      * destruct (fuse_and_assemble_ok W bank ranked k t1 fused Hb Hc Hf)
          as [docs [Hd _]].
        congruence.
      * unfold fuse_and_assemble, bind, lift in Hr. rewrite Hf in Hr.
        injection Hr as -> _.
        destruct (rrf_fuse_exn _ _ _ Hf); discriminate.
  - intros query path dir k t docs t' H.
    split; [|now apply (retrieve_docs_length _ _ _ _ _ _ _ _ H)].
    unfold retrieve_docs in H.
    apply bind_ok in H. destruct H as [vs [t1 [_ H]]].
    apply bind_ok in H. destruct H as [queries [t2 [Hq H]]].
    apply bind_ok in H. destruct H as [[bank ranked] [t3 [Hfan H]]].
    destruct (fan_out_inv _ _ _ _ _ _ _ _ Hfan) as [Hb Hc].
    assert (Hne : ranked <> []).
    { apply (fan_out_nonempty _ _ _ _ _ _ _ _) with (2 := Hfan).
      apply query_variants_head in Hq. now destruct queries. }
    unfold after_fan_out in H. destruct ranked as [|lst ranked];
      [contradiction|].
    destruct (_rrf_fuse (lst :: ranked) RRF_K) as [fused|e] eqn:Hf.
    + destruct (fuse_and_assemble_ok W bank (lst :: ranked) k t3 fused
                  Hb Hc Hf) as [docs0 [Hd [Hn _]]].
      rewrite Hd in H. now injection H as <- _.
    + unfold fuse_and_assemble, bind, lift in H. rewrite Hf in H.
      discriminate.
Qed.

(** The theorem in the example world: dense hits A, B, C and lexical
    hits B, C; [retrieve_docs] asked for 2 documents returns B and C. *)
Lemma fusion_path_invariants_witness :
  exists docs t',
    retrieve_docs (world_of secret_seed0 vs_abc) "q" VECTORSTORE_DIR
      (VStr BM25_DIR) 2 [] = (Ok docs, t')
    /\ docs = [doc_b; doc_c]
    /\ NoDup (map (doc_id_of (world_of secret_seed0 vs_abc)) docs)
    /\ (0 <= 2 -> Z.of_nat (List.length docs) <= 2).
Proof.
  eexists. eexists. split; [vm_compute; reflexivity|].
  split; [reflexivity|].
  apply (proj2 (fusion_path_invariants (world_of secret_seed0 vs_abc))
           "q" VECTORSTORE_DIR (VStr BM25_DIR) 2 []
           [doc_b; doc_c]
           (snd (retrieve_docs (world_of secret_seed0 vs_abc) "q"
                   VECTORSTORE_DIR (VStr BM25_DIR) 2 []))).
  vm_compute. reflexivity.
Defined.

(** ** C5 *)

(** C5 (as amended). The id derived for a document without a usable
    ["doc_id"] is a function of its source, its content and the hash
    secret of the process: within one process, and between processes
    that share the secret, two documents with the same source and
    content get the same id, and the Document Bank keeps one entry for
    them, the first document. *)
Theorem derived_id_stable_under_one_hash_secret W1 W2 d1 d2 :
  hash_secret W1 = hash_secret W2 ->
  truthy (md_get_default (metadata_or_empty d1) "doc_id" VNone) = false ->
  truthy (md_get_default (metadata_or_empty d2) "doc_id" VNone) = false ->
  md_get_default (metadata_or_empty d1) "source" (VStr "")
  = md_get_default (metadata_or_empty d2) "source" (VStr "") ->
  page_content d1 = page_content d2 ->
  doc_id_of W1 d1 = doc_id_of W2 d2
  /\ doc_id_of W1 d1
     = VStr (py_str (md_get_default (metadata_or_empty d1) "source" (VStr ""))
             ++ "-"
             ++ str_of_int (SipHash.str_hash (hash_secret W1)
                              (page_content d1)))
  /\ forall s1 s2,
       collect_hits W1 [] [(d1, s1); (d2, s2)]
       = ([(doc_id_of W1 d1, d1)], [doc_id_of W1 d1; doc_id_of W1 d1]).
Proof.
  intros Hs H1 H2 Hsrc Hc.
  assert (E1 : doc_id_of W1 d1 = VStr (derived_id W1 d1)).
  { unfold doc_id_of, py_or. now rewrite H1. }
  assert (E2 : doc_id_of W2 d2 = VStr (derived_id W2 d2)).
  { unfold doc_id_of, py_or. now rewrite H2. }
  assert (E12 : doc_id_of W1 d2 = doc_id_of W1 d1).
  { unfold doc_id_of, py_or. rewrite H1, H2. unfold derived_id.
    now rewrite Hsrc, Hc. }
  split; [|split].
  - rewrite E1, E2. unfold derived_id. now rewrite Hs, Hsrc, Hc.
  - exact E1.
  - intros s1 s2. unfold collect_hits. cbn [fold_left collect fst].
    cbn [dict_contains dict_get dict_set app].
    rewrite E12. unfold dict_contains. cbn [dict_get].
    now rewrite pyval_eqb_refl.
Qed.

(** The theorem for two documents that differ in their metadata only. *)
Lemma derived_id_stable_under_one_hash_secret_witness :
  doc_id_of (world_of secret_seed1 vs_abc) doc_plain
  = doc_id_of (world_of secret_seed1 vs_unsorted) doc_paged.
Proof.
  apply (derived_id_stable_under_one_hash_secret
           (world_of secret_seed1 vs_abc) (world_of secret_seed1 vs_unsorted)
           doc_plain doc_paged); reflexivity.
Defined.

(** Across a restart the id changes with the hash secret: the same
    document gets one id under the secret of [PYTHONHASHSEED=0] and
    another under that of [PYTHONHASHSEED=1]. *)
Lemma derived_id_changes_with_hash_secret :
  doc_id_of (world_of secret_seed0 vs_abc) doc_plain
  = VStr "a.pdf-4644417185603328019"
  /\ doc_id_of (world_of secret_seed1 vs_abc) doc_plain
     = VStr "a.pdf--3012895188637184397"
  /\ doc_id_of (world_of secret_seed0 vs_abc) doc_plain
     <> doc_id_of (world_of secret_seed1 vs_abc) doc_plain.
Proof.
  split; [vm_compute; reflexivity|].
  split; [vm_compute; reflexivity|].
  vm_compute. discriminate.
Qed.

(** ** C9 *)

Lemma rrf_fuse_get lists k fused id :
  _rrf_fuse lists k = Ok fused ->
  In id (List.concat lists) ->
  dict_get fused id = Some (rrf_score_spec k id lists).
Proof.
  intros H Hid. unfold _rrf_fuse in H.
  rewrite (rrf_lists_get _ _ _ _ H id). cbn [dict_get].
  rewrite add_contributions_fresh.
  destruct (flat_map (ranks_of id) lists) eqn:E; [|reflexivity].
  apply ranks_nil in E. contradiction.
Qed.

Lemma forallb_perm {A} (f : A -> bool) l l' :
  Permutation l l' -> forallb f l = forallb f l'.
Proof.
  induction 1; simpl.
  - reflexivity.
  - now rewrite IHPermutation.
  - now rewrite !andb_assoc, (andb_comm (f y) (f x)).
  - congruence.
Qed.

Lemma concat_perm {A} (ls ls' : list (list A)) :
  Permutation ls ls' -> Permutation (List.concat ls) (List.concat ls').
Proof.
  induction 1; simpl.
  - apply Permutation_refl.
  - now apply Permutation_app_head.
  - rewrite !app_assoc. apply Permutation_app_tail, Permutation_app_comm.
  - eapply perm_trans; eauto.
Qed.

(** C9 (as amended). Fusing a permuted collection succeeds or raises as
    fusing the original does, scores the same ids, and gives every id
    the same terms [1 / (k + r)], added up in the order of the lists; the
    sorted ids are the same up to order. (The sums themselves and the
    order of the ids are not invariant.) *)
Theorem fusion_of_permuted_lists lists lists' k :
  Permutation lists lists' ->
  divisors_ok k lists = divisors_ok k lists'
  /\ (forall id,
        Permutation (contributions k id lists) (contributions k id lists'))
  /\ (forall fused fused',
        _rrf_fuse lists k = Ok fused ->
        _rrf_fuse lists' k = Ok fused' ->
        Permutation (keys fused) (keys fused')
        /\ Permutation (fused_order fused) (fused_order fused')
        /\ (forall id, In id (keys fused) ->
              dict_get fused id = Some (float_sum (contributions k id lists))
              /\ dict_get fused' id
                 = Some (float_sum (contributions k id lists')))).
Proof.
  intro HP. split; [|split].
  - unfold divisors_ok. now apply forallb_perm.
  - intro id. unfold contributions. apply Permutation_map.
    now apply Permutation_flat_map.
  - intros fused fused' Hf Hf'.
    pose proof (keys_rrf_fuse _ _ _ Hf) as Hk.
    pose proof (keys_rrf_fuse _ _ _ Hf') as Hk'.
    assert (Hkeys : Permutation (keys fused) (keys fused')).
    { rewrite Hk, Hk'. apply NoDup_Permutation; try apply first_seen_NoDup.
      intro x. rewrite !first_seen_In. split; apply Permutation_in.
      - now apply concat_perm.
      - apply Permutation_sym. now apply concat_perm. }
    split; [exact Hkeys|]. split.
    + eapply perm_trans; [apply Permutation_sym, fused_order_perm_keys|].
      eapply perm_trans; [exact Hkeys | apply fused_order_perm_keys].
    + intros id Hid. split.
      * apply (rrf_fuse_get _ _ _ _ Hf).
        rewrite Hk in Hid. now apply (proj1 (first_seen_In _ _)).
      * apply (rrf_fuse_get _ _ _ _ Hf').
        apply (Permutation_in _ Hkeys) in Hid.
        rewrite Hk' in Hid. now apply (proj1 (first_seen_In _ _)).
Qed.

(** The theorem for the two orders of the lists [A] and [B]. *)
Lemma fusion_of_permuted_lists_witness :
  Permutation [[id_A]; [id_B]] [[id_B]; [id_A]]
  /\ (forall id,
        Permutation (contributions 60 id [[id_A]; [id_B]])
                    (contributions 60 id [[id_B]; [id_A]])).
Proof.
  split; [apply perm_swap|].
  apply (fusion_of_permuted_lists [[id_A]; [id_B]] [[id_B]; [id_A]] 60).
  apply perm_swap.
Defined.

(** Fusion depends on the order of the lists. With the lists [A] and [B],
    whose ids tie at 1/61, the first list decides which id comes first.
    With the lists [A], [A], [X, A] the score of A is
    (1/61 + 1/61) + 1/62 in that order and (1/62 + 1/61) + 1/61 in the
    reverse order, two different floats. *)
Lemma fusion_depends_on_list_order :
  Permutation [[id_A]; [id_B]] [[id_B]; [id_A]]
  /\ (exists fused fused',
        _rrf_fuse [[id_A]; [id_B]] 60 = Ok fused
        /\ _rrf_fuse [[id_B]; [id_A]] 60 = Ok fused'
        /\ fused_order fused = [id_A; id_B]
        /\ fused_order fused' = [id_B; id_A])
  /\ Permutation [[id_A]; [id_A]; [id_X; id_A]] [[id_X; id_A]; [id_A]; [id_A]]
  /\ (exists fused fused',
        _rrf_fuse [[id_A]; [id_A]; [id_X; id_A]] 60 = Ok fused
        /\ _rrf_fuse [[id_X; id_A]; [id_A]; [id_A]] 60 = Ok fused'
        /\ dict_get fused id_A <> dict_get fused' id_A).
Proof.
  split; [apply perm_swap|]. split.
  - eexists. eexists. repeat split; vm_compute; reflexivity.
  - split.
    + apply Permutation_sym.
      apply (Permutation_rev [[id_X; id_A]; [id_A]; [id_A]]).
    + eexists. eexists.
      split; [vm_compute; reflexivity|].
      split; [vm_compute; reflexivity|].
      vm_compute. intro H. discriminate H.
Qed.

(** * Further properties of the retriever *)

(** ** The bank keeps the first document of an id *)

Lemma collect_get W bank ids hit id :
  dict_get (fst (collect W (bank, ids) hit)) id =
  match dict_get bank id with
  | Some d => Some d
  | None =>
      if pyval_eqb (doc_id_of W (fst hit)) id then Some (fst hit) else None
  end.
Proof.
  unfold collect. cbn [fst]. unfold dict_contains.
  destruct (dict_get bank (doc_id_of W (fst hit))) as [d0|] eqn:E.
  - destruct (dict_get bank id) as [d|] eqn:Eid; [reflexivity|].
    destruct (pyval_eqb (doc_id_of W (fst hit)) id) eqn:Ex; [|reflexivity].
    apply pyval_eqb_eq in Ex. congruence.
  - rewrite dict_get_set.
    destruct (pyval_eqb (doc_id_of W (fst hit)) id) eqn:Ex.
    + apply pyval_eqb_eq in Ex. subst id. now rewrite E.
    + now destruct (dict_get bank id).
Qed.

Lemma collect_hits_get W hits : forall bank ids id,
  dict_get (fst (fold_left (collect W) hits (bank, ids))) id =
  match dict_get bank id with
  | Some d => Some d
  | None => first_hit W id hits
  end.
Proof.
  unfold first_hit.
  induction hits as [|hit hits IH]; intros bank ids id; cbn [fold_left find].
  - cbn [fst option_map]. now destruct (dict_get bank id).
  - destruct (collect W (bank, ids) hit) as [bank1 ids1] eqn:E.
    rewrite IH.
    replace bank1 with (fst (collect W (bank, ids) hit)) by now rewrite E.
    rewrite collect_get.
    destruct (dict_get bank id); [reflexivity|].
    now destruct (pyval_eqb (doc_id_of W (fst hit)) id).
Qed.

Lemma fan_out_step_keeps W vs dir bank ranked q t bank' ranked' t' id d :
  fan_out_step W vs dir (bank, ranked) q t = (Ok (bank', ranked'), t') ->
  dict_get bank id = Some d -> dict_get bank' id = Some d.
Proof.
  intros H Hd. unfold fan_out_step in H.
  apply bind_ok in H. destruct H as [hits [t1 [_ H]]].
  assert (H1 : dict_get (fst (collect_hits W bank hits)) id = Some d).
  { unfold collect_hits. now rewrite collect_hits_get, Hd. }
  destruct (collect_hits W bank hits) as [bank1 dense_ids]. cbn [fst] in H1.
  apply bind_ok in H. destruct H as [use [t2 [_ H]]].
  destruct use.
  - unfold try_except in H.
    destruct (bind (search_bm25 W q dir BM25_TOP_K) _ t2) as [[st|e] t3] eqn:E.
    + injection H as -> ->.
      apply bind_ok in E. destruct E as [lex [t4 [_ E]]].
      assert (H2 : dict_get (fst (collect_hits W bank1 lex)) id = Some d).
      { unfold collect_hits. now rewrite collect_hits_get, H1. }
      destruct (collect_hits W bank1 lex) as [bank2 lex_ids].
      injection E as <- _ _. exact H2.
    + injection H as <- _ _. exact H1.
  - injection H as <- _ _. exact H1.
Qed.

(** X1. The Document Bank is first-write-wins. After a batch of hits is
    collected, an id that was banked before keeps its document, and a new
    id holds the document of the first hit of the batch that carries it;
    a turn of the retrieval loop never replaces a banked document. *)
Theorem document_bank_first_write_wins W :
  (forall bank hits id,
     dict_get (fst (collect_hits W bank hits)) id =
     match dict_get bank id with
     | Some d => Some d
     | None => first_hit W id hits
     end)
  /\ (forall vs dir bank ranked q t bank' ranked' t' id d,
        fan_out_step W vs dir (bank, ranked) q t
        = (Ok (bank', ranked'), t') ->
        dict_get bank id = Some d -> dict_get bank' id = Some d).
Proof.
  split.
  - intros bank hits id. unfold collect_hits. apply collect_hits_get.
  - intros vs dir bank ranked q t bank' ranked' t' id d.
    apply fan_out_step_keeps.
Qed.

(** The theorem for a turn of the loop that starts with B banked: the
    dense and the lexical hit for B leave the banked document in place. *)
Lemma document_bank_first_write_wins_witness :
  exists bank' ranked' t',
    fan_out_step (world_of secret_seed0 vs_abc) vs_abc (VStr BM25_DIR)
      ([(id_B, doc_a)], []) "q" [] = (Ok (bank', ranked'), t')
    /\ dict_get bank' id_B = Some doc_a.
Proof.
  eexists. eexists. eexists. split; [vm_compute; reflexivity|].
  eapply (proj2 (document_bank_first_write_wins
                   (world_of secret_seed0 vs_abc))
            vs_abc (VStr BM25_DIR) [(id_B, doc_a)] [] "q" []).
  - vm_compute. reflexivity.
  - reflexivity.
Defined.

(** ** What the assembly returns *)

Lemma slice_to_nonneg {A} (n : Z) (l : list A) :
  0 <= n -> slice_to n l = firstn (Z.to_nat n) l.
Proof.
  intro H. unfold slice_to.
  destruct (n <? 0) eqn:E; [apply Z.ltb_lt in E; lia | reflexivity].
Qed.

(** The documents read back for banked ids are the banked documents. *)
Lemma Forall2_In_r {A B} (R : A -> B -> Prop) l l' y :
  Forall2 R l l' -> In y l' -> exists x, In x l /\ R x y.
Proof.
  induction 1 as [|x y0 l l' Hxy _ IH]; intro Hin; [destruct Hin|].
  destruct Hin as [->|Hin].
  - exists x. split; [now left | assumption].
  - destruct (IH Hin) as [x' [Hx' Hr]]. exists x'. split; [now right|];
      assumption.
Qed.

Lemma bank_lookup_banked (bank : dict Document) ids t docs t' :
  mapM (fun i => lift (dict_getitem bank i)) ids t = (Ok docs, t') ->
  Forall2 (fun i d => dict_get bank i = Some d) ids docs.
Proof.
  revert docs t t'. induction ids as [|i ids IH]; intros docs t t' H;
    cbn [mapM] in H.
  - injection H as <- _. constructor.
  - apply bind_ok in H. destruct H as [d [t1 [Hd H]]].
    apply bind_ok in H. destruct H as [ds [t2 [Hds H]]].
    injection H as <- _. constructor; [|now apply (IH _ _ _ Hds)].
    unfold lift, dict_getitem in Hd.
    destruct (dict_get bank i); [|discriminate]. now injection Hd as ->.
Qed.

Lemma Forall2_firstn {A B} (R : A -> B -> Prop) n : forall l l',
  Forall2 R l l' -> Forall2 R (firstn n l) (firstn n l').
Proof.
  induction n as [|n IH]; intros l l' H; simpl; [constructor|].
  destruct H; constructor; auto.
Qed.

(** X2. On the fusion path with a requested count [k >= 0], the
    documents returned are the banked documents of the first [k] ids of
    the fused order, in that order; their number is the smaller of [k]
    and the number of distinct ids in the ranked lists. The cut at
    [max(k, 30)] ids before the lookup has no effect on the result. *)
Theorem assembly_returns_first_k_of_fused_order
    W vs dir queries t bank ranked t1 fused k :
  fan_out W vs dir queries t = (Ok (bank, ranked), t1) ->
  _rrf_fuse ranked RRF_K = Ok fused ->
  0 <= k ->
  exists docs,
    fuse_and_assemble bank ranked k t1 = (Ok docs, t1)
    /\ map (doc_id_of W) docs = firstn (Z.to_nat k) (fused_order fused)
    /\ Forall2 (fun i d => dict_get bank i = Some d)
         (firstn (Z.to_nat k) (fused_order fused)) docs
    /\ List.length docs
       = Nat.min (Z.to_nat k)
           (List.length (first_seen (List.concat ranked))).
Proof.
  intros Hfan Hf Hk.
  destruct (fan_out_inv _ _ _ _ _ _ _ _ Hfan) as [Hb Hc].
  pose proof (keys_rrf_fuse _ _ _ Hf) as Hkeys.
  assert (Hin : incl (slice_to (Z.max k 30) (fused_order fused)) (keys bank)).
  { intros i Hi.
    destruct (slice_to_firstn (Z.max k 30) (fused_order fused)) as [m Hm].
    rewrite Hm in Hi. apply In_firstn in Hi.
    apply (Permutation_in _ (Permutation_sym (fused_order_perm_keys fused)))
      in Hi.
    rewrite Hkeys in Hi. apply (proj1 (first_seen_In _ _)) in Hi.
    now apply Hc. }
  destruct (bank_lookup_all W bank _ t1 Hb Hin) as [docs [Hdocs Hids]].
  pose proof (bank_lookup_banked _ _ _ _ _ Hdocs) as Hbanked.
  exists (slice_to k docs). unfold fuse_and_assemble.
  unfold bind at 1. unfold lift at 1. rewrite Hf.
  unfold bind at 1. rewrite Hdocs.
  assert (Hcut : firstn (Z.to_nat k)
                   (slice_to (Z.max k 30) (fused_order fused))
                 = firstn (Z.to_nat k) (fused_order fused)).
  { rewrite slice_to_nonneg by lia. rewrite firstn_firstn.
    f_equal. lia. }
  split; [reflexivity|]. rewrite (slice_to_nonneg k docs Hk).
  split; [|split].
  - now rewrite <- firstn_map, Hids.
  - rewrite <- Hcut. now apply Forall2_firstn.
  - rewrite <- (length_map (doc_id_of W)), <- firstn_map, Hids, Hcut.
    rewrite length_firstn. f_equal.
    rewrite <- Hkeys.
    symmetry. apply Permutation_length, fused_order_perm_keys.
Qed.

(** The theorem in the example world, asked for 2 documents. *)
Lemma assembly_returns_first_k_of_fused_order_witness :
  exists docs,
    fuse_and_assemble
      [(id_A, doc_a); (id_B, doc_b); (id_C, doc_c)]
      [[id_A; id_B; id_C]; [id_B; id_C]] 2
      (snd (fan_out (world_of secret_seed0 vs_abc) vs_abc (VStr BM25_DIR)
              ["q"] [])) 
    = (Ok docs,
       snd (fan_out (world_of secret_seed0 vs_abc) vs_abc (VStr BM25_DIR)
              ["q"] []))
    /\ map (doc_id_of (world_of secret_seed0 vs_abc)) docs = [id_B; id_C].
Proof.
  destruct (assembly_returns_first_k_of_fused_order
              (world_of secret_seed0 vs_abc) vs_abc (VStr BM25_DIR) ["q"] []
              [(id_A, doc_a); (id_B, doc_b); (id_C, doc_c)]
              [[id_A; id_B; id_C]; [id_B; id_C]]
              (snd (fan_out (world_of secret_seed0 vs_abc) vs_abc
                      (VStr BM25_DIR) ["q"] []))
              [(id_A, PrimFloat.add 0 (recip 61));
               (id_B, PrimFloat.add (PrimFloat.add 0 (recip 62)) (recip 61));
               (id_C, PrimFloat.add (PrimFloat.add 0 (recip 63)) (recip 62))]
              2)
    as [docs [H1 [H2 _]]].
  - vm_compute. reflexivity.
  - vm_compute. reflexivity.
  - lia.
  - exists docs. split; [exact H1|]. rewrite H2. vm_compute. reflexivity.
Defined.

(** ** The number of ranked lists *)

Lemma fan_out_step_count W vs dir bank ranked q t bank' ranked' t' :
  fan_out_step W vs dir (bank, ranked) q t = (Ok (bank', ranked'), t') ->
  (List.length ranked + 1 <= List.length ranked'
   <= List.length ranked + 2)%nat
  /\ (HAS_BM25 W = false ->
      List.length ranked' = (List.length ranked + 1)%nat).
Proof.
  intro H. unfold fan_out_step in H.
  apply bind_ok in H. destruct H as [hits [t1 [_ H]]].
  destruct (collect_hits W bank hits) as [bank1 dense_ids].
  apply bind_ok in H. destruct H as [use [t2 [Huse H]]].
  destruct use.
  - assert (Hhas : HAS_BM25 W = true).
    { destruct (HAS_BM25 W); [reflexivity|]. discriminate Huse. }
    unfold try_except in H.
    destruct (bind (search_bm25 W q dir BM25_TOP_K) _ t2) as [[st|e] t3] eqn:E.
    + injection H as -> ->.
      apply bind_ok in E. destruct E as [lex [t4 [_ E]]].
      destruct (collect_hits W bank1 lex) as [bank2 lex_ids].
      injection E as _ <- _. rewrite !length_app. simpl.
      split; [lia | congruence].
    + injection H as _ <- _. rewrite length_app. simpl.
      split; [lia | congruence].
  - injection H as _ <- _. rewrite length_app. simpl.
    split; [lia | reflexivity].
Qed.

Lemma fan_out_count_from W vs dir queries :
  forall bank ranked t bank' ranked' t',
  for_eachM (fan_out_step W vs dir) queries (bank, ranked) t
  = (Ok (bank', ranked'), t') ->
  (List.length ranked + List.length queries <= List.length ranked'
   <= List.length ranked + 2 * List.length queries)%nat
  /\ (HAS_BM25 W = false ->
      List.length ranked'
      = (List.length ranked + List.length queries)%nat).
Proof.
  induction queries as [|q queries IH];
    intros bank ranked t bank' ranked' t' H; cbn [for_eachM] in H.
  - injection H as _ <- _. simpl. split; lia.
  - apply bind_ok in H. destruct H as [[b1 r1] [t1 [H1 H2]]].
    apply fan_out_step_count in H1. apply IH in H2.
    destruct H1 as [H1 H1'], H2 as [H2 H2']. simpl List.length.
    split; [lia|]. intro Hno. specialize (H1' Hno). specialize (H2' Hno). lia.
Qed.

(** X3. The loop over the query variants appends one ranked list per
    variant for the dense search and at most one more for the lexical
    search: it ends with at least as many ranked lists as variants and at
    most twice as many, and with exactly as many when the BM25 module is
    not available. *)
Theorem fan_out_ranked_list_count
    W vs dir queries t bank ranked t' :
  fan_out W vs dir queries t = (Ok (bank, ranked), t') ->
  (List.length queries <= List.length ranked <= 2 * List.length queries)%nat
  /\ (HAS_BM25 W = false -> List.length ranked = List.length queries).
Proof.
  unfold fan_out. intro H. apply fan_out_count_from in H. simpl in H.
  exact H.
Qed.

(** The theorem in the example world: one variant, two ranked lists. *)
Lemma fan_out_ranked_list_count_witness :
  exists bank ranked t',
    fan_out (world_of secret_seed0 vs_abc) vs_abc (VStr BM25_DIR) ["q"] []
    = (Ok (bank, ranked), t')
    /\ (1 <= List.length ranked <= 2)%nat.
Proof.
  eexists. eexists. eexists. split; [vm_compute; reflexivity|].
  apply (fan_out_ranked_list_count (world_of secret_seed0 vs_abc) vs_abc
           (VStr BM25_DIR) ["q"] []
           [(id_A, doc_a); (id_B, doc_b); (id_C, doc_c)]
           [[id_A; id_B; id_C]; [id_B; id_C]]
           (snd (fan_out (world_of secret_seed0 vs_abc) vs_abc
                   (VStr BM25_DIR) ["q"] []))).
  vm_compute. reflexivity.
Defined.

(** ** When the lexical backend is left alone *)

Lemma logs_bind_ok {A B} (P : event -> Prop) (m : M A) (f : A -> M B) :
  logs P m ->
  (forall a t t', m t = (Ok a, t') -> logs P (f a)) ->
  logs P (bind m f).
Proof.
  intros Hm Hf t. unfold bind. destruct (Hm t) as [c1 [E1 F1]].
  destruct (m t) as [[a|e] t1] eqn:E; simpl in E1; subst t1.
  - destruct (Hf a t (t ++ c1) E (t ++ c1)) as [c2 [E2 F2]].
    exists (c1 ++ c2). rewrite E2, app_assoc. split; [reflexivity|].
    apply Forall_app. now split.
  - now exists c1.
Qed.

Lemma fan_out_step_logs_if W vs dir st q (P : event -> Prop) :
  (forall q' k, P (EvSearchWithScore q' k)) ->
  (forall q' k, P (EvSearch q' k)) ->
  (HAS_BM25 W = true -> P (EvIsdir dir)) ->
  (HAS_BM25 W = true -> os_path_isdir W dir = Ok true ->
   forall q' n, P (EvWhoosh dir q' n)) ->
  logs P (fan_out_step W vs dir st q).
Proof.
  intros Hs1 Hs2 Hi Hw. unfold fan_out_step. destruct st as [bank ranked].
  apply logs_bind.
  { apply (logs_weaken (dense_search_of q)); [|apply dense_search_logs].
    intros [] H; simpl in *; auto; contradiction. }
  intro hits. destruct (collect_hits W bank hits) as [bank1 ids].
  apply logs_bind_ok.
  { destruct (HAS_BM25 W); [apply logs_call; now apply Hi | apply logs_ret]. }
  intros [|] t t' Huse; [|apply logs_ret].
  assert (Hhas : HAS_BM25 W = true /\ os_path_isdir W dir = Ok true).
  { destruct (HAS_BM25 W); [|discriminate Huse].
    split; [reflexivity|]. unfold call in Huse. now injection Huse as ->. }
  destruct Hhas as [Hhas Hdir].
  apply logs_try_except; [|intro; apply logs_ret].
  apply logs_bind.
  { unfold search_bm25. apply logs_bind; [apply logs_call; now apply Hw|].
    intro. apply logs_ret. }
  intro lex. destruct (collect_hits W bank1 lex). apply logs_ret.
Qed.

Lemma retrieve_docs_logs_if W query path dir k (P : event -> Prop) :
  (forall p, P (EvLoadLocal p)) ->
  P EvOpenAI ->
  (forall m msgs n, P (EvChat m msgs n)) ->
  (forall q' n, P (EvSearchWithScore q' n)) ->
  (forall q' n, P (EvSearch q' n)) ->
  (HAS_BM25 W = true -> P (EvIsdir dir)) ->
  (HAS_BM25 W = true -> os_path_isdir W dir = Ok true ->
   forall q' n, P (EvWhoosh dir q' n)) ->
  logs P (retrieve_docs W query path dir k).
Proof.
  intros Hl Ho Hc Hs1 Hs2 Hi Hw. unfold retrieve_docs.
  apply logs_bind; [apply logs_call, Hl|]. intro vs.
  apply logs_bind.
  { apply query_variants_logs. intros []; auto. }
  intro queries. apply logs_bind.
  { apply logs_for_eachM. intros s x. now apply fan_out_step_logs_if. }
  intros [bank ranked]. unfold after_fan_out.
  destruct ranked as [|lst ranked].
  - unfold dense_only_fallback.
    apply logs_bind; [|intro; apply logs_ret].
    apply (logs_weaken (dense_search_of query)); [|apply dense_search_logs].
    intros [] H; simpl in *; auto; contradiction.
  - apply (logs_weaken (fun _ => False)); [contradiction|].
    apply fuse_and_assemble_logs_nothing.
Qed.

(** X4. [retrieve_docs] leaves the lexical backend alone unless it is
    present and the directory test says yes: when the BM25 module could
    not be imported no call to [os.path.isdir] or to the Whoosh index is
    made, and when [os.path.isdir(bm25_dir)] does not answer [True] the
    Whoosh index is never searched. *)
Theorem lexical_backend_only_when_available W query path dir k :
  (HAS_BM25 W = false ->
   logs not_lexical (retrieve_docs W query path dir k))
  /\ (os_path_isdir W dir <> Ok true ->
      logs not_whoosh (retrieve_docs W query path dir k)).
Proof.
  split; intro H; apply retrieve_docs_logs_if; simpl; auto; congruence.
Qed.

(** The theorem for a directory that does not exist. *)
Lemma lexical_backend_only_when_available_witness :
  exists calls,
    snd (retrieve_docs (world_of secret_seed0 vs_abc) "q" VECTORSTORE_DIR
           (VStr "no/such/dir") FINAL_TOP_K []) = [] ++ calls
    /\ Forall not_whoosh calls.
Proof.
  apply (proj2 (lexical_backend_only_when_available
                  (world_of secret_seed0 vs_abc) "q" VECTORSTORE_DIR
                  (VStr "no/such/dir") FINAL_TOP_K)).
  vm_compute. discriminate.
Defined.

(** ** When the dense search raises *)

(** X5. [_dense_search] raises exactly when both backend methods raise,
    and then it raises the exception of [similarity_search]: the
    exception of [similarity_search_with_score] is dropped. Both calls
    have been made by then. *)
Theorem dense_search_raises_iff_both_fail vs q k t e t' :
  _dense_search vs q k t = (Raise e, t') <->
  (exists e1, similarity_search_with_score vs q k = Raise e1)
  /\ similarity_search vs q k = Raise e
  /\ t' = t ++ [EvSearchWithScore q k; EvSearch q k].
Proof.
  unfold _dense_search, try_except, call, bind, ret.
  destruct (similarity_search_with_score vs q k) as [hits|e1].
  - split; [discriminate|]. intros [[e1 H] _]. discriminate.
  - destruct (similarity_search vs q k) as [docs|e2].
    + split; [discriminate|]. intros [_ [H _]]. discriminate.
    + rewrite <- app_assoc. simpl. split.
      * intro H. injection H as <- <-. split; [now exists e1|]. now split.
      * intros [_ [H ->]]. now injection H as ->.
Qed.

(** The theorem for the rewrite the example index cannot answer. *)
Lemma dense_search_raises_iff_both_fail_witness :
  _dense_search vs_only_q "q2" DENSE_TOP_K []
  = (Raise (BackendError "dense index unavailable"),
     [EvSearchWithScore "q2" DENSE_TOP_K; EvSearch "q2" DENSE_TOP_K]).
Proof.
  apply (proj2 (dense_search_raises_iff_both_fail vs_only_q "q2" DENSE_TOP_K
                  [] (BackendError "dense index unavailable")
                  [EvSearchWithScore "q2" DENSE_TOP_K;
                   EvSearch "q2" DENSE_TOP_K])).
  split; [|split]; try reflexivity.
  now exists (BackendError "dense index unavailable").
Defined.

(** ** When retrieval succeeds *)

Lemma collect_hits_length W hits : forall bank ids,
  List.length (snd (fold_left (collect W) hits (bank, ids)))
  = (List.length ids + List.length hits)%nat.
Proof.
  induction hits as [|hit hits IH]; intros bank ids; cbn [fold_left].
  - simpl. lia.
  - unfold collect at 2. rewrite IH, length_app. simpl. lia.
Qed.

Lemma search_bm25_eq W q dir n t :
  search_bm25 W q dir n t =
  (match whoosh_search W dir q n with
   | Ok hits => Ok (map (fun r => (hit_document r, hit_score r)) hits)
   | Raise e => Raise e
   end, t ++ [EvWhoosh dir q n]).
Proof.
  unfold search_bm25, bind, call, ret.
  now destruct (whoosh_search W dir q n).
Qed.

(** A turn of the loop succeeds when its dense search does and the
    directory test does not raise; the lists it appends are as long as
    the hits. *)
Lemma fan_out_step_total W vs dir bank ranked q t :
  (forall t0, exists hits t1,
      _dense_search vs q DENSE_TOP_K t0 = (Ok hits, t1)
      /\ short_enough (List.length hits)) ->
  (HAS_BM25 W = true -> exists b, os_path_isdir W dir = Ok b) ->
  (forall hits, whoosh_search W dir q BM25_TOP_K = Ok hits ->
                short_enough (List.length hits)) ->
  Forall (fun lst => short_enough (List.length lst)) ranked ->
  exists bank' ranked' t',
    fan_out_step W vs dir (bank, ranked) q t = (Ok (bank', ranked'), t')
    /\ Forall (fun lst => short_enough (List.length lst)) ranked'.
Proof.
  intros Hd Hi Hw Hr. unfold fan_out_step.
  destruct (Hd t) as [hits [t1 [E1 Hlen]]].
  unfold bind at 1. rewrite E1.
  pose proof (collect_hits_length W hits bank []) as Hl. simpl in Hl.
  fold (collect_hits W bank hits) in Hl.
  destruct (collect_hits W bank hits) as [bank1 dense_ids]. cbn [snd] in Hl.
  assert (Hr1 : Forall (fun lst => short_enough (List.length lst))
                  (ranked ++ [dense_ids])).
  { apply Forall_app. split; [assumption|]. constructor; [|constructor].
    now rewrite Hl. }
  destruct (HAS_BM25 W) eqn:Hhas.
  - destruct (Hi eq_refl) as [b Hb]. unfold bind at 1, call at 1.
    rewrite Hb. destruct b.
    + unfold try_except, bind. rewrite search_bm25_eq.
      destruct (whoosh_search W dir q BM25_TOP_K) as [lex|e] eqn:Ew.
      * pose proof (collect_hits_length W
                      (map (fun r => (hit_document r, hit_score r)) lex)
                      bank1 []) as Hl2.
        simpl in Hl2.
        fold (collect_hits W bank1
                (map (fun r => (hit_document r, hit_score r)) lex)) in Hl2.
        destruct (collect_hits W bank1
                    (map (fun r => (hit_document r, hit_score r)) lex))
          as [bank2 lex_ids].
        cbn [snd] in Hl2. eexists. eexists. eexists.
        split; [reflexivity|].
        apply Forall_app. split; [assumption|]. constructor; [|constructor].
        rewrite Hl2, length_map. now apply Hw.
      * eexists. eexists. eexists. split; [reflexivity | assumption].
    + eexists. eexists. eexists. split; [reflexivity | assumption].
  - unfold bind, ret. eexists. eexists. eexists.
    split; [reflexivity | assumption].
Qed.

Lemma fan_out_total_from W vs dir queries :
  (forall q t0, exists hits t1,
      _dense_search vs q DENSE_TOP_K t0 = (Ok hits, t1)
      /\ short_enough (List.length hits)) ->
  (HAS_BM25 W = true -> exists b, os_path_isdir W dir = Ok b) ->
  (forall q hits, whoosh_search W dir q BM25_TOP_K = Ok hits ->
                  short_enough (List.length hits)) ->
  forall bank ranked t,
    Forall (fun lst => short_enough (List.length lst)) ranked ->
    exists bank' ranked' t',
      for_eachM (fan_out_step W vs dir) queries (bank, ranked) t
      = (Ok (bank', ranked'), t')
      /\ Forall (fun lst => short_enough (List.length lst)) ranked'.
Proof.
  intros Hd Hi Hw.
  induction queries as [|q queries IH]; intros bank ranked t Hr;
    cbn [for_eachM].
  - exists bank, ranked, t. now split.
  - destruct (fan_out_step_total W vs dir bank ranked q t (Hd q) Hi (Hw q) Hr)
      as [b1 [r1 [t1 [E1 Hr1]]]].
    unfold bind. rewrite E1. now apply IH.
Qed.

(** X6. [retrieve_docs] returns documents whenever the vector store
    loads, the dense search answers every query, the directory test (if
    the BM25 module is present) does not raise, and no backend answers
    with 2^53 - 60 hits or more. Failures of the chat model and of the
    Whoosh search never make it fail. *)
Theorem retrieve_docs_succeeds W query path dir k t vs :
  faiss_load_local W path = Ok vs ->
  (forall q t0, exists hits t1,
      _dense_search vs q DENSE_TOP_K t0 = (Ok hits, t1)
      /\ short_enough (List.length hits)) ->
  (HAS_BM25 W = true -> exists b, os_path_isdir W dir = Ok b) ->
  (forall q hits, whoosh_search W dir q BM25_TOP_K = Ok hits ->
                  short_enough (List.length hits)) ->
  exists docs t', retrieve_docs W query path dir k t = (Ok docs, t').
Proof.
  intros Hload Hd Hi Hw. unfold retrieve_docs, load_vectorstore.
  unfold bind at 1, call at 1. rewrite Hload.
  unfold bind at 1.
  destruct (query_variants W query (t ++ [EvLoadLocal path]))
    as [[queries|e] t1] eqn:Eq.
  2:{ unfold query_variants, try_except in Eq. simpl in Eq.
      destruct (_generate_rewrites_openai W query N_REWRITES USE_HYDE
                  (t ++ [EvLoadLocal path])) as [[qs|e0] t2];
        discriminate Eq. }
  destruct (fan_out_total_from W vs dir queries Hd Hi Hw [] [] t1)
    as [bank [ranked [t2 [Efan Hshort]]]]; [constructor|].
  change (for_eachM (fan_out_step W vs dir) queries ([], []) t1)
    with (fan_out W vs dir queries t1) in Efan.
  unfold bind at 1. rewrite Efan.
  destruct (fan_out_inv W vs dir queries t1 bank ranked t2 Efan) as [Hb Hc].
  assert (Hne : ranked <> []).
  { apply (fan_out_nonempty W vs dir queries t1 bank ranked t2); [|exact Efan].
    apply query_variants_head in Eq. now destruct queries. }
  unfold after_fan_out. destruct ranked as [|lst ranked]; [contradiction|].
  destruct (rrf_lists_total RRF_K (lst :: ranked) []) as [fused Hf].
  { apply divisors_ok_small; [unfold RRF_K; lia|].
    intros l Hl. rewrite Forall_forall in Hshort. apply (Hshort l Hl). }
  destruct (fuse_and_assemble_ok W bank (lst :: ranked) k t2 fused Hb Hc Hf)
    as [docs [Hd' _]].
  now exists docs, t2.
Qed.

(** The theorem in the example world, whose chat model is unavailable. *)
Lemma retrieve_docs_succeeds_witness :
  exists docs t',
    retrieve_docs (world_of secret_seed0 vs_abc) "q" VECTORSTORE_DIR
      (VStr BM25_DIR) FINAL_TOP_K [] = (Ok docs, t').
Proof.
  apply (retrieve_docs_succeeds (world_of secret_seed0 vs_abc) "q"
           VECTORSTORE_DIR (VStr BM25_DIR) FINAL_TOP_K [] vs_abc).
  - reflexivity.
  - intros q t0. eexists. eexists. split; [reflexivity|].
    unfold short_enough. simpl. reflexivity.
  - intros _. eexists. reflexivity.
  - intros q hits H. simpl in H. injection H as <-.
    unfold short_enough. simpl. reflexivity.
Defined.

(** ** The query variants *)

Lemma Forall_firstn {A} (P : A -> Prop) n (l : list A) :
  Forall P l -> Forall P (firstn n l).
Proof.
  intro H. rewrite Forall_forall in *. intros x Hx.
  apply H. now apply In_firstn in Hx.
Qed.

Lemma Forall_filter_true {A} (f : A -> bool) (l : list A) :
  Forall (fun x => f x = true) (filter f l).
Proof.
  rewrite Forall_forall. intros x Hx. now apply filter_In in Hx.
Qed.

(** X7. When [_generate_rewrites_openai] returns (for a requested number
    [n >= 0] of rewrites), the list is the original query, then at most
    [n] paraphrases, each non-empty and different from the query when
    case is ignored, then the hypothetical answer if [hyde] is set; the
    hypothetical answer is not filtered. One chat call was made for the
    paraphrases and one more for the hypothetical answer. With the knobs
    of the module, [retrieve_docs] searches between 1 and 5 variants. *)
Theorem generate_rewrites_shape W :
  (forall query n hyde t qs t',
     _generate_rewrites_openai W query n hyde t = (Ok qs, t') ->
     0 <= n ->
     exists paraphrases tail,
       qs = query :: paraphrases ++ tail
       /\ Z.of_nat (List.length paraphrases) <= n
       /\ Forall (fun r => r <> "" /\ str_lower W r <> str_lower W query)
            paraphrases
       /\ List.length tail = (if hyde then 1 else 0)%nat
       /\ t' = t ++ [EvOpenAI;
                     EvChat "gpt-4o-mini" (paraphrase_messages query n) 150]
                 ++ (if hyde
                     then [EvChat "gpt-4o-mini" (hyde_messages query) 120]
                     else []))
  /\ (forall query t qs t',
        query_variants W query t = (Ok qs, t') ->
        (1 <= List.length qs <= 5)%nat).
Proof.
  assert (G : forall query n hyde t qs t',
     _generate_rewrites_openai W query n hyde t = (Ok qs, t') ->
     0 <= n ->
     exists paraphrases tail,
       qs = query :: paraphrases ++ tail
       /\ Z.of_nat (List.length paraphrases) <= n
       /\ Forall (fun r => r <> "" /\ str_lower W r <> str_lower W query)
            paraphrases
       /\ List.length tail = (if hyde then 1 else 0)%nat
       /\ t' = t ++ [EvOpenAI;
                     EvChat "gpt-4o-mini" (paraphrase_messages query n) 150]
                 ++ (if hyde
                     then [EvChat "gpt-4o-mini" (hyde_messages query) 120]
                     else [])).
  { intros query n hyde t qs t' H Hn.
    unfold _generate_rewrites_openai, bind, call, content_text, ret, lift in H.
    destruct (openai_client W); [|discriminate].
    destruct (chat_completions_create W "gpt-4o-mini"
                (paraphrase_messages query n) 150) as [[s|]|];
      try discriminate.
    match type of H with
    | context [slice_to n ?l] => set (rewrites := slice_to n l) in H
    end.
    assert (Hlen : Z.of_nat (List.length rewrites) <= n)
      by (apply slice_to_length, Hn).
    assert (Hall : Forall (fun r => r <> "" /\
                                    str_lower W r <> str_lower W query)
                     rewrites).
    { subst rewrites. rewrite (slice_to_nonneg n _ Hn).
      apply Forall_firstn.
      eapply Forall_impl; [|apply Forall_filter_true].
      intros r Hr. cbv beta in Hr. apply andb_prop in Hr.
      destruct Hr as [H1 H2]. unfold nonempty in H1.
      apply negb_true_iff in H1, H2.
      apply String.eqb_neq in H1, H2. now split. }
    destruct hyde.
    - destruct (chat_completions_create W "gpt-4o-mini"
                  (hyde_messages query) 120) as [[s'|]|];
        try discriminate.
      injection H as <- <-. exists rewrites, [str_strip W s'].
      repeat split; try assumption. now rewrite <- !app_assoc.
    - injection H as <- <-. exists rewrites, [].
      repeat split; try assumption.
      + now rewrite app_nil_r.
      + now rewrite <- !app_assoc. }
  split; [exact G|].
  intros query t qs t' H.
  unfold query_variants, try_except in H. simpl in H.
  destruct (_generate_rewrites_openai W query N_REWRITES USE_HYDE t)
    as [[qs0|e] t1] eqn:E.
  - injection H as <- _.
    destruct (G _ _ _ _ _ _ E) as [ps [tail [-> [Hl [_ [Ht _]]]]]];
      [unfold N_REWRITES; lia|].
    unfold N_REWRITES in Hl. simpl. rewrite length_app, Ht. simpl. lia.
  - unfold ret in H. injection H as <- _. simpl. lia.
Qed.

(** The theorem in the world whose chat model answers ["q2"]. *)
Lemma generate_rewrites_shape_witness :
  exists qs t',
    query_variants (with_chat (world_of secret_seed0 vs_abc)) "q" []
    = (Ok qs, t')
    /\ qs = ["q"; "q2"; "q2"]
    /\ (1 <= List.length qs <= 5)%nat.
Proof.
  eexists. eexists. split; [vm_compute; reflexivity|]. split; [reflexivity|].
  apply (proj2 (generate_rewrites_shape
                  (with_chat (world_of secret_seed0 vs_abc)))
           "q" [] ["q"; "q2"; "q2"]
           (snd (query_variants (with_chat (world_of secret_seed0 vs_abc))
                   "q" []))).
  vm_compute. reflexivity.
Defined.

(** ** Where the returned documents come from *)

Lemma dense_search_hits vs q k t hits t' :
  _dense_search vs q k t = (Ok hits, t') ->
  similarity_search_with_score vs q k = Ok hits
  \/ exists docs,
       similarity_search vs q k = Ok docs
       /\ hits = map (fun d => (d, 0%float)) docs.
Proof.
  unfold _dense_search, try_except, call, bind, ret.
  destruct (similarity_search_with_score vs q k) as [h|e].
  - intro H. injection H as <- _. now left.
  - destruct (similarity_search vs q k) as [docs|e']; [|discriminate].
    intro H. injection H as <- _. right. now exists docs.
Qed.

Lemma collect_hits_docs W (P : Document -> Prop) hits : forall bank ids,
  Forall P (map snd bank) ->
  Forall (fun h => P (fst h)) hits ->
  Forall P (map snd (fst (fold_left (collect W) hits (bank, ids)))).
Proof.
  induction hits as [|hit hits IH]; intros bank ids Hb Hh; cbn [fold_left].
  - exact Hb.
  - inversion Hh as [|? ? Hhit Hrest]; subst.
    unfold collect at 2.
    destruct (dict_contains bank (doc_id_of W (fst hit))) eqn:E.
    + now apply IH.
    + apply IH; [|assumption].
      rewrite (dict_set_new _ _ _ E), map_app. apply Forall_app.
      split; [assumption|]. simpl. now constructor.
Qed.

Lemma collect_hits_banked_docs W (P : Document -> Prop) bank hits :
  Forall P (map snd bank) ->
  Forall (fun h => P (fst h)) hits ->
  Forall P (map snd (fst (collect_hits W bank hits))).
Proof. unfold collect_hits. apply collect_hits_docs. Qed.

Lemma fan_out_step_docs W vs dir (P : Document -> Prop)
    bank ranked q t bank' ranked' t' :
  (forall q n hits, similarity_search_with_score vs q n = Ok hits ->
                    Forall (fun h => P (fst h)) hits) ->
  (forall q n ds, similarity_search vs q n = Ok ds -> Forall P ds) ->
  (forall q n hits, whoosh_search W dir q n = Ok hits ->
                    Forall (fun r => P (hit_document r)) hits) ->
  Forall P (map snd bank) ->
  fan_out_step W vs dir (bank, ranked) q t = (Ok (bank', ranked'), t') ->
  Forall P (map snd bank').
Proof.
  intros H1 H2 H3 Hb H. unfold fan_out_step in H.
  apply bind_ok in H. destruct H as [hits [t1 [Hd H]]].
  assert (Hhits : Forall (fun h => P (fst h)) hits).
  { apply dense_search_hits in Hd. destruct Hd as [Hd|[docs [Hd ->]]].
    - now apply (H1 _ _ _ Hd).
    - apply H2 in Hd. rewrite Forall_map. exact Hd. }
  pose proof (collect_hits_banked_docs W P bank hits Hb Hhits) as Hb1.
  destruct (collect_hits W bank hits) as [bank1 dense_ids]. cbn [fst] in Hb1.
  apply bind_ok in H. destruct H as [use [t2 [_ H]]].
  destruct use.
  - unfold try_except in H. unfold bind in H at 1.
    rewrite search_bm25_eq in H.
    destruct (whoosh_search W dir q BM25_TOP_K) as [lex|e] eqn:Ew.
    + pose proof (collect_hits_banked_docs W P bank1
                    (map (fun r => (hit_document r, hit_score r)) lex)
                    Hb1) as Hb2.
      destruct (collect_hits W bank1
                  (map (fun r => (hit_document r, hit_score r)) lex))
        as [bank2 lex_ids].
      unfold ret in H. injection H as <- _ _. apply Hb2.
      rewrite Forall_map. simpl. now apply (H3 _ _ _ Ew).
    + unfold ret in H. injection H as <- _ _. exact Hb1.
  - injection H as <- _ _. exact Hb1.
Qed.

Lemma fan_out_docs W vs dir (P : Document -> Prop) queries t bank ranked t' :
  (forall q n hits, similarity_search_with_score vs q n = Ok hits ->
                    Forall (fun h => P (fst h)) hits) ->
  (forall q n ds, similarity_search vs q n = Ok ds -> Forall P ds) ->
  (forall q n hits, whoosh_search W dir q n = Ok hits ->
                    Forall (fun r => P (hit_document r)) hits) ->
  fan_out W vs dir queries t = (Ok (bank, ranked), t') ->
  Forall P (map snd bank).
Proof.
  intros H1 H2 H3 Hfan. unfold fan_out in Hfan.
  apply (for_eachM_inv (fun st => Forall P (map snd (fst st)))
           (fan_out_step W vs dir) queries)
    with (s' := (bank, ranked)) in Hfan.
  - exact Hfan.
  - intros [b r] x t0 [b' r'] t0' Hs Hstep. cbn [fst] in *.
    now apply (fan_out_step_docs W vs dir P b r x t0 b' r' t0').
  - constructor.
Qed.

Lemma after_fan_out_docs vs query k (P : Document -> Prop)
    bank ranked t docs t' :
  (forall q n hits, similarity_search_with_score vs q n = Ok hits ->
                    Forall (fun h => P (fst h)) hits) ->
  (forall q n ds, similarity_search vs q n = Ok ds -> Forall P ds) ->
  Forall P (map snd bank) ->
  after_fan_out vs query k bank ranked t = (Ok docs, t') ->
  Forall P docs.
Proof.
  intros H1 H2 Hb H.
  unfold after_fan_out in H. destruct ranked as [|lst ranked].
  - unfold dense_only_fallback in H.
    apply bind_ok in H. destruct H as [hits [t3 [Hd H]]].
    injection H as <- _.
    assert (Hhits : Forall (fun h => P (fst h)) hits).
    { apply dense_search_hits in Hd. destruct Hd as [Hd|[ds [Hd ->]]].
      - now apply (H1 _ _ _ Hd).
      - apply H2 in Hd. rewrite Forall_map. exact Hd. }
    rewrite Forall_map. destruct (slice_to_firstn k hits) as [m ->].
    now apply Forall_firstn.
  - unfold fuse_and_assemble in H.
    apply bind_ok in H. destruct H as [fused [t3 [_ H]]].
    apply bind_ok in H. destruct H as [all [t4 [Hall H]]].
    injection H as <- _.
    destruct (slice_to_firstn k all) as [m ->]. apply Forall_firstn.
    apply bank_lookup_banked in Hall.
    rewrite Forall_forall in Hb. rewrite Forall_forall. intros d Hd.
    destruct (Forall2_In_r _ _ _ _ Hall Hd) as [i [_ Hi]].
    apply Hb. apply in_map_iff. exists (i, d). split; [reflexivity|].
    now apply dict_get_Some_In.
Qed.

(** X8. Every document [retrieve_docs] returns is a document a backend
    answered with: any property that holds of all documents of the
    vector store's answers and of all documents [search_bm25] builds from
    Whoosh results holds of every returned document. *)
Theorem retrieve_docs_returns_backend_documents
    W query path dir k t vs docs t' (P : Document -> Prop) :
  faiss_load_local W path = Ok vs ->
  (forall q n hits, similarity_search_with_score vs q n = Ok hits ->
                    Forall (fun h => P (fst h)) hits) ->
  (forall q n ds, similarity_search vs q n = Ok ds -> Forall P ds) ->
  (forall q n hits, whoosh_search W dir q n = Ok hits ->
                    Forall (fun r => P (hit_document r)) hits) ->
  retrieve_docs W query path dir k t = (Ok docs, t') ->
  Forall P docs.
Proof.
  intros Hload H1 H2 H3 H. unfold retrieve_docs, load_vectorstore in H.
  unfold bind at 1, call at 1 in H. rewrite Hload in H.
  apply bind_ok in H. destruct H as [queries [t1 [_ H]]].
  apply bind_ok in H. destruct H as [[bank ranked] [t2 [Hfan H]]].
  apply (after_fan_out_docs vs query k P bank ranked t2 docs t' H1 H2);
    [|exact H].
  apply (fan_out_docs W vs dir P queries t1 bank ranked t2 H1 H2 H3 Hfan).
Qed.

(** The theorem in the example world: every returned document carries
    metadata. *)
Lemma retrieve_docs_returns_backend_documents_witness :
  Forall (fun d => metadata d <> None) [doc_b; doc_c].
Proof.
  apply (retrieve_docs_returns_backend_documents
           (world_of secret_seed0 vs_abc) "q" VECTORSTORE_DIR
           (VStr BM25_DIR) 2 [] vs_abc [doc_b; doc_c]
           (snd (retrieve_docs (world_of secret_seed0 vs_abc) "q"
                   VECTORSTORE_DIR (VStr BM25_DIR) 2 []))
           (fun d => metadata d <> None)).
  - reflexivity.
  - intros q n hits H. injection H as <-.
    repeat constructor; discriminate.
  - intros q n ds H. injection H as <-. repeat constructor; discriminate.
  - intros q n hits H. injection H as <-. repeat constructor; discriminate.
  - vm_compute. reflexivity.
Defined.

(** ** Fusing one more list *)

Lemma for_each_snoc {S A} (body : S -> A -> result S) l x s :
  for_each body (l ++ [x]) s =
  rbind (for_each body l s) (fun s' => body s' x).
Proof.
  revert s. induction l as [|y l IH]; intro s; cbn [app for_each].
  - cbn [rbind]. now destruct (body s x).
  - destruct (body s y); cbn [rbind]; [apply IH | reflexivity].
Qed.

Lemma ranks_from_NoDup id lst : forall r0 r,
  NoDup lst -> nth_error lst r = Some id ->
  ranks_from r0 id lst = [r0 + Z.of_nat r].
Proof.
  induction lst as [|x lst IH]; intros r0 r Hnd Hr.
  - now destruct r.
  - inversion Hnd as [|? ? Hx Hnd']; subst. cbn [ranks_from].
    destruct r as [|r]; simpl in Hr.
    + injection Hr as ->. rewrite pyval_eqb_refl.
      replace (ranks_from (r0 + 1) id lst) with (@nil Z).
      * simpl. f_equal. lia.
      * symmetry. now apply ranks_from_nil.
    + assert (Hin : In id lst) by (eapply nth_error_In; eauto).
      assert (Hne : pyval_eqb x id = false).
      { apply pyval_eqb_neq. intros ->. contradiction. }
      rewrite Hne, (IH (r0 + 1) r Hnd' Hr). simpl. f_equal. lia.
Qed.

(** X9. Fusing one more ranked list only adds to what was fused before:
    an id that is not in the new list keeps its score, an id at 0-based
    position [r] of a duplicate-free new list gets its previous score
    (or [0.0]) plus [1 / (k + r + 1)], and the ids scored so far keep
    their places in the dictionary, the new ids being appended. *)
Theorem rrf_fuse_one_more_list lists lst k s s' :
  _rrf_fuse lists k = Ok s ->
  _rrf_fuse (lists ++ [lst]) k = Ok s' ->
  (forall id, ~ In id lst -> dict_get s' id = dict_get s id)
  /\ (forall id r,
        NoDup lst -> nth_error lst r = Some id ->
        dict_get s' id =
        Some (PrimFloat.add (score_of s id) (recip (k + Z.of_nat r + 1))))
  /\ (exists new,
        keys s' = keys s ++ new
        /\ forall id, In id new <-> In id lst /\ ~ In id (keys s)).
Proof.
  intros Hs Hs'. unfold _rrf_fuse in *.
  rewrite for_each_snoc, Hs in Hs'. cbn [rbind] in Hs'.
  unfold rrf_list in Hs'.
  pose proof (rrf_list_from_get _ _ _ _ _ Hs') as Hget.
  split; [|split].
  - intros id Hid. rewrite Hget.
    apply (ranks_from_nil id lst 1) in Hid. now rewrite Hid.
  - intros id r Hnd Hr. rewrite Hget, (ranks_from_NoDup id lst 1 r Hnd Hr).
    unfold add_contributions, score_of, dict_get_default. cbn [fold_left].
    do 3 f_equal. lia.
  - rewrite (keys_rrf_list_from _ _ _ _ _ Hs'), fold_add_new_first_seen.
    eexists. split; [reflexivity|]. intro id.
    rewrite filter_In, first_seen_In, negb_true_iff.
    split; intros [H1 H2]; (split; [assumption|]).
    + intro Hin. apply existsb_pyval_In in Hin. congruence.
    + destruct (existsb (pyval_eqb id) (keys s)) eqn:E; [|reflexivity].
      apply existsb_pyval_In in E. contradiction.
Qed.

(** The theorem for the second list of the scenario. *)
Lemma rrf_fuse_one_more_list_witness :
  exists s s',
    _rrf_fuse [[id_A; id_B; id_C]] 60 = Ok s
    /\ _rrf_fuse ([[id_A; id_B; id_C]] ++ [[id_B; id_C; id_A]]) 60 = Ok s'
    /\ dict_get s' id_B
       = Some (PrimFloat.add (score_of s id_B) (recip (60 + 0 + 1))).
Proof.
  eexists. eexists. split; [vm_compute; reflexivity|].
  split; [vm_compute; reflexivity|].
  eapply (proj1 (proj2 (rrf_fuse_one_more_list
                          [[id_A; id_B; id_C]] [id_B; id_C; id_A] 60 _ _ _ _))
            id_B 0%nat).
  - repeat constructor; simpl; intuition discriminate.
  - reflexivity.
  Unshelve.
  + vm_compute. reflexivity.
  + vm_compute. reflexivity.
Defined.

(** * Properties of answer generation *)

Lemma metadata_source_ok d :
  has_source d = true <-> exists v, metadata_source d = Ok v.
Proof.
  unfold has_source, metadata_source.
  destruct (metadata d) as [md|].
  - destruct (md_get md "source") as [v|].
    + split; [now exists v | reflexivity].
    + split; [discriminate | intros [v H]; discriminate].
  - split; [discriminate | intros [v H]; discriminate].
Qed.

Lemma metadata_source_exn d e :
  metadata_source d = Raise e ->
  e = TypeError \/ e = KeyError (VStr "source").
Proof.
  unfold metadata_source. destruct (metadata d) as [md|].
  - destruct (md_get md "source"); [discriminate|].
    intro H. injection H as <-. now right.
  - intro H. injection H as <-. now left.
Qed.

Lemma context_parts_ok docs :
  Forall (fun d => has_source d = true) docs <->
  exists parts, context_parts docs = Ok parts.
Proof.
  induction docs as [|d docs IH]; cbn [context_parts].
  - split; [now exists [] | constructor].
  - split.
    + intro H. inversion H as [|? ? Hd Hrest]; subst.
      apply metadata_source_ok in Hd. destruct Hd as [v ->].
      apply IH in Hrest. destruct Hrest as [parts ->].
      cbn [rbind]. eexists. reflexivity.
    + intros [parts H].
      destruct (metadata_source d) as [v|e] eqn:Ed; cbn [rbind] in H;
        [|discriminate].
      destruct (context_parts docs) as [ps|e] eqn:Ec; cbn [rbind] in H;
        [|discriminate].
      constructor.
      * apply metadata_source_ok. now exists v.
      * apply IH. now exists ps.
Qed.

Lemma context_parts_exn docs e :
  context_parts docs = Raise e ->
  e = TypeError \/ e = KeyError (VStr "source").
Proof.
  induction docs as [|d docs IH]; cbn [context_parts]; [discriminate|].
  destruct (metadata_source d) as [v|e0] eqn:Ed; cbn [rbind].
  - destruct (context_parts docs) as [ps|e1]; cbn [rbind]; [discriminate|].
    intro H. injection H as <-. now apply IH.
  - intro H. injection H as <-. now apply (metadata_source_exn d).
Qed.

(** X10. [build_prompt] returns a prompt exactly when every retrieved
    document has metadata with a ["source"] entry. Otherwise it raises:
    [TypeError] for a document whose metadata is [None], [KeyError] for
    one without the entry. *)
Theorem build_prompt_needs_sources query docs :
  ((exists prompt, build_prompt query docs = Ok prompt) <->
   Forall (fun d => has_source d = true) docs)
  /\ (forall e, build_prompt query docs = Raise e ->
                e = TypeError \/ e = KeyError (VStr "source"))
  /\ (forall d rest,
        docs = d :: rest -> metadata d = None ->
        build_prompt query docs = Raise TypeError)
  /\ (forall d md rest,
        docs = d :: rest -> metadata d = Some md ->
        md_get md "source" = None ->
        build_prompt query docs = Raise (KeyError (VStr "source"))).
Proof.
  unfold build_prompt. split; [|split; [|split]].
  - rewrite context_parts_ok. split.
    + intros [prompt H].
      destruct (context_parts docs) as [parts|e]; [|discriminate].
      now exists parts.
    + intros [parts ->]. cbn [rbind]. eexists. reflexivity.
  - intros e H.
    destruct (context_parts docs) as [parts|e0] eqn:E; cbn [rbind] in H;
      [discriminate|].
    injection H as <-. now apply (context_parts_exn docs).
  - intros d rest -> Hm. cbn [context_parts]. unfold metadata_source.
    now rewrite Hm.
  - intros d md rest -> Hm Hs. cbn [context_parts]. unfold metadata_source.
    now rewrite Hm, Hs.
Qed.

(** The theorem for a document without metadata. *)
Lemma build_prompt_needs_sources_witness :
  build_prompt "q" [ {| page_content := "text"; metadata := None |} ]
  = Raise TypeError.
Proof.
  apply (proj1 (proj2 (proj2 (build_prompt_needs_sources "q"
           [ {| page_content := "text"; metadata := None |} ])))
           {| page_content := "text"; metadata := None |} []);
    reflexivity.
Defined.

Lemma hit_document_has_source r : has_source (hit_document r) = true.
Proof. reflexivity. Qed.

(** X11. When the documents of the vector store all carry a ["source"]
    and the retrieval of [generate_answer] returns at least one document,
    the prompt is built and [generate_answer] makes exactly one more
    call, to the answering model with that prompt and [max_tokens=500];
    its result, answer or exception, is the result of that call.
    Documents that come from the BM25 index always carry a source. *)
Theorem generate_answer_asks_model_once
    W query path k model t vs docs t' :
  faiss_load_local W path = Ok vs ->
  (forall q n hits, similarity_search_with_score vs q n = Ok hits ->
                    Forall (fun h => has_source (fst h) = true) hits) ->
  (forall q n ds, similarity_search vs q n = Ok ds ->
                  Forall (fun d => has_source d = true) ds) ->
  generate_answer_retrieval W query path k t = (Ok docs, t') ->
  docs <> [] ->
  exists prompt,
    build_prompt query docs = Ok prompt
    /\ generate_answer W query path k model t
       = (chat_completions_create W model (answer_messages prompt) 500,
          t' ++ [EvChat model (answer_messages prompt) 500]).
Proof.
  intros Hload H1 H2 Hr Hne.
  assert (Hsrc : Forall (fun d => has_source d = true) docs).
  { pose proof Hr as H.
    unfold generate_answer_retrieval, retrieve_docs, load_vectorstore in H.
    unfold bind at 1, call at 1 in H. rewrite Hload in H.
    apply bind_ok in H. destruct H as [queries [t1 [_ H]]].
    apply bind_ok in H. destruct H as [[bank ranked] [t2 [Hfan H]]].
    apply (after_fan_out_docs vs query FINAL_TOP_K _ bank ranked t2 docs t'
             H1 H2); [|exact H].
    apply (fan_out_docs W vs (VInt k) _ queries t1 bank ranked t2 H1 H2);
      [|exact Hfan].
    intros q n hits _. rewrite Forall_forall. intros r _.
    apply hit_document_has_source. }
  apply context_parts_ok in Hsrc. destruct Hsrc as [parts Hparts].
  assert (Hp : exists prompt, build_prompt query docs = Ok prompt).
  { unfold build_prompt. rewrite Hparts. cbn [rbind]. eexists. reflexivity. }
  destruct Hp as [prompt Hp]. exists prompt. split; [exact Hp|].
  unfold generate_answer. unfold bind at 1. rewrite Hr.
  destruct docs as [|d docs]; [contradiction|].
  unfold bind, lift, call. rewrite Hp. reflexivity.
Qed.

(** The theorem in the example world with a chat model. *)
Lemma generate_answer_asks_model_once_witness :
  exists prompt,
    build_prompt "q" [doc_a; doc_b; doc_c] = Ok prompt
    /\ fst (generate_answer (with_chat (world_of secret_seed0 vs_abc)) "q"
              VECTORSTORE_DIR 2 "gpt-3.5-turbo" [])
       = Ok (Some "q2").
Proof.
  destruct (generate_answer_asks_model_once
              (with_chat (world_of secret_seed0 vs_abc)) "q"
              VECTORSTORE_DIR 2 "gpt-3.5-turbo" [] vs_abc
              [doc_a; doc_b; doc_c]
              (snd (generate_answer_retrieval
                      (with_chat (world_of secret_seed0 vs_abc)) "q"
                      VECTORSTORE_DIR 2 [])))
    as [prompt [Hp Hg]].
  - reflexivity.
  - intros q n hits H. injection H as <-. repeat constructor.
  - intros q n ds H. injection H as <-. repeat constructor.
  - vm_compute. reflexivity.
  - discriminate.
  - exists prompt. split; [exact Hp|]. now rewrite Hg.
Defined.

(** * Properties of the request handler *)

(** X12. A request to [/ask] runs [generate_answer] with its defaults, so
    the value 5 stands in the place of the BM25 directory: every
    directory test and every Whoosh search of the request is made on the
    integer 5, never on [BM25_DIR]. The run starts by loading the vector
    store at [VECTORSTORE_DIR], and a reply repeats the question. *)
Theorem ask_question_never_reads_bm25_dir W question t :
  (exists calls,
     snd (ask_question W question t) = t ++ EvLoadLocal VECTORSTORE_DIR :: calls
     /\ Forall (lexical_dir_is (VInt 5)) calls
     /\ ~ In (EvIsdir (VStr BM25_DIR)) calls
     /\ forall q n, ~ In (EvWhoosh (VStr BM25_DIR) q n) calls)
  /\ (forall reply t',
        ask_question W question t = (Ok reply, t') -> fst reply = question).
Proof.
  split.
  - assert (G : exists calls,
               snd (ask_question W question t)
               = t ++ EvLoadLocal VECTORSTORE_DIR :: calls
               /\ Forall (lexical_dir_is (VInt 5)) calls).
    { unfold ask_question, generate_answer, generate_answer_retrieval,
        retrieve_docs, load_vectorstore.
      unfold bind at 1 2 3, call at 1.
      destruct (faiss_load_local W VECTORSTORE_DIR) as [vs|e].
      - match goal with
        | |- context [bind ?m ?f (t ++ [EvLoadLocal VECTORSTORE_DIR])] =>
            assert (L : logs (lexical_dir_is (VInt 5)) (bind m f))
        end.
        { apply logs_bind; [apply query_variants_logs; now intros []|].
          intro queries. apply logs_bind.
          { apply logs_for_eachM. intros s x. apply fan_out_step_logs. }
          intros [bank ranked]. unfold after_fan_out.
          destruct ranked as [|lst ranked].
          - unfold dense_only_fallback.
            apply logs_bind; [|intro; apply logs_ret].
            apply (logs_weaken (dense_search_of question));
              [|apply dense_search_logs].
            intros [] H; simpl in *; auto; contradiction.
          - apply (logs_weaken (fun _ => False)); [contradiction|].
            apply fuse_and_assemble_logs_nothing. }
        destruct (L (t ++ [EvLoadLocal VECTORSTORE_DIR])) as [c1 [E1 F1]].
        match goal with
        | |- context [bind ?m ?f (t ++ [EvLoadLocal VECTORSTORE_DIR])] =>
            destruct (bind m f (t ++ [EvLoadLocal VECTORSTORE_DIR]))
              as [[docs|e] t1]
        end; cbn [snd] in E1; subst t1.
        + destruct docs as [|d docs].
          * exists c1. cbn [snd ret]. rewrite <- app_assoc. now split.
          * unfold bind, lift, call, ret.
            destruct (build_prompt question (d :: docs)) as [prompt|e].
            -- eexists (c1 ++ [_]).
               destruct (chat_completions_create W "gpt-3.5-turbo" _ 500);
                 cbn [snd]; rewrite <- !app_assoc;
                 (split; [reflexivity|]);
                 apply Forall_app; (split; [assumption|]);
                 now repeat constructor.
            -- exists c1. cbn [snd]. rewrite <- app_assoc. now split.
        + exists c1. cbn [snd]. rewrite <- app_assoc. now split.
      - exists []. cbn [snd]. now split. }
    destruct G as [calls [E F]]. exists calls.
    split; [exact E|]. split; [exact F|].
    rewrite Forall_forall in F. split.
    + intro Hin. apply F in Hin. discriminate Hin.
    + intros q n Hin. apply F in Hin. discriminate Hin.
  - intros reply t' H. unfold ask_question in H.
    apply bind_ok in H. destruct H as [answer [t1 [_ H]]].
    now injection H as <- _.
Qed.

(** The theorem for a request in the example world. *)
Lemma ask_question_never_reads_bm25_dir_witness :
  exists calls,
    snd (ask_question (world_of secret_seed0 vs_abc) "q" [])
    = [] ++ EvLoadLocal VECTORSTORE_DIR :: calls
    /\ ~ In (EvIsdir (VStr BM25_DIR)) calls.
Proof.
  destruct (proj1 (ask_question_never_reads_bm25_dir
                     (world_of secret_seed0 vs_abc) "q" []))
    as [calls [E [_ [H _]]]].
  exists calls. split; assumption.
Defined.

(** * Properties of the index builder *)

Lemma index_entry_ok I d e :
  index_entry I d = Ok e ->
  entry_doc_id e = md_get_default (metadata_or_empty d) "doc_id" (VStr "")
  /\ entry_source e
     = md_get_default (metadata_or_empty d) "source" (VStr "")
  /\ py_int I (md_get_default (metadata_or_empty d) "page" (VInt 0))
     = Ok (entry_page e)
  /\ entry_content e = page_content d.
Proof.
  unfold index_entry.
  destruct (py_int I _) as [page|ex]; cbn [rbind]; [|discriminate].
  intro H. injection H as <-. now repeat split.
Qed.

Lemma hit_keeps_id W I d e r :
  index_entry I d = Ok e ->
  stores e r ->
  doc_id_of W (hit_document r) = doc_id_of W d
  /\ page_content (hit_document r) = page_content d
  /\ md_get (metadata_or_empty (hit_document r)) "source"
     = Some (md_get_default (metadata_or_empty d) "source" (VStr ""))
  /\ md_get (metadata_or_empty (hit_document r)) "page"
     = Some (VInt (entry_page e)).
Proof.
  intros He [Hid [Hsrc [Hpage Hc]]].
  apply index_entry_ok in He. destruct He as [Eid [Esrc [_ Ec]]].
  rewrite Hid in Eid. rewrite Hsrc in Esrc. rewrite Hc in Ec.
  split; [|split; [|split]].
  - unfold doc_id_of, derived_id.
    cbn [hit_document metadata_or_empty metadata page_content].
    rewrite <- Esrc, <- Ec.
    unfold md_get_default in *. cbn [md_get String.eqb Ascii.eqb Bool.eqb].
    destruct (md_get (metadata_or_empty d) "doc_id") as [v|].
    + now subst v.
    + injection Eid as E0. rewrite E0. reflexivity.
  - cbn. now symmetry.
  - cbn. now rewrite Esrc.
  - cbn. now rewrite Hpage.
Qed.

(** X13. A document written to the BM25 index and found again by
    [search_bm25] gets, in the retriever, the id of the document it was
    built from, whether that id is its ["doc_id"] or the one derived from
    source and content; text, source and page are those written. The
    search returns one pair per result of the index, with its score. The
    stored fields are assumed to come back as they were written. *)
Theorem bm25_hit_keeps_retriever_id W I d e q dir n hits r t :
  index_entry I d = Ok e ->
  whoosh_search W dir q n = Ok hits ->
  In r hits ->
  stores e r ->
  exists docs found,
    search_bm25 W q dir n t = (Ok docs, t ++ [EvWhoosh dir q n])
    /\ List.length docs = List.length hits
    /\ In (found, hit_score r) docs
    /\ doc_id_of W found = doc_id_of W d
    /\ page_content found = page_content d
    /\ md_get (metadata_or_empty found) "source"
       = Some (md_get_default (metadata_or_empty d) "source" (VStr ""))
    /\ md_get (metadata_or_empty found) "page" = Some (VInt (entry_page e)).
Proof.
  intros He Hw Hin Hst.
  exists (map (fun r => (hit_document r, hit_score r)) hits),
         (hit_document r).
  split; [now rewrite search_bm25_eq, Hw|].
  split; [apply length_map|].
  split; [apply (in_map (fun r => (hit_document r, hit_score r))), Hin|].
  exact (hit_keeps_id W I d e r He Hst).
Qed.

(** The theorem for the first result of the example index. *)
Lemma bm25_hit_keeps_retriever_id_witness :
  exists docs found,
    search_bm25 (world_of secret_seed0 vs_abc) "q" (VStr BM25_DIR) 60 []
    = (Ok docs, [] ++ [EvWhoosh (VStr BM25_DIR) "q" 60])
    /\ In (found, 7.5%float) docs
    /\ doc_id_of (world_of secret_seed0 vs_abc) found = VStr "B".
Proof.
  destruct (bm25_hit_keeps_retriever_id
              (world_of secret_seed0 vs_abc) indexer_ok doc_b_paged
              {| entry_doc_id := VStr "B"; entry_source := VStr "b.pdf";
                 entry_page := 1; entry_content := "beta" |}
              "q" (VStr BM25_DIR) 60 _ hit_b [] eq_refl eq_refl)
    as [docs [found [Hs [_ [Hin [Hid _]]]]]].
  - now left.
  - repeat split.
  - exists docs, found. split; [exact Hs|]. split; [exact Hin|exact Hid].
Defined.

Lemma ifor_write_document I docs : forall t r t',
  ifor (write_document I) docs t = (r, t') ->
  exists entries,
    t' = t ++ map IxUpdate entries
    /\ Forall2 (fun d e => index_entry I d = Ok e)
               (firstn (List.length entries) docs) entries
    /\ (forall u, r = Ok u -> List.length entries = List.length docs)
    /\ (forall d ex, In d docs -> index_entry I d = Raise ex ->
        exists ex', r = Raise ex').
Proof.
  induction docs as [|d docs IH]; intros t r t' H; cbn [ifor] in H.
  - injection H as <- <-. exists []. rewrite app_nil_r.
    repeat split; [constructor|]. intros d ex [].
  - unfold ibind at 1, write_document at 1, ibind at 1, ilift, icall in H.
    destruct (index_entry I d) as [e|ex] eqn:Ed.
    + destruct (writer_update_document I e) as [[]|ex].
      * apply IH in H. destruct H as [entries [Ht [HF [Hlen Hbad]]]].
        exists (e :: entries). rewrite Ht, <- app_assoc.
        split; [reflexivity|]. split; [|split].
        -- cbn [List.length firstn]. now constructor.
        -- intros u Hu. cbn [List.length]. now rewrite (Hlen u Hu).
        -- intros d' ex [<-|Hin] Hd'; [congruence|]. eapply Hbad; eauto.
      * injection H as <- <-. exists [e].
        split; [reflexivity|]. split; [|split].
        -- cbn [List.length firstn]. now repeat constructor.
        -- discriminate.
        -- intros. now exists ex.
    + injection H as <- <-. exists []. rewrite app_nil_r.
      split; [reflexivity|]. split; [constructor|]. split; [discriminate|].
      intros. now exists ex.
Qed.

Lemma not_commit_updates entries : ~ In IxCommit (map IxUpdate entries).
Proof.
  induction entries as [|e entries IH]; cbn; [tauto|].
  intros [H|H]; [discriminate|auto].
Qed.

Lemma ensure_index_trace I index_dir t r t' :
  _ensure_index I index_dir t = (r, t') ->
  exists opening,
    t' = t ++ opening
    /\ ~ In IxCommit opening
    /\ (forall u, r = Ok u -> opening_of index_dir opening).
Proof.
  unfold _ensure_index, ibind, icall, opening_of.
  destruct (os_makedirs I index_dir) as [[]|e].
  - destruct (windex_exists_in I index_dir) as [[|]|e]; cbn [negb];
      intro H; injection H as <- <-; rewrite <- ?app_assoc;
      eexists; (split; [reflexivity|]);
      (split; [cbn; intuition discriminate|]).
    + intros _ _. now right.
    + intros _ _. now left.
    + discriminate.
  - intro H. injection H as <- <-. eexists. split; [reflexivity|].
    split; [cbn; intuition discriminate|discriminate].
Qed.

(** X14. [build_bm25_index] opens the index, writes one entry per
    document in the order of the list and commits once at the end,
    returning the directory. When [int] raises on the page of any
    document the build raises and never commits; when the build raises
    after a commit call, the exception is the one of that call. *)
Theorem build_bm25_index_commits_last I documents index_dir t r t' :
  build_bm25_index I documents index_dir t = (r, t') ->
  exists new,
    t' = t ++ new
    /\ (forall s, r = Ok s ->
        s = index_dir
        /\ exists opening entries,
             new = opening ++ IxWriter :: map IxUpdate entries ++ [IxCommit]
             /\ opening_of index_dir opening
             /\ Forall2 (fun d e => index_entry I d = Ok e)
                        documents entries)
    /\ (forall d ex, In d documents -> index_entry I d = Raise ex ->
        (exists ex', r = Raise ex') /\ ~ In IxCommit new)
    /\ (forall ex, r = Raise ex -> In IxCommit new ->
        writer_commit I = Raise ex).
Proof.
  unfold build_bm25_index. unfold ibind at 1.
  destruct (_ensure_index I index_dir t) as [[[]|e0] t0] eqn:E0;
    apply ensure_index_trace in E0;
    destruct E0 as [opening [-> [Hnc Hop]]].
  - unfold ibind at 1, icall at 1.
    destruct (idx_writer I) as [[]|e1].
    + unfold ibind at 1.
      fold (write_document I).
      destruct (ifor (write_document I) documents
                  ((t ++ opening) ++ [IxWriter])) as [[[]|e2] t2] eqn:E2;
        apply ifor_write_document in E2;
        destruct E2 as [entries [-> [HF [Hlen Hbad]]]].
      * unfold ibind, icall, iret.
        assert (Hall : Forall2 (fun d e => index_entry I d = Ok e)
                         documents entries).
        { rewrite (Hlen tt eq_refl), firstn_all in HF. exact HF. }
        destruct (writer_commit I) as [[]|e3] eqn:E3;
          intro H; injection H as <- <-;
          exists (opening ++ IxWriter :: map IxUpdate entries ++ [IxCommit]);
          (split; [now rewrite <- !app_assoc|]).
        -- split; [|split].
           ++ intros s Hs. injection Hs as <-. split; [reflexivity|].
              exists opening, entries. repeat split; auto.
              apply (Hop tt eq_refl).
           ++ intros d ex Hin Hd.
              destruct (Hbad d ex Hin Hd) as [ex' Hex']. discriminate.
           ++ discriminate.
        -- split; [discriminate|]. split.
           ++ intros d ex Hin Hd.
              destruct (Hbad d ex Hin Hd) as [ex' Hex']. discriminate.
           ++ intros ex Hex _. now injection Hex as <-.
      * intro H. injection H as <- <-.
        exists (opening ++ IxWriter :: map IxUpdate entries).
        split; [now rewrite <- !app_assoc|].
        assert (Hnc' : ~ In IxCommit
                         (opening ++ IxWriter :: map IxUpdate entries)).
        { rewrite in_app_iff. intros [H|[H|H]]; [auto|discriminate|].
          now apply not_commit_updates in H. }
        split; [discriminate|]. split.
        -- intros d ex _ _. split; [now exists e2|exact Hnc'].
        -- intros ex _ Hin. contradiction.
    + intro H. injection H as <- <-. exists (opening ++ [IxWriter]).
      split; [now rewrite <- app_assoc|].
      assert (Hnc' : ~ In IxCommit (opening ++ [IxWriter])).
      { rewrite in_app_iff. intros [H|[H|[]]]; [auto|discriminate]. }
      split; [discriminate|]. split.
      * intros d ex _ _. split; [now exists e1|exact Hnc'].
      * intros ex _ Hin. contradiction.
  - intro H. injection H as <- <-. exists opening.
    split; [reflexivity|]. split; [discriminate|]. split.
    + intros d ex _ _. split; [now exists e0|exact Hnc].
    + intros ex _ Hin. contradiction.
Qed.

(** The theorem for one document on a fresh directory: the build returns
    the directory after one update and the commit. *)
Lemma build_bm25_index_commits_last_witness :
  fst (build_bm25_index indexer_ok [doc_paged] "idx" []) = Ok "idx"
  /\ exists new,
       snd (build_bm25_index indexer_ok [doc_paged] "idx" []) = [] ++ new
       /\ In IxCommit new.
Proof.
  split; [reflexivity|].
  destruct (build_bm25_index_commits_last indexer_ok [doc_paged] "idx" []
              (fst (build_bm25_index indexer_ok [doc_paged] "idx" []))
              (snd (build_bm25_index indexer_ok [doc_paged] "idx" []))
              eq_refl) as [new [Ht [Hok _]]].
  exists new. split; [exact Ht|].
  destruct (Hok "idx" eq_refl) as [_ [opening [entries [-> _]]]].
  rewrite in_app_iff. right. right. rewrite in_app_iff. right. now left.
Defined.

(** * Properties of the ingestion *)

Lemma for_each_inv {S A} (P : S -> Prop) (body : S -> A -> result S) l :
  (forall s x s', In x l -> P s -> body s x = Ok s' -> P s') ->
  forall s0 s, P s0 -> for_each body l s0 = Ok s -> P s.
Proof.
  induction l as [|x l IH]; intros Hstep s0 s H0 H; cbn [for_each] in H.
  - now injection H as <-.
  - destruct (body s0 x) as [s1|e] eqn:E; cbn [rbind] in H; [|discriminate].
    apply (IH (fun s x s' Hin => Hstep s x s' (or_intror Hin)) s1 s);
      [|exact H].
    apply (Hstep s0 x s1); [now left|exact H0|exact E].
Qed.

Lemma increasing_from_weaken l : forall lo lo',
  lo' <= lo -> increasing_from lo l -> increasing_from lo' l.
Proof.
  destruct l as [|x l]; cbn; [trivial|].
  intros lo lo' Hle [Hx Hl]. split; [lia|exact Hl].
Qed.

Lemma increasing_from_bounds l : forall lo x,
  increasing_from lo l -> In x l -> lo <= x.
Proof.
  induction l as [|y l IH]; cbn; intros lo x H Hin; [destruct Hin|].
  destruct H as [Hy Hl]. destruct Hin as [<-|Hin]; [exact Hy|].
  specialize (IH _ _ Hl Hin). lia.
Qed.

Lemma increasing_from_NoDup l : forall lo,
  increasing_from lo l -> NoDup l.
Proof.
  induction l as [|y l IH]; cbn; intros lo H; [constructor|].
  destruct H as [Hy Hl]. constructor; [|now apply (IH (y + 1))].
  intro Hin. specialize (increasing_from_bounds _ _ _ Hl Hin). lia.
Qed.

Lemma page_loop F raw : forall s acc pages,
  for_each (page_step F) (enumerate s raw) acc = Ok pages ->
  exists new,
    pages = acc ++ new
    /\ increasing_from s (page_numbers new)
    /\ Forall (page_has_text F) new.
Proof.
  induction raw as [|x raw IH]; intros s acc pages H;
    cbn [enumerate for_each] in H.
  - injection H as <-. exists []. rewrite app_nil_r.
    repeat split. constructor.
  - unfold page_step at 1 in H. cbn [fst snd] in H.
    destruct x as [extracted|e]; cbn [rbind] in H; [|discriminate].
    destruct (nonempty (txt_strip F (or_empty extracted))) eqn:En;
      cbn [rbind] in H; apply IH in H;
      destruct H as [new [-> [Hinc HF]]].
    + exists ({| page_number := s;
                 page_text := Some (or_empty extracted) |} :: new).
      rewrite <- app_assoc. split; [reflexivity|]. split.
      * cbn. split; [lia|exact Hinc].
      * constructor; [|exact HF].
        unfold page_has_text. cbn [page_text].
        unfold nonempty in En. intro E0. rewrite E0 in En. discriminate.
    + exists new. split; [reflexivity|]. split; [|exact HF].
      apply (increasing_from_weaken _ (s + 1)); [lia|exact Hinc].
Qed.

Lemma Forall_dict_set {V} (P : pyval * V -> Prop) (d : dict V) k v :
  Forall P d -> P (k, v) -> Forall P (dict_set d k v).
Proof.
  induction d as [|[k0 v0] d IH]; cbn [dict_set]; intros HF Hk.
  - now constructor.
  - inversion HF as [|? ? H0 HF']; subst.
    destruct (pyval_eqb k0 k) eqn:E.
    + apply pyval_eqb_eq in E. subst k0. now constructor.
    + constructor; [exact H0|now apply IH].
Qed.

Lemma NoDup_keys_dict_set {V} (d : dict V) k v :
  NoDup (keys d) -> NoDup (keys (dict_set d k v)).
Proof.
  intro H. rewrite keys_dict_set.
  destruct (dict_contains d k) eqn:E; [exact H|].
  apply NoDup_app; [exact H|repeat constructor; intros []|].
  intros a Ha [<-|[]].
  apply dict_contains_In in Ha. congruence.
Qed.

Lemma extract_data_ok F folder data :
  extract_text_with_pages F folder = Ok data ->
  exists files,
    os_listdir F folder = Ok files
    /\ NoDup (keys data)
    /\ Forall (fun fp =>
         (exists file, In file files /\ fst fp = VStr file
                       /\ endswith file ".pdf" = true)
         /\ snd fp <> []
         /\ increasing_from 1 (page_numbers (snd fp))
         /\ Forall (page_has_text F) (snd fp)) data.
Proof.
  unfold extract_text_with_pages.
  destruct (os_listdir F folder) as [files|e]; cbn [rbind]; [|discriminate].
  intro H. exists files. split; [reflexivity|].
  apply (for_each_inv
           (fun data : dict (list Page) =>
              NoDup (keys data)
              /\ Forall (fun fp =>
                   (exists file, In file files /\ fst fp = VStr file
                                 /\ endswith file ".pdf" = true)
                   /\ snd fp <> []
                   /\ increasing_from 1 (page_numbers (snd fp))
                   /\ Forall (page_has_text F) (snd fp)) data)
           (file_step F folder) files) with (s0 := []);
    [|split; constructor|exact H].
  intros s file s' Hin [Hnd HF] Hstep. unfold file_step in Hstep.
  destruct (endswith file ".pdf") eqn:Ee; cbn [negb] in Hstep.
  - destruct (pdf_reader_pages F _) as [reader|e]; cbn [rbind] in Hstep;
      [|discriminate].
    destruct (for_each (page_step F) (enumerate 1 reader) [])
      as [pages|e] eqn:Ep; cbn [rbind] in Hstep; [|discriminate].
    apply page_loop in Ep. destruct Ep as [new [-> [Hinc Htxt]]].
    cbn [app] in Hstep. destruct new as [|p new].
    + injection Hstep as <-. now split.
    + injection Hstep as <-. split.
      * now apply NoDup_keys_dict_set.
      * apply Forall_dict_set; [exact HF|]. cbn [fst snd].
        split; [now exists file|]. split; [discriminate|]. now split.
  - injection Hstep as <-. now split.
Qed.

Lemma extract_data_entries F folder data :
  extract_text_with_pages F folder = Ok data ->
  forall key pages, In (key, pages) data ->
    (exists files file,
       os_listdir F folder = Ok files /\ In file files
       /\ key = VStr file /\ endswith file ".pdf" = true)
    /\ pages <> []
    /\ increasing_from 1 (page_numbers pages)
    /\ Forall (page_has_text F) pages.
Proof.
  intros H key pages Hin. apply extract_data_ok in H.
  destruct H as [files [Hl [_ HF]]]. rewrite Forall_forall in HF.
  destruct (HF _ Hin) as [[file [Hf [Hk He]]] [Hne [Hinc Htxt]]].
  cbn [fst snd] in *. split; [|now repeat split].
  now exists files, file.
Qed.

(** X15. The dictionary [extract_text_with_pages] returns has one entry
    per file name, each the name of a listed file that ends in [.pdf];
    every page list is non-empty, its page numbers start at 1 or above
    and increase strictly (pages are numbered from 1 and blank pages
    leave gaps), and every page kept holds a text that is not blank. *)
Theorem extract_text_with_pages_invariants F folder data :
  extract_text_with_pages F folder = Ok data ->
  NoDup (keys data)
  /\ forall key pages, In (key, pages) data ->
       (exists files file,
          os_listdir F folder = Ok files /\ In file files
          /\ key = VStr file /\ endswith file ".pdf" = true)
       /\ pages <> []
       /\ increasing_from 1 (page_numbers pages)
       /\ Forall (page_has_text F) pages.
Proof.
  intro H. split.
  - apply extract_data_ok in H. now destruct H as [files [_ [Hnd _]]].
  - intros key pages Hin.
    destruct (extract_data_entries F folder data H key pages Hin)
      as [[files [file [Hl [Hf [Hk He]]]]] [Hne [Hinc Htxt]]].
    split; [now exists files, file|]. now repeat split.
Qed.

(** The theorem on the example folder: the note and the blank PDF are
    left out, the blank page of the other file leaves a gap. *)
Lemma extract_text_with_pages_invariants_witness :
  extract_text_with_pages files_example "data"
  = Ok [(VStr "a.pdf",
         [{| page_number := 1; page_text := Some "one" |};
          {| page_number := 3; page_text := Some "three" |}])]
  /\ NoDup (keys [(VStr "a.pdf",
         [{| page_number := 1; page_text := Some "one" |};
          {| page_number := 3; page_text := Some "three" |}])]).
Proof.
  split; [reflexivity|].
  exact (proj1 (extract_text_with_pages_invariants files_example "data"
                  _ eq_refl)).
Defined.

(** ** Chunk ids *)

Lemma list_ascii_of_string_app a b :
  list_ascii_of_string (a ++ b)
  = list_ascii_of_string a ++ list_ascii_of_string b.
Proof. induction a as [|c a IH]; cbn; [reflexivity|now rewrite IH]. Qed.

Lemma uint_chars u c :
  In c (list_ascii_of_string (NilEmpty.string_of_uint u)) ->
  c <> "c"%char /\ c <> "p"%char.
Proof.
  induction u; cbn; intros H; try (destruct H as [<-|H]; [|auto]);
    try (split; discriminate); destruct H.
Qed.

Lemma str_of_int_chars n c :
  In c (list_ascii_of_string (str_of_int n)) ->
  c <> "c"%char /\ c <> "p"%char.
Proof.
  unfold str_of_int, NilZero.string_of_int, NilZero.string_of_uint.
  destruct (Z.to_int n) as [u|u]; cbn [list_ascii_of_string].
  - destruct u; try apply uint_chars.
    cbn. intros [<-|[]]. split; discriminate.
  - intros [<-|H]; [split; discriminate|].
    destruct u; try (revert H; apply uint_chars).
    cbn in H. destruct H as [<-|[]]. split; discriminate.
Qed.

Lemma Z_to_int_nonnil n :
  Z.to_int n <> Decimal.Pos Decimal.Nil
  /\ Z.to_int n <> Decimal.Neg Decimal.Nil.
Proof.
  destruct n as [|p|p]; cbn; split; try discriminate;
    intro H; injection H as H;
    now apply DecimalPos.Unsigned.to_uint_nonnil in H.
Qed.

Lemma str_of_int_inj n m : str_of_int n = str_of_int m -> n = m.
Proof.
  unfold str_of_int. intro H.
  apply DecimalZ.to_int_inj.
  destruct (Z_to_int_nonnil n) as [Hn1 Hn2].
  destruct (Z_to_int_nonnil m) as [Hm1 Hm2].
  pose proof (NilZero.isi _ Hn1 Hn2) as En.
  pose proof (NilZero.isi _ Hm1 Hm2) as Em.
  rewrite H in En. congruence.
Qed.

Lemma split_at_last {A} (x : A) a : forall b u v,
  a ++ x :: u = b ++ x :: v -> ~ In x u -> ~ In x v -> a = b /\ u = v.
Proof.
  induction a as [|y a IH]; intros [|z b] u v H Hu Hv; cbn in H.
  - injection H as <-. now split.
  - injection H as <- ->. exfalso. apply Hu, in_or_app. right. now left.
  - injection H as -> <-. exfalso. apply Hv, in_or_app. right. now left.
  - injection H as <- H. destruct (IH _ _ _ H Hu Hv) as [-> ->]. now split.
Qed.

Lemma child_id_chars (S P I S' P' I' : list ascii) :
  ((S ++ [":"; ":"; "p"] ++ P) ++ [":"; ":"; "c"] ++ I
   = (S' ++ [":"; ":"; "p"] ++ P') ++ [":"; ":"; "c"] ++ I')%char ->
  ~ In "c"%char I -> ~ In "c"%char I' ->
  ~ In "p"%char P -> ~ In "p"%char P' ->
  S = S' /\ P = P' /\ I = I'.
Proof.
  intros H HI HI' HP HP'.
  assert (H1 : (((S ++ [":"; ":"; "p"] ++ P) ++ [":"; ":"]) ++ "c" :: I
          = ((S' ++ [":"; ":"; "p"] ++ P') ++ [":"; ":"]) ++ "c" :: I')%char).
  { rewrite <- !app_assoc. cbn [app]. rewrite <- !app_assoc in H.
    cbn [app] in H. exact H. }
  clear H. apply split_at_last in H1; [|assumption|assumption].
  destruct H1 as [H EI]. apply app_inv_tail in H.
  assert (H2 : ((S ++ [":"; ":"]) ++ "p" :: P
                = (S' ++ [":"; ":"]) ++ "p" :: P')%char).
  { rewrite <- !app_assoc. cbn [app]. cbn [app] in H. exact H. }
  clear H. apply split_at_last in H2; [|assumption|assumption].
  destruct H2 as [H EP]. apply app_inv_tail in H. now repeat split.
Qed.

Lemma list_ascii_of_string_inj a b :
  list_ascii_of_string a = list_ascii_of_string b -> a = b.
Proof.
  intro H. rewrite <- (string_of_list_ascii_of_string a),
    <- (string_of_list_ascii_of_string b). now rewrite H.
Qed.

Lemma child_id_inj s pn i s' pn' i' :
  child_id_of (parent_id_of s pn) i = child_id_of (parent_id_of s' pn') i' ->
  py_str s = py_str s' /\ pn = pn' /\ i = i'.
Proof.
  unfold child_id_of, parent_id_of. intro H.
  apply (f_equal list_ascii_of_string) in H.
  rewrite !list_ascii_of_string_app in H.
  cbn [list_ascii_of_string] in H.
  apply child_id_chars in H.
  - destruct H as [Hs [Hp Hi]].
    apply list_ascii_of_string_inj in Hs, Hp, Hi.
    apply str_of_int_inj in Hp, Hi. now repeat split.
  - intro Hc. now apply str_of_int_chars in Hc.
  - intro Hc. now apply str_of_int_chars in Hc.
  - intro Hc. now apply str_of_int_chars in Hc.
  - intro Hc. now apply str_of_int_chars in Hc.
Qed.

Lemma child_id_nonempty p i : child_id_of p i <> "".
Proof.
  unfold child_id_of. intro H.
  apply (f_equal list_ascii_of_string) in H.
  rewrite list_ascii_of_string_app in H. cbn [list_ascii_of_string] in H.
  apply app_eq_nil in H. destruct H as [_ H]. discriminate.
Qed.

Lemma doc_id_of_chunk W c : doc_id_of W (doc_of_chunk c) = VStr (id_of_chunk c).
Proof.
  unfold doc_id_of, doc_of_chunk, child_doc, id_of_chunk, md_get_default.
  cbn [metadata_or_empty metadata md_get String.eqb Ascii.eqb Bool.eqb].
  unfold py_or, truthy.
  destruct (String.eqb_spec
              (child_id_of (parent_id_of (chunk_source c) (chunk_page c))
                           (fst (snd (snd c)))) "") as [E|_].
  - now apply child_id_nonempty in E.
  - reflexivity.
Qed.

Lemma place_of_chunk_id c c' :
  id_of_chunk c = id_of_chunk c' -> place_of_chunk c = place_of_chunk c'.
Proof.
  unfold id_of_chunk, place_of_chunk. intro H.
  apply child_id_inj in H. destruct H as [-> [-> ->]]. reflexivity.
Qed.

Lemma NoDup_map_via {A B C} (f : A -> B) (g : A -> C) l :
  (forall x y, f x = f y -> g x = g y) ->
  NoDup (map g l) -> NoDup (map f l).
Proof.
  intros Hfg. induction l as [|x l IH]; cbn; intro H; [constructor|].
  inversion H as [|? ? Hx Hl]; subst. constructor; [|now apply IH].
  intro Hin. apply Hx. apply in_map_iff in Hin.
  destruct Hin as [y [Ey Hy]]. apply in_map_iff. exists y.
  split; [|exact Hy]. now apply Hfg.
Qed.

Lemma enumerate_fst_increasing {A} (l : list A) : forall s,
  increasing_from s (map fst (enumerate s l)).
Proof.
  induction l as [|x l IH]; intro s; cbn; [trivial|].
  split; [lia|apply IH].
Qed.

Lemma split_pages_shape split_text source pages : forall acc docs,
  for_each (split_page split_text source) pages acc = Ok docs ->
  exists chunks : list Chunk,
    docs = acc ++ map doc_of_chunk chunks
    /\ Forall (fun c => chunk_source c = source
                        /\ In (chunk_page c) (page_numbers pages)
                        /\ 0 <= chunk_index c) chunks
    /\ (NoDup (page_numbers pages) ->
        NoDup (map (fun c => (chunk_page c, chunk_index c)) chunks)).
Proof.
  induction pages as [|p pages IH]; intros acc docs H; cbn [for_each] in H.
  - injection H as <-. exists []. rewrite app_nil_r.
    repeat split; constructor.
  - unfold split_page at 1 in H.
    destruct (split_text (or_empty (page_text p))) as [texts|e];
      cbn [rbind] in H; [|discriminate].
    apply IH in H. destruct H as [rest [-> [HF Hnd]]].
    pose (block := map (fun ic : Z * string => (source, (page_number p, ic)))
                       (enumerate 0 texts)).
    exists (block ++ rest). split; [|split].
    + rewrite <- app_assoc, map_app. f_equal. f_equal.
      unfold block. rewrite map_map. reflexivity.
    + apply Forall_app. split.
      * unfold block. rewrite Forall_forall. intros c Hc.
        apply in_map_iff in Hc. destruct Hc as [[i txt] [<- Hin]].
        unfold chunk_source, chunk_page, chunk_index. cbn [fst snd].
        split; [reflexivity|]. split; [now left|].
        apply (increasing_from_bounds (map fst (enumerate 0 texts)) 0 i);
          [apply enumerate_fst_increasing|].
        apply in_map_iff. now exists (i, txt).
      * revert HF. apply Forall_impl. intros c [Hs [Hp Hi]].
        split; [exact Hs|]. split; [now right|exact Hi].
    + intro Hpages. cbn [page_numbers map] in Hpages.
      inversion Hpages as [|? ? Hp Hrest]; subst.
      rewrite map_app. apply NoDup_app.
      * unfold block. rewrite map_map.
        unfold chunk_page, chunk_index. cbn [fst snd].
        rewrite <- (map_map fst (fun i => (page_number p, i))).
        apply (NoDup_map_via _ (fun i : Z => i));
          [intros x y E; congruence|].
        rewrite map_id.
        apply (increasing_from_NoDup _ 0), enumerate_fst_increasing.
      * now apply Hnd.
      * intros [pn i] Hin1 Hin2.
        apply in_map_iff in Hin1. destruct Hin1 as [c1 [E1 Hc1]].
        apply in_map_iff in Hin2. destruct Hin2 as [c2 [E2 Hc2]].
        unfold block in Hc1. apply in_map_iff in Hc1.
        destruct Hc1 as [ic [<- _]].
        unfold chunk_page in E1. cbn [fst snd] in E1.
        injection E1 as <- _.
        rewrite Forall_forall in HF. destruct (HF _ Hc2) as [_ [Hin _]].
        injection E2 as E2 _. rewrite E2 in Hin. contradiction.
Qed.

Lemma doc_of_chunk_fields c :
  page_content (doc_of_chunk c) = snd (snd (snd c))
  /\ md_get (metadata_or_empty (doc_of_chunk c)) "parent_id"
     = Some (VStr (parent_id_of (chunk_source c) (chunk_page c)))
  /\ md_get (metadata_or_empty (doc_of_chunk c)) "source"
     = Some (chunk_source c)
  /\ md_get (metadata_or_empty (doc_of_chunk c)) "page"
     = Some (VInt (chunk_page c)).
Proof. repeat split. Qed.

(** X16. The documents of [split_parent_child] for pages with distinct
    page numbers get pairwise distinct ids in the retriever, and the id
    of each is its ["doc_id"] [source::p<page>::c<i>], the same under
    every hash secret: no two chunks are merged and the ids are stable
    across processes. Each document names its source, its page and its
    parent [source::p<page>]. *)
Theorem split_parent_child_ids ts W pages source child overlap docs :
  split_parent_child ts pages source child overlap = Ok docs ->
  NoDup (page_numbers pages) ->
  NoDup (map (doc_id_of W) docs)
  /\ (forall W', map (doc_id_of W') docs = map (doc_id_of W) docs)
  /\ Forall (fun d =>
       exists pn i,
         In pn (page_numbers pages) /\ 0 <= i
         /\ doc_id_of W d = VStr (child_id_of (parent_id_of source pn) i)
         /\ md_get (metadata_or_empty d) "parent_id"
            = Some (VStr (parent_id_of source pn))
         /\ md_get (metadata_or_empty d) "source" = Some source
         /\ md_get (metadata_or_empty d) "page" = Some (VInt pn)) docs.
Proof.
  unfold split_parent_child.
  destruct (ts child overlap) as [split_text|e]; cbn [rbind]; [|discriminate].
  intros H Hpages. apply split_pages_shape in H.
  destruct H as [chunks [-> [HF Hnd]]]. cbn [app].
  split; [|split].
  - rewrite map_map.
    apply (NoDup_map_via _ (fun c => (chunk_page c, chunk_index c))).
    + intros x y E. rewrite !doc_id_of_chunk in E. injection E as E.
      apply place_of_chunk_id in E. unfold place_of_chunk in E. congruence.
    + now apply Hnd.
  - intro W'. rewrite !map_map. apply map_ext. intro c.
    now rewrite !doc_id_of_chunk.
  - rewrite Forall_map. revert HF. apply Forall_impl.
    intros c [Hs [Hp Hi]]. exists (chunk_page c), (chunk_index c).
    rewrite doc_id_of_chunk. unfold id_of_chunk. rewrite <- Hs.
    split; [exact Hp|]. split; [exact Hi|]. split; [reflexivity|].
    apply doc_of_chunk_fields.
Qed.

(** The theorem for two pages cut into two chunks each. *)
Lemma split_parent_child_ids_witness :
  exists docs,
    split_parent_child splitter_two pages_1_3 (VStr "a.pdf") 220 40 = Ok docs
    /\ map (doc_id_of (world_of secret_seed0 vs_abc)) docs
       = [VStr "a.pdf::p1::c0"; VStr "a.pdf::p1::c1";
          VStr "a.pdf::p3::c0"; VStr "a.pdf::p3::c1"]
    /\ NoDup (map (doc_id_of (world_of secret_seed0 vs_abc)) docs).
Proof.
  eexists. split; [reflexivity|]. split; [reflexivity|].
  refine (proj1 (split_parent_child_ids splitter_two
                   (world_of secret_seed0 vs_abc) pages_1_3 (VStr "a.pdf")
                   220 40 _ eq_refl _)).
  unfold pages_1_3. cbn. repeat constructor; cbn; intuition discriminate.
Defined.

(** ** The chunks of the whole corpus *)

Lemma all_docs_shape ts data : forall acc docs,
  for_each (fun acc fp =>
              rbind (split_parent_child ts (snd fp) (fst fp) 220 40)
                    (fun child_docs => Ok (acc ++ child_docs)))
           data acc = Ok docs ->
  exists chunks : list Chunk,
    docs = acc ++ map doc_of_chunk chunks
    /\ Forall (fun c => exists pages,
                 In (chunk_source c, pages) data
                 /\ In (chunk_page c) (page_numbers pages)
                 /\ 0 <= chunk_index c) chunks
    /\ (NoDup (map py_str (map fst data)) ->
        (forall key pages, In (key, pages) data ->
                           NoDup (page_numbers pages)) ->
        NoDup (map place_of_chunk chunks)).
Proof.
  induction data as [|[key pages] data IH]; intros acc docs H;
    cbn [for_each] in H.
  - injection H as <-. exists []. rewrite app_nil_r.
    repeat split; constructor.
  - cbn [fst snd] in H. unfold split_parent_child at 1 in H.
    destruct (ts 220 40) as [split_text|e] eqn:Ets; cbn [rbind] in H;
      [|discriminate].
    destruct (for_each (split_page split_text key) pages [])
      as [child_docs|e] eqn:Ec; cbn [rbind] in H; [|discriminate].
    apply split_pages_shape in Ec.
    destruct Ec as [block [-> [HFb Hndb]]]. cbn [app] in H.
    apply IH in H. destruct H as [rest [-> [HFr Hndr]]].
    exists (block ++ rest). split; [|split].
    + now rewrite <- app_assoc, map_app.
    + apply Forall_app. split.
      * revert HFb. apply Forall_impl. intros c [Hs [Hp Hi]].
        exists pages. rewrite Hs. split; [now left|now split].
      * revert HFr. apply Forall_impl. intros c [ps [Hin Hrest]].
        exists ps. split; [now right|exact Hrest].
    + intros Hkeys Hpages. cbn [map] in Hkeys.
      inversion Hkeys as [|? ? Hk Hkeys']; subst.
      rewrite map_app. apply NoDup_app.
      * apply (NoDup_map_via _ (fun c => (chunk_page c, chunk_index c))).
        -- intros x y E. unfold place_of_chunk in E. congruence.
        -- apply Hndb. apply (Hpages key). now left.
      * apply Hndr; [exact Hkeys'|].
        intros k ps Hin. apply (Hpages k). now right.
      * intros [src place] Hin1 Hin2.
        apply in_map_iff in Hin1. destruct Hin1 as [c1 [E1 Hc1]].
        apply in_map_iff in Hin2. destruct Hin2 as [c2 [E2 Hc2]].
        rewrite Forall_forall in HFb, HFr.
        destruct (HFb _ Hc1) as [Hs1 _].
        destruct (HFr _ Hc2) as [ps [Hin _]].
        unfold place_of_chunk in E1, E2.
        injection E1 as E1 _. injection E2 as E2 _.
        apply Hk. rewrite <- Hs1, E1, <- E2.
        apply in_map. apply (in_map fst) in Hin. exact Hin.
Qed.

Lemma NoDup_py_str_keys (l : list pyval) :
  (forall k, In k l -> exists s, k = VStr s) ->
  NoDup l -> NoDup (map py_str l).
Proof.
  induction l as [|k l IH]; cbn [map]; intros Hstr H; [constructor|].
  inversion H as [|? ? Hk Hl]; subst. constructor.
  - intro Hin. apply in_map_iff in Hin. destruct Hin as [y [E Hy]].
    destruct (Hstr k (or_introl eq_refl)) as [s ->].
    destruct (Hstr y (or_intror Hy)) as [s' ->].
    cbn [py_str] in E. subst s'. contradiction.
  - apply IH; [|exact Hl]. intros k' Hk'. apply Hstr. now right.
Qed.

(** X17. For the corpus that [extract_text_with_pages] reads, the child
    documents that [run_pipeline] collects over all files get pairwise
    distinct ids in the retriever, the same under every hash secret, and
    [build_bm25_index] can write each of them: its entry carries that id,
    the text, the file name and a page number from 1 on. *)
Theorem pipeline_chunk_ids_unique F ts W I folder data docs :
  extract_text_with_pages F folder = Ok data ->
  all_child_docs ts data = Ok docs ->
  NoDup (map (doc_id_of W) docs)
  /\ (forall W', map (doc_id_of W') docs = map (doc_id_of W) docs)
  /\ Forall (fun d =>
       exists e,
         index_entry I d = Ok e
         /\ entry_doc_id e = doc_id_of W d
         /\ entry_content e = page_content d
         /\ 1 <= entry_page e
         /\ exists file,
              entry_source e = VStr file /\ endswith file ".pdf" = true)
       docs.
Proof.
  intros Hdata Hdocs.
  pose proof (extract_data_entries F folder data Hdata) as Hfiles.
  apply extract_data_ok in Hdata. destruct Hdata as [_ [_ [Hnd _]]].
  unfold all_child_docs, items in Hdocs. apply all_docs_shape in Hdocs.
  destruct Hdocs as [chunks [-> [HF Hplaces]]]. cbn [app].
  split; [|split].
  - rewrite map_map. apply (NoDup_map_via _ place_of_chunk).
    + intros x y E. rewrite !doc_id_of_chunk in E. injection E as E.
      now apply place_of_chunk_id.
    + apply Hplaces.
      * apply NoDup_py_str_keys; [|exact Hnd].
        intros k Hk. apply in_map_iff in Hk.
        destruct Hk as [[k' pages] [<- Hin]].
        destruct (Hfiles _ _ Hin) as [[files [file [_ [_ [-> _]]]]] _].
        now exists file.
      * intros key pages Hin.
        destruct (Hfiles _ _ Hin) as [_ [_ [Hinc _]]].
        now apply increasing_from_NoDup in Hinc.
  - intro W'. rewrite !map_map. apply map_ext. intro c.
    now rewrite !doc_id_of_chunk.
  - rewrite Forall_map. revert HF. apply Forall_impl.
    intros c [pages [Hin [Hp Hi]]].
    destruct (Hfiles _ _ Hin) as [[files [file [_ [_ [Hk He]]]]]
                                    [_ [Hinc _]]].
    eexists. split; [reflexivity|]. cbn [entry_doc_id entry_content
      entry_page entry_source].
    split; [now rewrite doc_id_of_chunk|]. split; [reflexivity|].
    split.
    + apply (increasing_from_bounds _ _ _ Hinc Hp).
    + exists file. split; [exact Hk|exact He].
Qed.

(** The theorem on the example folder with the splitter that cuts every
    page in two. *)
Lemma pipeline_chunk_ids_unique_witness :
  exists docs,
    all_child_docs splitter_two [(VStr "a.pdf", pages_1_3)] = Ok docs
    /\ map (doc_id_of (world_of secret_seed1 vs_abc)) docs
       = [VStr "a.pdf::p1::c0"; VStr "a.pdf::p1::c1";
          VStr "a.pdf::p3::c0"; VStr "a.pdf::p3::c1"]
    /\ NoDup (map (doc_id_of (world_of secret_seed1 vs_abc)) docs).
Proof.
  eexists. split; [reflexivity|]. split; [reflexivity|].
  exact (proj1 (pipeline_chunk_ids_unique files_example splitter_two
                  (world_of secret_seed1 vs_abc) indexer_ok "data"
                  _ _ eq_refl eq_refl)).
Defined.

(** ** The two extraction functions *)

Lemma page_loops_agree F reader : forall s texts pages,
  both (fun _ _ => True)
       (for_each text_step reader texts)
       (for_each (page_step F) (enumerate s reader) pages).
Proof.
  induction reader as [|page reader IH]; intros s texts pages;
    cbn [enumerate for_each]; [exact I|].
  unfold text_step at 1, page_step at 1. cbn [fst snd].
  destruct page as [extracted|e]; cbn [rbind]; [|reflexivity].
  destruct (nonempty (or_empty extracted));
    destruct (nonempty (txt_strip F (or_empty extracted)));
    cbn [rbind]; apply IH.
Qed.

Lemma keys_dict_set_In {V} (d : dict V) k0 v k :
  In k (keys (dict_set d k0 v)) <-> In k (keys d) \/ k = k0.
Proof.
  rewrite keys_dict_set.
  destruct (dict_contains d k0) eqn:Ec.
  - apply dict_contains_In in Ec. split; [now left|].
    intros [H| ->]; assumption.
  - rewrite in_app_iff. cbn. intuition.
Qed.

Lemma file_loops_agree F folder files : forall text_data data,
  both (fun text_data' data' =>
          (forall k, In k (keys text_data') <->
                     In k (keys text_data) \/ pdf_among files k)
          /\ (forall k, In k (keys data') ->
                        In k (keys data) \/ pdf_among files k))
       (for_each (pdf_text_step F folder) files text_data)
       (for_each (file_step F folder) files data).
Proof.
  induction files as [|file files IH]; intros text_data data;
    cbn [for_each].
  - split; intro k.
    + split; [now left|]. intros [H|[f [_ [[] _]]]]. exact H.
    + now left.
  - unfold pdf_text_step at 1, file_step at 1.
    destruct (endswith file ".pdf") eqn:Ee; cbn [negb rbind].
    + destruct (pdf_reader_pages F (os_path_join F folder file))
        as [reader|e]; cbn [rbind]; [|reflexivity].
      pose proof (page_loops_agree F reader 1 [] []) as Hp.
      destruct (for_each text_step reader []) as [texts|e1];
        destruct (for_each (page_step F) (enumerate 1 reader) [])
          as [pages|e2]; try contradiction; cbn [rbind]; [|exact Hp].
      assert (Hnew : pdf_among (file :: files) (VStr file)).
      { exists file. repeat split; auto. now left. }
      specialize (IH (dict_set text_data (VStr file) (join nl texts))
                     (match pages with
                      | [] => data
                      | _ :: _ => dict_set data (VStr file) pages
                      end)).
      replace (match pages with
               | [] => Ok data
               | _ :: _ => Ok (dict_set data (VStr file) pages)
               end)
        with (Ok (match pages with
                  | [] => data
                  | _ :: _ => dict_set data (VStr file) pages
                  end)) by now destruct pages.
      cbn [rbind]. unfold both in *.
      destruct (for_each (pdf_text_step F folder) files _) as [td'|e1];
        destruct (for_each (file_step F folder) files _) as [data'|e2];
        try contradiction; [|exact IH].
      destruct IH as [IH1 IH2]. split; intro k.
      * rewrite IH1, keys_dict_set_In. split.
        -- intros [[H| ->]|[f [Hk [Hin He]]]]; auto.
           right. exists f. repeat split; auto. now right.
        -- intros [H|[f [Hk [[<-|Hin] He]]]];
             [now left; left|now left; right|].
           right. now exists f.
      * intro Hk. apply IH2 in Hk. destruct Hk as [Hk|[f [Hk [Hin He]]]].
        -- destruct pages; [now left|].
           apply keys_dict_set_In in Hk. destruct Hk as [Hk| ->]; auto.
        -- right. exists f. repeat split; auto. now right.
    + specialize (IH text_data data). unfold both in *.
      destruct (for_each (pdf_text_step F folder) files _) as [td'|e1];
        destruct (for_each (file_step F folder) files _) as [data'|e2];
        try contradiction; [|exact IH].
      destruct IH as [IH1 IH2]. split; intro k.
      * rewrite IH1. split.
        -- intros [H|[f [Hk [Hin He]]]]; auto.
           right. exists f. repeat split; auto. now right.
        -- intros [H|[f [Hk [[<-|Hin] He]]]]; [now left|congruence|].
           right. now exists f.
      * intro Hk. apply IH2 in Hk. destruct Hk as [Hk|[f [Hk [Hin He]]]];
          auto.
        right. exists f. repeat split; auto. now right.
Qed.

(** X18. The two extraction functions fail together and with the same
    exception. When they succeed, [extract_text_from_pdfs] has an entry
    for every listed file that ends in [.pdf], also one without any text,
    and every file of [extract_text_with_pages] is among them. *)
Theorem extraction_functions_agree F folder :
  (forall e, extract_text_from_pdfs F folder = Raise e <->
             extract_text_with_pages F folder = Raise e)
  /\ (forall files text_data,
        os_listdir F folder = Ok files ->
        extract_text_from_pdfs F folder = Ok text_data ->
        (forall k, In k (keys text_data) <-> pdf_among files k)
        /\ exists data,
             extract_text_with_pages F folder = Ok data
             /\ incl (keys data) (keys text_data)).
Proof.
  unfold extract_text_from_pdfs, extract_text_with_pages.
  destruct (os_listdir F folder) as [files|e0]; cbn [rbind].
  - pose proof (file_loops_agree F folder files [] []) as H.
    unfold both in H.
    destruct (for_each (pdf_text_step F folder) files []) as [td|e1];
      destruct (for_each (file_step F folder) files []) as [data|e2];
      try contradiction.
    + destruct H as [H1 H2]. split.
      * intro e. split; discriminate.
      * intros files' text_data Hf Ht. injection Hf as <-.
        injection Ht as <-. split.
        -- intro k. rewrite H1. cbn. tauto.
        -- exists data. split; [reflexivity|]. intros k Hk.
           apply H1. apply H2 in Hk. exact Hk.
    + subst e2. split; [intro e; split; congruence|].
      intros files' text_data _ Ht. discriminate.
  - split; [intro e; split; congruence|].
    intros files text_data Hf. discriminate.
Qed.

(** The theorem on the example folder: the PDF with blank pages only has
    an entry without text in the one dictionary and none in the other. *)
Lemma extraction_functions_agree_witness :
  extract_text_from_pdfs files_example "data"
  = Ok [(VStr "a.pdf", ("one" ++ nl ++ "three")%string);
        (VStr "blank.pdf", "")]
  /\ forall k,
       In k [VStr "a.pdf"; VStr "blank.pdf"] <->
       pdf_among ["notes.txt"; "a.pdf"; "blank.pdf"] k.
Proof.
  split; [reflexivity|].
  exact (proj1 (proj2 (extraction_functions_agree files_example "data")
                  _ _ eq_refl eq_refl)).
Defined.

(** ** Chunks without ids *)

Lemma enumerate_fst_seq {A} (l : list A) : forall s,
  map fst (enumerate s l)
  = map (fun i => s + Z.of_nat i) (seq 0 (List.length l)).
Proof.
  induction l as [|x l IH]; intro s;
    cbn [enumerate map List.length seq fst].
  - reflexivity.
  - f_equal; [cbn; lia|]. rewrite IH, <- seq_shift, map_map.
    apply map_ext. intro i. lia.
Qed.

(** X19. The documents of [split_with_metadata] are numbered by
    ["chunk_id"] from 0 in the order of the chunks and carry no
    ["doc_id"]: the retriever files each under the id derived from source
    and text, so two chunks with the same text share one id whatever
    their ["chunk_id"], and [build_bm25_index] writes every one of them
    with the empty [doc_id] and page 0. *)
Theorem split_with_metadata_ids ts W I text source size overlap docs :
  split_with_metadata ts text source size overlap = Ok docs ->
  map (fun d => md_get (metadata_or_empty d) "chunk_id") docs
  = map (fun i => Some (VInt (Z.of_nat i))) (seq 0 (List.length docs))
  /\ Forall (fun d =>
       doc_id_of W d = VStr (derived_id W d)
       /\ md_get (metadata_or_empty d) "source" = Some source
       /\ exists e,
            index_entry I d = Ok e
            /\ entry_doc_id e = VStr "" /\ entry_page e = 0) docs
  /\ (forall d d', In d docs -> In d' docs ->
        page_content d = page_content d' ->
        doc_id_of W d = doc_id_of W d').
Proof.
  unfold split_with_metadata.
  destruct (ts size overlap) as [split_text|e]; cbn [rbind]; [|discriminate].
  destruct (split_text text) as [chunks|e]; cbn [rbind]; [|discriminate].
  intro H. injection H as <-.
  assert (Hid : forall ic : Z * string,
            doc_id_of W {| page_content := snd ic;
                           metadata := Some [("source", source);
                                             ("chunk_id", VInt (fst ic))] |}
            = VStr (py_str source ++ "-"
                    ++ str_of_int (SipHash.str_hash (hash_secret W)
                                                    (snd ic)))%string).
  { intro ic. unfold doc_id_of, derived_id, md_get_default.
    cbn [metadata_or_empty metadata md_get String.eqb Ascii.eqb Bool.eqb
         page_content].
    reflexivity. }
  split; [|split].
  - rewrite map_map, length_map.
    cbn [metadata_or_empty metadata md_get String.eqb Ascii.eqb Bool.eqb].
    rewrite <- (map_map fst (fun i => Some (VInt i))).
    rewrite enumerate_fst_seq, map_map.
    replace (List.length (enumerate 0 chunks)) with (List.length chunks).
    + reflexivity.
    + rewrite <- (length_map fst (enumerate 0 chunks)), enumerate_fst_seq.
      now rewrite length_map, length_seq.
  - rewrite Forall_map, Forall_forall. intros ic _. split; [|split].
    + rewrite Hid. reflexivity.
    + reflexivity.
    + eexists. split; [reflexivity|]. now split.
  - intros d d' Hd Hd' Hc.
    apply in_map_iff in Hd. destruct Hd as [ic [<- _]].
    apply in_map_iff in Hd'. destruct Hd' as [ic' [<- _]].
    cbn [page_content] in Hc. rewrite !Hid. now rewrite Hc.
Qed.

(** The theorem for a text cut into two chunks. *)
Lemma split_with_metadata_ids_witness :
  exists docs,
    split_with_metadata splitter_two "text" (VStr "a.pdf") 500 100 = Ok docs
    /\ map (fun d => md_get (metadata_or_empty d) "chunk_id") docs
       = [Some (VInt 0); Some (VInt 1)].
Proof.
  eexists. split; [reflexivity|].
  exact (proj1 (split_with_metadata_ids splitter_two
                  (world_of secret_seed0 vs_abc) indexer_ok "text"
                  (VStr "a.pdf") 500 100 _ eq_refl)).
Defined.

(** * A chunk found by both backends *)

Lemma dense_search_first vs q k t hits :
  similarity_search_with_score vs q k = Ok hits ->
  _dense_search vs q k t = (Ok hits, t ++ [EvSearchWithScore q k]).
Proof. unfold _dense_search, try_except, call. now intros ->. Qed.

Lemma collect_ids_from W hits : forall bank ids,
  snd (fold_left (collect W) hits (bank, ids))
  = ids ++ map (fun h => doc_id_of W (fst h)) hits.
Proof.
  induction hits as [|hit hits IH]; intros bank ids; cbn [fold_left map].
  - cbn [snd]. now rewrite app_nil_r.
  - unfold collect at 2. rewrite IH, <- app_assoc. reflexivity.
Qed.

Lemma collect_hits_ids W bank hits :
  snd (collect_hits W bank hits) = map (fun h => doc_id_of W (fst h)) hits.
Proof. unfold collect_hits. now rewrite collect_ids_from. Qed.

(** X20. A chunk that the dense search and the BM25 search both return
    for a query is one candidate: the turn of the loop appends two ranked
    lists, the id of the chunk is in both, and the Document Bank holds a
    single entry under it. The chunk is the one written to the index, its
    stored fields coming back as written. *)
Theorem hybrid_hit_is_one_candidate
    W I vs dir bank ranked q t hits lhits d score e r :
  bank_ok W bank ->
  similarity_search_with_score vs q DENSE_TOP_K = Ok hits ->
  In (d, score) hits ->
  HAS_BM25 W = true ->
  os_path_isdir W dir = Ok true ->
  whoosh_search W dir q BM25_TOP_K = Ok lhits ->
  In r lhits ->
  index_entry I d = Ok e ->
  stores e r ->
  exists bank' dense_ids lex_ids t',
    fan_out_step W vs dir (bank, ranked) q t
    = (Ok (bank', ranked ++ [dense_ids; lex_ids]), t')
    /\ In (doc_id_of W d) dense_ids
    /\ In (doc_id_of W d) lex_ids
    /\ NoDup (keys bank')
    /\ In (doc_id_of W d) (keys bank').
Proof.
  intros Hb Hd Hin Hhas Hdir Hw Hr He Hst.
  pose (lex := map (fun r => (hit_document r, hit_score r)) lhits).
  destruct (collect_hits_spec W bank hits Hb) as [Hb1 _].
  pose proof (collect_hits_ids W bank hits) as Hids1.
  destruct (collect_hits W bank hits) as [bank1 dense_ids] eqn:E1.
  cbn [fst snd] in Hb1, Hids1.
  destruct (collect_hits_spec W bank1 lex Hb1) as [Hb2 [_ Hinc2]].
  pose proof (collect_hits_ids W bank1 lex) as Hids2.
  destruct (collect_hits W bank1 lex) as [bank2 lex_ids] eqn:E2.
  cbn [fst snd] in Hb2, Hinc2, Hids2.
  assert (Hlex : In (doc_id_of W d) lex_ids).
  { rewrite Hids2. unfold lex. rewrite map_map. cbn [fst].
    destruct (hit_keeps_id W I d e r He Hst) as [<- _].
    apply (in_map (fun r => doc_id_of W (hit_document r))), Hr. }
  exists bank2, dense_ids, lex_ids. eexists. split; [|split; [|split]].
  - unfold fan_out_step. unfold bind at 1.
    rewrite (dense_search_first _ _ _ _ _ Hd), E1.
    unfold bind at 1. rewrite Hhas. unfold call at 1. rewrite Hdir.
    unfold try_except, bind. rewrite search_bm25_eq, Hw.
    fold lex. rewrite E2. unfold ret.
    rewrite <- app_assoc. reflexivity.
  - rewrite Hids1.
    apply (in_map (fun h => doc_id_of W (fst h)) hits (d, score)), Hin.
  - exact Hlex.
  - split; [apply Hb2|]. apply Hinc2, Hlex.
Qed.

(** The theorem in the example world: the chunk B is ranked by both
    backends for the query. *)
Lemma hybrid_hit_is_one_candidate_witness :
  exists bank' dense_ids lex_ids t',
    fan_out_step (world_of secret_seed0 vs_a_b_paged) vs_a_b_paged
      (VStr BM25_DIR) ([], []) "q" []
    = (Ok (bank', [] ++ [dense_ids; lex_ids]), t')
    /\ In (VStr "B") dense_ids
    /\ In (VStr "B") lex_ids.
Proof.
  destruct (hybrid_hit_is_one_candidate
              (world_of secret_seed0 vs_a_b_paged) indexer_ok vs_a_b_paged
              (VStr BM25_DIR) [] [] "q" []
              [(doc_a, 0.75%float); (doc_b_paged, 0.5%float)]
              [hit_b; hit_c] doc_b_paged 0.5%float
              {| entry_doc_id := VStr "B"; entry_source := VStr "b.pdf";
                 entry_page := 1; entry_content := "beta" |}
              hit_b)
    as [bank' [dense_ids [lex_ids [t' [H [H1 [H2 _]]]]]]].
  - split; [constructor|]. intros id d [].
  - reflexivity.
  - right. now left.
  - reflexivity.
  - reflexivity.
  - reflexivity.
  - now left.
  - reflexivity.
  - repeat split.
  - exists bank', dense_ids, lex_ids, t'. now repeat split.
Defined.
